(** * Quality-inspection pipeline: conversation parser, inspection-response
      parser, report aggregation and review workflow.

    Shallow embedding of
      app/assistants/quality_inspector/conversation_parser.py
      app/assistants/quality_inspector/auto_inspector.py
      app/assistants/quality_inspector/report_generator.py
    Python [str] values are sequences of Unicode code points; the regular
    expressions of the source are kept as data and run by a backtracking
    matcher with the semantics of Python's [re] module. *)

From Stdlib Require Import ZArith NArith QArith List String Ascii Lia Lqa
  Sorted Permutation.
From stdpp Require Import base option list gmap.

Set Default Proof Using "Type".

(* ===================================================================== *)
(** * Python strings *)
(* ===================================================================== *)

(** A Python [str] is a sequence of code points. *)
Abbreviation str := (list N).

(** Decoding of a UTF-8 byte sequence; used to write [str] literals. *)
Fixpoint utf8_decode (bs : list N) : str :=
  match bs with
  | [] => []
  | b0 :: t =>
      if (b0 <? 0x80)%N then b0 :: utf8_decode t
      else if (b0 <? 0xE0)%N then
        match t with
        | b1 :: t1 => ((b0 - 0xC0) * 64 + (b1 - 0x80))%N :: utf8_decode t1
        | _ => []
        end
      else if (b0 <? 0xF0)%N then
        match t with
        | b1 :: b2 :: t2 =>
            ((b0 - 0xE0) * 4096 + (b1 - 0x80) * 64 + (b2 - 0x80))%N
              :: utf8_decode t2
        | _ => []
        end
      else
        match t with
        | b1 :: b2 :: b3 :: t3 =>
            ((b0 - 0xF0) * 262144 + (b1 - 0x80) * 4096
             + (b2 - 0x80) * 64 + (b3 - 0x80))%N :: utf8_decode t3
        | _ => []
        end
  end.

Fixpoint bytes_of_string (s : string) : list N :=
  match s with
  | EmptyString => []
  | String a s' => N_of_ascii a :: bytes_of_string s'
  end.

(** [py "..."] is the Python string written by the UTF-8 literal. *)
Definition py (s : string) : str := utf8_decode (bytes_of_string s).

(** [str.isspace] on one character, which is also the class [\s] of [re]
    on [str] patterns (Unicode 14). *)
Definition isspace (c : N) : bool :=
  ((0x09 <=? c) && (c <=? 0x0D) || (0x1C <=? c) && (c <=? 0x20)
   || (c =? 0x85) || (c =? 0xA0) || (c =? 0x1680)
   || (0x2000 <=? c) && (c <=? 0x200A)
   || (c =? 0x2028) || (c =? 0x2029) || (c =? 0x202F) || (c =? 0x205F)
   || (c =? 0x3000))%N.

(** First code point of every block of ten decimal digits (general
    category Nd, Unicode 14); the digit of value [v] of a block starting at
    [b] is [b + v]. *)
Definition digit_blocks : list N :=
  [0x30; 0x660; 0x6f0; 0x7c0; 0x966; 0x9e6; 0xa66; 0xae6; 0xb66; 0xbe6;
   0xc66; 0xce6; 0xd66; 0xde6; 0xe50; 0xed0; 0xf20; 0x1040; 0x1090; 0x17e0;
   0x1810; 0x1946; 0x19d0; 0x1a80; 0x1a90; 0x1b50; 0x1bb0; 0x1c40; 0x1c50;
   0xa620; 0xa8d0; 0xa900; 0xa9d0; 0xa9f0; 0xaa50; 0xabf0; 0xff10; 0x104a0;
   0x10d30; 0x11066; 0x110f0; 0x11136; 0x111d0; 0x112f0; 0x11450; 0x114d0;
   0x11650; 0x116c0; 0x11730; 0x118e0; 0x11950; 0x11c50; 0x11d50; 0x11da0;
   0x16a60; 0x16ac0; 0x16b50; 0x1d7ce; 0x1d7d8; 0x1d7e2; 0x1d7ec; 0x1d7f6;
   0x1e140; 0x1e2f0; 0x1e950; 0x1fbf0]%N.

Definition in_block (c b : N) : bool := ((b <=? c) && (c <? b + 10))%N.

(** The class [\d] of [re] on [str] patterns. *)
Definition isdecimal (c : N) : bool := existsb (in_block c) digit_blocks.

(** Value of a decimal digit (0 for any other character). *)
Definition digit_value (c : N) : N :=
  match find (in_block c) digit_blocks with
  | Some b => (c - b)%N
  | None => 0%N
  end.

Definition str_eqb (a b : str) : bool := bool_decide (a = b).

(** [s.startswith(p)] *)
Fixpoint startswith (p s : str) : bool :=
  match p, s with
  | [], _ => true
  | x :: p', y :: s' => (x =? y)%N && startswith p' s'
  | _ :: _, [] => false
  end.

(** [sub in s] *)
Fixpoint contains (sub s : str) : bool :=
  startswith sub s
  || match s with
     | [] => false
     | _ :: s' => contains sub s'
     end.

(** [s.lstrip()], [s.rstrip()], [s.strip()] *)
Fixpoint lstrip (s : str) : str :=
  match s with
  | c :: s' => if isspace c then lstrip s' else s
  | [] => []
  end.

Definition rstrip (s : str) : str := rev (lstrip (rev s)).

Definition strip (s : str) : str := rstrip (lstrip s).

(** [s.split(sep)] for a one-character separator: always at least one
    piece. *)
Fixpoint split_char (sep : N) (s : str) : list str :=
  match s with
  | [] => [[]]
  | c :: s' =>
      if (c =? sep)%N then [] :: split_char sep s'
      else match split_char sep s' with
           | piece :: rest => (c :: piece) :: rest
           | [] => [[c]]
           end
  end.

(** [s.split(sep, 1)] for a one-character separator. *)
Fixpoint split_once (sep : N) (s : str) : list str :=
  match s with
  | [] => [[]]
  | c :: s' =>
      if (c =? sep)%N then [[]; s']
      else match split_once sep s' with
           | piece :: rest => (c :: piece) :: rest
           | [] => [[c]]
           end
  end.

(** [sep.join(pieces)] *)
Fixpoint join (sep : str) (pieces : list str) : str :=
  match pieces with
  | [] => []
  | [p] => p
  | p :: rest => p ++ sep ++ join sep rest
  end.

(* ===================================================================== *)
(** * Regular expressions, with the semantics of Python's [re] *)
(* ===================================================================== *)

Module Re.

(** The constructs the patterns of the source use. *)
Inductive regex : Type :=
| Eps                                   (* empty pattern *)
| Chr (p : N -> bool)                   (* one character of a class *)
| Seq (r1 r2 : regex)
| Alt (r1 r2 : regex)                   (* r1|r2, left first *)
| Star (greedy : bool) (r : regex)      (* r* and r*? *)
| Group (i : nat) (r : regex)           (* capturing group number i *)
| Look (r : regex)                      (* (?=r) *)
| Eos                                   (* $ without MULTILINE *)
| Eol.                                  (* $ with MULTILINE *)

Definition Plus (greedy : bool) (r : regex) : regex :=
  Seq r (Star greedy r).
Definition Opt (r : regex) : regex := Alt r Eps.
Definition One (c : N) : regex := Chr (N.eqb c).
Fixpoint Lit (s : str) : regex :=
  match s with
  | [] => Eps
  | [c] => One c
  | c :: s' => Seq (One c) (Lit s')
  end.
Fixpoint Alts (rs : list regex) : regex :=
  match rs with
  | [] => Chr (fun _ => false)
  | [r] => r
  | r :: rs' => Alt r (Alts rs')
  end.

(** Captured groups: number and captured text. *)
Definition caps := list (nat * str).

Definition set_cap (i : nat) (v : str) (c : caps) : caps :=
  (i, v) :: List.filter (fun kv => negb (Nat.eqb (fst kv) i)) c.

(** [m.group(i)], with the empty string for a group that did not take
    part in the match, as [findall] reports it. *)
Fixpoint group (i : nat) (c : caps) : str :=
  match c with
  | [] => []
  | (j, v) :: c' => if Nat.eqb i j then v else group i c'
  end.

Fixpoint group_opt (i : nat) (c : caps) : option str :=
  match c with
  | [] => None
  | (j, v) :: c' => if Nat.eqb i j then Some v else group_opt i c'
  end.

Definition at_eos (s : str) : bool :=
  match s with
  | [] => true
  | [c] => (c =? 10)%N
  | _ => false
  end.

Definition at_eol (s : str) : bool :=
  match s with
  | [] => true
  | c :: _ => (c =? 10)%N
  end.

Definition orelse {A} (x y : option A) : option A :=
  match x with
  | Some _ => x
  | None => y
  end.

(** Iterations of a repetition. [body] matches the repeated pattern
    once; an iteration that consumes nothing ends the repetition, as in
    [re]. Greedy: one more iteration is tried before the continuation
    [k]; lazy: [k] is tried first. *)
Fixpoint star_loop {R : Type} (greedy : bool)
    (body : str -> caps -> (str -> caps -> option R) -> option R)
    (k : str -> caps -> option R) (n : nat) (s : str) (c : caps)
    {struct n} : option R :=
  match n with
  | O => k s c
  | S n' =>
      let more :=
        body s c (fun s' c' =>
          if Nat.ltb (length s') (length s)
          then star_loop greedy body k n' s' c' else None) in
      if greedy then orelse more (k s c) else orelse (k s c) more
  end.

(** Backtracking matcher in continuation-passing style: [mt r s c k]
    matches [r] at the head of [s] and hands the remaining input and
    the captures to [k]; alternatives are tried in the order of [re]
    (left branch first, greedy repetition longest first, lazy
    repetition shortest first). Every iteration of a repetition
    consumes input, so [1 + length s] iterations always suffice. A
    lookahead keeps the captures of its first match and is not
    re-entered. *)
Fixpoint mt (r : regex) {R : Type} (s : str) (c : caps)
    (k : str -> caps -> option R) {struct r} : option R :=
  match r with
  | Eps => k s c
  | Chr p =>
      match s with
      | x :: s' => if p x then k s' c else None
      | [] => None
      end
  | Seq r1 r2 => mt r1 s c (fun s' c' => mt r2 s' c' k)
  | Alt r1 r2 => orelse (mt r1 s c k) (mt r2 s c k)
  | Star g r1 =>
      star_loop g (fun s' c' k' => mt r1 s' c' k') k (S (length s)) s c
  | Group i r1 =>
      mt r1 s c (fun s' c' =>
        k s' (set_cap i (take (length s - length s') s) c'))
  | Look r1 =>
      match mt r1 s c (fun _ c' => Some c') with
      | Some c' => k s c'
      | None => None
      end
  | Eos => if at_eos s then k s c else None
  | Eol => if at_eol s then k s c else None
  end.

(** A match: the text before it, the matched text, the text after it and
    the captured groups. *)
Record rmatch := {
  m_pre : str;
  m_text : str;
  m_post : str;
  m_caps : caps
}.

(** [re.match] at the head of [s]. *)
Definition match_here (r : regex) (s : str) : option (str * caps) :=
  mt r s [] (fun s' c' => Some (s', c')).

(** [re.search(r, s)]: the leftmost match; [pre] is the text already
    scanned, in reverse. *)
Fixpoint search_from (r : regex) (pre : str) (s : str) : option rmatch :=
  match match_here r s with
  | Some (s', c) =>
      Some {| m_pre := rev pre;
              m_text := take (length s - length s') s;
              m_post := s';
              m_caps := c |}
  | None =>
      match s with
      | [] => None
      | x :: s' => search_from r (x :: pre) s'
      end
  end.

Definition search (r : regex) (s : str) : option rmatch :=
  search_from r [] s.

(** All non-overlapping matches, left to right. The patterns of the
    source cannot match the empty string; after an empty match the scan
    moves on by one character. *)
Fixpoint matches_fuel (n : nat) (r : regex) (s : str) : list rmatch :=
  match n with
  | O => []
  | S n' =>
      match search r s with
      | None => []
      | Some m =>
          m :: match m_text m, m_post m with
               | [], [] => []
               | [], _ :: rest => matches_fuel n' r rest
               | _ :: _, rest => matches_fuel n' r rest
               end
      end
  end.

Definition matches (r : regex) (s : str) : list rmatch :=
  matches_fuel (S (length s)) r s.

(** [re.findall(r, s)] for a pattern with the groups [1..n], [n >= 2]:
    one tuple of group texts for every match. *)
Definition findall (ngroups : nat) (r : regex) (s : str) : list (list str) :=
  map (fun m => map (fun i => group i (m_caps m)) (seq 1 ngroups))
      (matches r s).

(** [re.split(r, s)] for a pattern without groups. *)
Fixpoint split_fuel (n : nat) (r : regex) (s : str) : list str :=
  match n with
  | O => [s]
  | S n' =>
      match search r s with
      | None => [s]
      | Some m =>
          match m_text m with
          | [] => [s]
          | _ :: _ => m_pre m :: split_fuel n' r (m_post m)
          end
      end
  end.

Definition split (r : regex) (s : str) : list str :=
  split_fuel (S (length s)) r s.

(** Character classes. *)
Definition any : N -> bool := fun _ => true.           (* . with DOTALL *)
Definition not_nl : N -> bool := fun c => negb (c =? 10)%N.  (* . *)
Definition oneof (cs : str) : N -> bool :=
  fun c => existsb (N.eqb c) cs.
Definition cls_or (p q : N -> bool) : N -> bool := fun c => p c || q c.

(** [cap_inv P r]: matching [r] hands to its continuation only captures
    that satisfy [P], when it starts from such captures. *)
Definition cap_inv (P : caps -> Prop) (r : regex) : Prop :=
  forall R s c (k : str -> caps -> option R) x,
    P c -> mt r s c k = Some x -> exists s' c', P c' /\ k s' c' = Some x.

End Re.


(* ===================================================================== *)
(** * Python values, exceptions and the interpreter's services *)
(* ===================================================================== *)

(** The values [json.loads] produces, which are also the values the
    untyped fields of the data model hold. A [dict] keeps its items in
    insertion order, with distinct keys. Floats are held by their exact
    value. *)
#[warnings="-register-all"]
Inductive pyval : Type :=
| PNone
| PBool (b : bool)
| PInt (z : Z)
| PFloat (q : Q)
| PStr (s : str)
| PList (l : list pyval)
| PDict (items : list (str * pyval)).

(** Truth value of a Python object, as [x or y] tests it. *)
Definition truthy (v : pyval) : bool :=
  match v with
  | PNone => false
  | PBool b => b
  | PInt z => negb (z =? 0)%Z
  | PFloat q => negb (Qeq_bool q 0)
  | PStr s => negb (bool_decide (s = []))
  | PList l => match l with [] => false | _ => true end
  | PDict d => match d with [] => false | _ => true end
  end.

(** [x or y] *)
Definition py_or (x y : pyval) : pyval := if truthy x then x else y.

(** [d.get(k, default)] on the items of a dict. *)
Fixpoint dict_get (k : str) (items : list (str * pyval)) (default : pyval)
    : pyval :=
  match items with
  | [] => default
  | (k', v) :: rest => if str_eqb k k' then v else dict_get k rest default
  end.

Fixpoint dict_has (k : str) (items : list (str * pyval)) : bool :=
  match items with
  | [] => false
  | (k', _) :: rest => str_eqb k k' || dict_has k rest
  end.

Inductive exn : Type :=
| JSONDecodeError (msg : str)
| ValueError (msg : str)
| UnboundLocalError (var : string)
| AttributeError (receiver : pyval) (attr : string)
| TypeError_not_iterable (v : pyval)
| TypeError_unhashable (v : pyval)
| UnicodeEncodeError (s : str)
| ServiceError (msg : str).         (* raised by a collaborator *)

Inductive result (A : Type) : Type :=
| Ok (a : A)
| Raise (e : exn).
Arguments Ok {A} a.
Arguments Raise {A} e.

#[global] Instance result_ret : MRet result := @Ok.
#[global] Instance result_bind : MBind result := fun A B f m =>
  match m with
  | Ok a => f a
  | Raise e => Raise e
  end.

(** [try: body / except Exception as e: handler(e)] *)
Definition try_except {A} (body : result A) (handler : exn -> result A)
    : result A :=
  match body with
  | Ok a => Ok a
  | Raise e => handler e
  end.

(** Outcome of [json.loads]: a value, or the message of the
    [JSONDecodeError] it raises. Exhaustion of the interpreter's resources
    (recursion depth, memory) is outside the model. *)
Inductive decoded : Type :=
| Decoded (v : pyval)
| DecodeError (msg : str).

(** What the interpreter and its standard library provide, outside this
    repository. *)
Class Runtime : Type := {
  json_loads : str -> decoded;          (* json.loads *)
  md5_hexdigest : list N -> str;        (* hashlib.md5(b).hexdigest() *)
  isalnum : N -> bool;                  (* str.isalnum on one character *)
  py_str : pyval -> str;                (* str(v) of a value *)
  builtin_msg : exn -> str;             (* str(e) of a built-in error *)
  str_lower : str -> str                (* str.lower *)
}.

(** [str(e)] *)
Definition exn_str `{Runtime} (e : exn) : str :=
  match e with
  | JSONDecodeError m => m
  | ValueError m => m
  | ServiceError m => m
  | _ => builtin_msg e
  end.

(** [str(v)]; the identity on a string. *)
Definition to_str `{Runtime} (v : pyval) : str :=
  match v with
  | PStr s => s
  | _ => py_str v
  end.

Definition is_surrogate (c : N) : bool := ((0xD800 <=? c) && (c <=? 0xDFFF))%N.

Definition utf8_encode_char (c : N) : list N :=
  if (c <? 0x80)%N then [c]
  else if (c <? 0x800)%N then [0xC0 + c / 64; 0x80 + c mod 64]%N
  else if (c <? 0x10000)%N then
    [0xE0 + c / 4096; 0x80 + (c / 64) mod 64; 0x80 + c mod 64]%N
  else
    [0xF0 + c / 262144; 0x80 + (c / 4096) mod 64;
     0x80 + (c / 64) mod 64; 0x80 + c mod 64]%N.

(** [s.encode()]: UTF-8, refusing lone surrogates. *)
Definition str_encode (s : str) : result (list N) :=
  if existsb is_surrogate s then Raise (UnicodeEncodeError s)
  else Ok (flat_map utf8_encode_char s).

(* ===================================================================== *)
(** * conversation_parser.py *)
(* ===================================================================== *)

(** [DialogueTurn]. The constructor stores [timestamp or datetime.now()]:
    [timestamp] is [Some v] for a given, truthy [v] and [None] where the
    clock was read. *)
Record DialogueTurn : Type := {
  speaker : pyval;
  content : pyval;
  timestamp : option pyval;
  emotion : pyval;
  intent : pyval
}.

Definition mkDialogueTurn (speaker content timestamp : pyval) : DialogueTurn :=
  {| speaker := speaker;
     content := content;
     timestamp := if truthy timestamp then Some timestamp else None;
     emotion := PNone;
     intent := PNone |}.

(** [ParsedConversation] ([parsed_at], a clock reading, is left out). *)
Record ParsedConversation : Type := {
  session_id : pyval;
  participants : list pyval;
  turns : list DialogueTurn;
  metadata : gmap str pyval
}.

(** Keys of a [set]: the hashable values, compared as Python compares
    them ([True == 1 == 1.0]). *)
Definition hashable (v : pyval) : bool :=
  match v with
  | PList _ | PDict _ => false
  | _ => true
  end.

Definition num_of (v : pyval) : option Q :=
  match v with
  | PBool b => Some (if b then 1 else 0)%Q
  | PInt z => Some (inject_Z z)
  | PFloat q => Some q
  | _ => None
  end.

Definition key_eqb (a b : pyval) : bool :=
  match a, b with
  | PNone, PNone => true
  | PStr s, PStr t => str_eqb s t
  | _, _ =>
      match num_of a, num_of b with
      | Some x, Some y => Qeq_bool x y
      | _, _ => false
      end
  end.

(** [list(set(vs))]: the distinct values. Python leaves the order of a
    set open; the model lists them in order of first occurrence. *)
Fixpoint set_add (v : pyval) (seen : list pyval) : list pyval :=
  match seen with
  | [] => [v]
  | w :: rest => if key_eqb v w then seen else w :: set_add v rest
  end.

Definition list_of_set (vs : list pyval) : result (list pyval) :=
  fold_left (fun acc v =>
               seen ← acc;
               if hashable v then Ok (set_add v seen)
               else Raise (TypeError_unhashable v))
            vs (Ok []).

Section parser.
Context `{Runtime}.

Import Re.

Definition Seqs (rs : list regex) : regex :=
  fold_right Seq Eps rs.

Definition colon : N -> bool := oneof (py "：:").

(** (客户|用户|Customer|User) *)
Definition speaker_labels : regex :=
  Alts [Lit (py "客户"); Lit (py "用户"); Lit (py "Customer");
        Lit (py "User")].

Definition isword (c : N) : bool := isalnum c || (c =? 0x5F)%N.

(** The three patterns of [extract_dialogue_turns], compiled with
    [re.DOTALL], each with its number of groups.
    1: (客户|用户|Customer|User)[：:]\s*(.+?)(?=(客户|用户|Customer|User)[：:]|$)
    2: \[(.*?)\]\s*(.+?)(?=\[|$)
    3: (\w+)[（(](.+?)[）)]\s*(.+) *)
Definition pattern1 : regex :=
  Seqs [Group 1 speaker_labels; Chr colon; Star true (Chr isspace);
        Group 2 (Plus false (Chr any));
        Look (Alt (Seq (Group 3 speaker_labels) (Chr colon)) Eos)].

Definition pattern2 : regex :=
  Seqs [One 0x5B; Group 1 (Star false (Chr any)); One 0x5D;
        Star true (Chr isspace); Group 2 (Plus false (Chr any));
        Look (Alt (One 0x5B) Eos)].

Definition pattern3 : regex :=
  Seqs [Group 1 (Plus true (Chr isword)); Chr (oneof (py "（("));
        Group 2 (Plus false (Chr any)); Chr (oneof (py "）)"));
        Star true (Chr isspace); Group 3 (Plus true (Chr any))].

Definition patterns : list (regex * nat) :=
  [(pattern1, 3); (pattern2, 2); (pattern3, 3)].

Definition text_turn (speaker content : str) : DialogueTurn :=
  mkDialogueTurn (PStr speaker) (PStr content) PNone.

(** Body of [for match in matches]: speaker from [match[0]], content
    from [match[-1]], kept when the content is not empty. *)
Definition turn_of_match (turns : list DialogueTurn) (m : list str)
    : list DialogueTurn :=
  if (2 <=? length m)%nat then
    let speaker := strip (nth 0 m []) in
    let content := strip (List.last m []) in
    match content with
    | [] => turns
    | _ :: _ => turns ++ [text_turn speaker content]
    end
  else turns.

(** [for pattern in patterns]: the first pattern with a match decides,
    then [break]. *)
Fixpoint pattern_turns (ps : list (regex * nat)) (conversation : str)
    : list DialogueTurn :=
  match ps with
  | [] => []
  | (r, n) :: ps' =>
      match findall n r conversation with
      | [] => pattern_turns ps' conversation
      | ms => fold_left turn_of_match ms []
      end
  end.

(** State of the line scanner: turns, current speaker, current content. *)
Definition scan_state : Type := list DialogueTurn * str * list str.

Definition scan_line (st : scan_state) (line : str) : scan_state :=
  let '(turns, current_speaker, current_content) := st in
  let line := strip line in
  match line with
  | [] => st
  | _ :: _ =>
      if contains (py ":") line then
        let '(turns, current_content) :=
          match current_content with
          | [] => (turns, current_content)
          | _ :: _ =>
              (turns ++ [text_turn current_speaker
                                   (join (py " ") current_content)], [])
          end in
        let parts := split_once 0x3A line in
        (turns, strip (nth 0 parts []),
         current_content
           ++ [if (1 <? length parts)%nat then strip (nth 1 parts [])
               else []])
      else (turns, current_speaker, current_content ++ [line])
  end.

Definition scan_lines (conversation : str) : list DialogueTurn :=
  let '(turns, current_speaker, current_content) :=
    fold_left scan_line (split_char 10 conversation)
              ([], py "未知", []) in
  match current_content with
  | [] => turns
  | _ :: _ =>
      turns ++ [text_turn current_speaker (join (py " ") current_content)]
  end.

Definition extract_dialogue_turns (conversation : str)
    : list DialogueTurn :=
  match pattern_turns patterns conversation with
  | [] => scan_lines conversation
  | turns => turns
  end.

(** [detect_format] *)
Definition detect_format (content : str) : str :=
  let content := strip content in
  let is_json :=
    if startswith (py "{") content || startswith (py "[") content then
      match json_loads content with
      | Decoded _ => true
      | DecodeError _ => false
      end
    else false in
  if is_json then py "json"
  else if contains (py ":") content || contains (py "：") content
  then py "text"
  else py "unknown".

Definition _parse_text (raw_content : str) : result ParsedConversation :=
  let turns := extract_dialogue_turns raw_content in
  participants ← list_of_set (map speaker turns);
  encoded ← str_encode raw_content;
  let session_id := take 12 (md5_hexdigest encoded) in
  Ok {| session_id := PStr session_id;
        participants := participants;
        turns := turns;
        metadata := {[ py "format" := PStr (py "text") ]} |}.

(** [turn.get(...)]: only a dict has the method. *)
Definition turn_of_json (turn : pyval) : result DialogueTurn :=
  match turn with
  | PDict items =>
      Ok (mkDialogueTurn (dict_get (py "speaker") items (PStr (py "未知")))
                         (dict_get (py "content") items (PStr []))
                         (dict_get (py "timestamp") items PNone))
  | _ => Raise (AttributeError turn "get")
  end.

(** [for turn in v]: the elements of a list, the keys of a dict, the
    characters of a string. *)
Definition py_iter (v : pyval) : result (list pyval) :=
  match v with
  | PList l => Ok l
  | PDict items => Ok (map (fun kv => PStr (fst kv)) items)
  | PStr s => Ok (map (fun c => PStr [c]) s)
  | _ => Raise (TypeError_not_iterable v)
  end.

(** The list comprehension building the turns, left to right. *)
Fixpoint turns_of_json (elems : list pyval) : result (list DialogueTurn) :=
  match elems with
  | [] => Ok []
  | e :: rest =>
      t ← turn_of_json e;
      ts ← turns_of_json rest;
      Ok (t :: ts)
  end.

Definition parse_error (msg : str) : ParsedConversation :=
  {| session_id := PStr (py "parse_error");
     participants := [];
     turns := [];
     metadata := {[ py "error" := PStr msg ]} |}.

(** [_parse_json]. The local [session_id] is bound in the [dict] branch
    only ([Some]); reading it unbound raises. [JSONDecodeError] is the
    one exception handled here. *)
Definition _parse_json (raw_content : str) : result ParsedConversation :=
  match json_loads raw_content with
  | DecodeError msg =>
      Ok (parse_error (py "JSON解析错误: " ++ exn_str (JSONDecodeError msg)))
  | Decoded data =>
      let branch : result (option (list DialogueTurn * option pyval)) :=
        match data with
        | PList elems =>
            turns ← turns_of_json elems;
            Ok (Some (turns, None))
        | PDict items =>
            elems ← py_iter (dict_get (py "turns") items
                               (dict_get (py "conversation") items
                                         (PList [])));
            turns ← turns_of_json elems;
            Ok (Some (turns,
                      Some (dict_get (py "session_id") items
                                     (PStr (py "json_session")))))
        | _ => Ok None
        end in
      b ← branch;
      match b with
      | None => Ok (parse_error (py "无效的JSON格式"))
      | Some (turns, session_id) =>
          participants ← list_of_set (map speaker turns);
          sid ← match session_id with
                | Some v => Ok v
                | None => Raise (UnboundLocalError "session_id")
                end;
          Ok {| session_id := py_or sid (PStr (py "json_session"));
                participants := participants;
                turns := turns;
                metadata := {[ py "format" := PStr (py "json") ]} |}
      end
  end.

(** [parse_conversation] *)
Definition parse_conversation (raw_content : str) (format_type : str)
    : result ParsedConversation :=
  try_except
    (if str_eqb format_type (py "json") then _parse_json raw_content
     else _parse_text raw_content)
    (fun e => Ok (parse_error (exn_str e))).

End parser.

(** The turns of the first strategy, the speaker-marker pattern, and the
    labels it knows. *)
Definition speaker_marker_turns (conversation : str) : list DialogueTurn :=
  fold_left turn_of_match (Re.findall 3 pattern1 conversation) [].

Definition known_labels : list str :=
  [py "客户"; py "用户"; py "Customer"; py "User"].

(** The third group of the speaker-marker pattern is unset or a label. *)
Definition third_is_label (c : Re.caps) : Prop :=
  Re.group 3 c = [] \/ Re.group 3 c ∈ known_labels.

(** The test [detect_format] makes for JSON: the stripped content opens
    with a brace or a bracket and [json.loads] accepts it. *)
Definition valid_json `{Runtime} (content : str) : bool :=
  (startswith (py "{") (strip content) || startswith (py "[") (strip content))
  && match json_loads (strip content) with
     | Decoded _ => true
     | DecodeError _ => false
     end.

Definition has_colon (content : str) : bool :=
  contains (py ":") content || contains (py "：") content.

(** The ways a parse fails, each with the cause it reports: an exception
    raised in the branch taken, JSON that does not decode, decoded JSON
    that is neither an array nor an object. *)
Definition parse_branch `{Runtime} (raw_content format_type : str)
    : result ParsedConversation :=
  if str_eqb format_type (py "json") then _parse_json raw_content
  else _parse_text raw_content.



(* ===================================================================== *)
(** * config/constants.py *)
(* ===================================================================== *)

Module IssueSeverity.
Definition LOW : str := py "低".
Definition MEDIUM : str := py "中".
Definition HIGH : str := py "高".
Definition CRITICAL : str := py "严重".
End IssueSeverity.

Module PromptTemplates.
(** [QUALITY_INSPECT.format(conversation=c)] *)
Definition QUALITY_INSPECT (conversation : str) : str :=
  py "
请对以下客服对话进行质量检查：

对话内容：
" ++ conversation ++ py "

检查要点：
1. 服务态度
2. 问题解决能力
3. 专业性
4. 合规性

请给出评分（满分100分）和改进建议。
".

(** [COMPLIANCE_CHECK.format(conversation=c)] *)
Definition COMPLIANCE_CHECK (conversation : str) : str :=
  py "
请检查以下客服对话的合规性：

对话内容：
" ++ conversation ++ py "

请检查是否存在违规内容，并给出评分。
".
End PromptTemplates.

(* ===================================================================== *)
(** * auto_inspector.py *)
(* ===================================================================== *)

(** [QualityIssue] ([detected_at], a clock reading, is left out). *)
Record QualityIssue : Type := {
  issue_type : str;
  description : str;
  severity : str;
  location : option str;
  suggestion : option str;
  evidence : option str
}.

(** [InspectionReport] ([generated_at] is left out). Scores are Python
    floats; the model holds their exact value and does not round. *)
Record InspectionReport : Type := {
  r_session_id : pyval;
  overall_score : Q;
  attitude_score : Q;
  professionalism_score : Q;
  compliance_score : Q;
  issues : list QualityIssue;
  summary : option str
}.

(** Value of a run of decimal digits. *)
Definition digits_value (ds : str) : N :=
  fold_left (fun acc d => (acc * 10 + digit_value d)%N) ds 0%N.

Definition pow10 (n : nat) : positive := Nat.iter n (Pos.mul 10) 1%positive.

(** Longest prefix of characters of a class, and the rest. *)
Fixpoint span (p : N -> bool) (s : str) : str * str :=
  match s with
  | c :: s' =>
      if p c then let '(a, b) := span p s' in (c :: a, b) else ([], s)
  | [] => ([], [])
  end.

(** [float(s)] on the numerals the score patterns capture, digits with an
    optional point and more digits; any other text is reported as the
    [ValueError] the source guards against. *)
Definition py_float (s : str) : result Q :=
  let '(ip, rest) := span isdecimal s in
  let bad := Raise (ValueError (py "could not convert string to float")) in
  match ip with
  | [] => bad
  | _ :: _ =>
      match rest with
      | [] => Ok (Z.of_N (digits_value ip) # 1)
      | c :: fp =>
          if (c =? 0x2E)%N && forallb isdecimal fp then
            Ok (Z.of_N (digits_value (ip ++ fp)) # pow10 (length fp))
          else bad
      end
  end.

Inductive score_key : Type :=
| overall | attitude | professionalism | compliance.

Section inspector_patterns.
Import Re.

Definition score_seps : N -> bool := cls_or (oneof (py "：:")) isspace.

(** \d+\.?\d* *)
Definition number : regex :=
  Seqs [Plus true (Chr isdecimal); Opt (One 0x2E); Star true (Chr isdecimal)].

(** label[：:\s]*(\d+\.?\d* ) *)
Definition score_pattern (label : str) : regex :=
  Seqs [Lit label; Star true (Chr score_seps); Group 1 number].

Definition score_label (key : score_key) : str :=
  match key with
  | overall => py "总体评分"
  | attitude => py "服务态度"
  | professionalism => py "专业性"
  | compliance => py "合规性"
  end.

Definition score_patterns : list (score_key * regex) :=
  map (fun key => (key, score_pattern (score_label key)))
      [overall; attitude; professionalism; compliance].

(** \d+\. *)
Definition issue_marker : regex :=
  Seqs [Plus true (Chr isdecimal); One 0x2E].

(** 总结[：:\s]*(.+?)$ with [re.MULTILINE] *)
Definition summary_pattern : regex :=
  Seqs [Lit (py "总结"); Star true (Chr score_seps);
        Group 1 (Plus false (Chr not_nl)); Eol].

(** \{[\s\S]*\} *)
Definition json_object_pattern : regex :=
  Seqs [One 0x7B; Star true (Chr (cls_or isspace (fun c => negb (isspace c))));
        One 0x7D].
End inspector_patterns.

(** The four scores, in the order overall, attitude, professionalism,
    compliance. *)
Definition scores : Type := Q * Q * Q * Q.

(** Body of [for key, pattern in score_patterns.items()]. *)
Definition score_step (response : str) (sc : scores)
    (kp : score_key * Re.regex) : scores :=
  let '(key, pattern) := kp in
  match Re.search pattern response with
  | None => sc
  | Some m =>
      match py_float (Re.group 1 (Re.m_caps m)) with
      | Raise _ => sc
      | Ok score =>
          let '(ov, at_, pr, co) := sc in
          match key with
          | overall => (score, at_, pr, co)
          | attitude => (ov, score, pr, co)
          | professionalism => (ov, at_, score, co)
          | compliance => (ov, at_, pr, score)
          end
      end
  end.

(** Body of [for block in issue_blocks[1:]]. *)
Definition issue_step (issues : list QualityIssue) (block : str)
    : list QualityIssue :=
  if contains (py "问题") block || contains (py "不足") block then
    let severity :=
      if contains (py "严重") block then IssueSeverity.HIGH
      else if contains (py "轻微") block then IssueSeverity.LOW
      else IssueSeverity.MEDIUM in
    issues ++ [{| issue_type := py "服务问题";
                  description := take 200 (strip block);
                  severity := severity;
                  location := None;
                  suggestion := None;
                  evidence := None |}]
  else issues.

Definition _parse_inspection_response (response : str) (session_id : pyval)
    : InspectionReport :=
  let '(ov, at_, pr, co) :=
    fold_left (score_step response) score_patterns (0, 0, 0, 0)%Q in
  let issue_blocks := Re.split issue_marker response in
  let issues := fold_left issue_step (tail issue_blocks) [] in
  let summary :=
    match Re.search summary_pattern response with
    | Some m => strip (Re.group 1 (Re.m_caps m))
    | None => []
    end in
  {| r_session_id := session_id;
     overall_score := ov;
     attitude_score := at_;
     professionalism_score := pr;
     compliance_score := co;
     issues := issues;
     summary := Some summary |}.

(** *** Score extraction in the words of the specification *)

(** The number at the head of [s], digits with an optional point and more
    digits, read as far as it goes, and the text after it. *)
Definition read_number (s : str) : option (str * str) :=
  let '(ip, r1) := span isdecimal s in
  match ip with
  | [] => None
  | _ :: _ =>
      match r1 with
      | c :: r2 =>
          if (c =? 0x2E)%N then
            let '(fp, r3) := span isdecimal r2 in Some (ip ++ c :: fp, r3)
          else Some (ip, r1)
      | [] => Some (ip, r1)
      end
  end.

(** The number that follows [label] at the head of [s], after any colons
    and whitespace. *)
Definition labelled_number_here (label s : str) : option str :=
  if startswith label s then
    option_map fst
      (read_number (snd (span score_seps (drop (length label) s))))
  else None.

(** The number that follows the first occurrence of [label] that is
    followed by a number. *)
Fixpoint first_labelled_number (label s : str) : option str :=
  match labelled_number_here label s with
  | Some n => Some n
  | None =>
      match s with
      | [] => None
      | _ :: s' => first_labelled_number label s'
      end
  end.

Definition report_score (report : InspectionReport) (key : score_key) : Q :=
  match key with
  | overall => overall_score report
  | attitude => attitude_score report
  | professionalism => professionalism_score report
  | compliance => compliance_score report
  end.

(** The score a label gets: the value of its first labelled number, and 0
    without one. *)
Definition score_of (response : str) (key : score_key) : Q :=
  match first_labelled_number (score_label key) response with
  | Some n =>
      match py_float n with
      | Ok q => q
      | Raise _ => 0
      end
  | None => 0
  end.

(** *** Issue extraction in the words of the specification *)

(** A numbered-list marker at the head of [s], digits followed by a
    period: the marker and the text after it. *)
Definition marker_here (s : str) : option (str * str) :=
  let '(ds, r) := span isdecimal s in
  match ds, r with
  | _ :: _, c :: rest => if (c =? 0x2E)%N then Some (ds ++ [c], rest) else None
  | _, _ => None
  end.

(** The first marker of [s]: the text before it, the marker, the text
    after it. *)
Fixpoint find_marker (s : str) : option (str * str * str) :=
  match marker_here s with
  | Some (marker, rest) => Some ([], marker, rest)
  | None =>
      match s with
      | [] => None
      | x :: s' =>
          match find_marker s' with
          | Some (pre, marker, rest) => Some (x :: pre, marker, rest)
          | None => None
          end
      end
  end.

(** The blocks between the markers; every cut removes a marker, so
    [1 + length s] cuts suffice. *)
Fixpoint split_at_markers_fuel (n : nat) (s : str) : list str :=
  match n with
  | O => [s]
  | S n' =>
      match find_marker s with
      | None => [s]
      | Some (pre, _, rest) => pre :: split_at_markers_fuel n' rest
      end
  end.

Definition split_at_markers (s : str) : list str :=
  split_at_markers_fuel (S (length s)) s.

Definition mentions_problem (block : str) : bool :=
  contains (py "问题") block || contains (py "不足") block.

Definition severity_of (block : str) : str :=
  if contains (py "严重") block then IssueSeverity.HIGH
  else if contains (py "轻微") block then IssueSeverity.LOW
  else IssueSeverity.MEDIUM.

(** The issue of a block, with a given description. *)
Definition block_issue (description block : str) : QualityIssue :=
  {| issue_type := py "服务问题";
     description := description;
     severity := severity_of block;
     location := None;
     suggestion := None;
     evidence := None |}.

(** The issues as the specification words them: one for every block that
    mentions a problem, described by the block text cut at 200
    characters. *)
Definition issues_of_all_blocks (response : str) : list QualityIssue :=
  map (fun block => block_issue (take 200 block) block)
      (List.filter mentions_problem (split_at_markers response)).

(** The language-model collaborator. *)
Class LLMClient : Type := {
  generate_text : str -> result str
}.

Section inspector.
Context `{Runtime} `{LLMClient}.

Definition _format_conversation (conversation : ParsedConversation) : str :=
  join (py "
") (map (fun turn => to_str (speaker turn) ++ py ": " ++ to_str (content turn))
          (turns conversation)).

Definition inspect_conversation (conversation : ParsedConversation)
    : InspectionReport :=
  let body : result InspectionReport :=
    let conversation_text := _format_conversation conversation in
    let prompt := PromptTemplates.QUALITY_INSPECT conversation_text in
    response ← generate_text prompt;
    Ok (_parse_inspection_response response (session_id conversation)) in
  match body with
  | Ok report => report
  | Raise e =>
      {| r_session_id := session_id conversation;
         overall_score := 0;
         attitude_score := 0;
         professionalism_score := 0;
         compliance_score := 0;
         issues := [];
         summary := Some (py "质检失败: " ++ exn_str e) |}
  end.

Definition _parse_json_response (response : str) : pyval :=
  match Re.search json_object_pattern response with
  | Some m =>
      match json_loads (Re.m_text m) with
      | Decoded v => v
      | DecodeError _ => PDict []
      end
  | None => PDict []
  end.

(** [result.get(k, default)]: only a dict has the method. *)
Definition py_get (v : pyval) (k : str) (default : pyval) : result pyval :=
  match v with
  | PDict items => Ok (dict_get k items default)
  | _ => Raise (AttributeError v "get")
  end.

(** A score that is the number zero. *)
Definition zero_score (v : pyval) : bool :=
  match v with
  | PInt z => (z =? 0)%Z
  | PFloat q => Qeq_bool q 0
  | _ => false
  end.

(** The prompt of [check_compliance] and its answer to an exception. *)
Definition compliance_prompt (conversation : ParsedConversation) : str :=
  PromptTemplates.COMPLIANCE_CHECK (_format_conversation conversation).

Definition compliance_failure (e : exn) : pyval :=
  PDict [(py "score", PInt 0); (py "error", PStr (exn_str e))].

Definition check_compliance (conversation : ParsedConversation) : pyval :=
  let body : result pyval :=
    let prompt := compliance_prompt conversation in
    response ← generate_text prompt;
    let result := _parse_json_response response in
    let compliance_issues :=
      if contains (py "违规") (str_lower response)
         || contains (py "不合规") (str_lower response)
      then [PStr (py "存在潜在的合规性问题")] else [] in
    score ← py_get result (py "score") (PInt 100);
    Ok (PDict [(py "score", score);
               (py "issues", PList compliance_issues);
               (py "details", result)]) in
  match body with
  | Ok v => v
  | Raise e => compliance_failure e
  end.

End inspector.

(* ===================================================================== *)
(** * report_generator.py *)
(* ===================================================================== *)

(** [SummaryReport] ([generated_at] is left out). [score_distribution]
    and [top_issues] keep the order of the Python dict and list. *)
Record SummaryReport : Type := {
  report_period : option str;
  total_sessions : nat;
  avg_score : Q;
  score_distribution : list (str * nat);
  top_issues : list (str * nat);
  recommendations : list str
}.

(** [SummaryReport()] *)
Definition SummaryReport_default : SummaryReport :=
  {| report_period := None;
     total_sessions := 0;
     avg_score := 0;
     score_distribution := [];
     top_issues := [];
     recommendations := [] |}.

(** [sum(xs)] and [sum(xs) / n] *)
Definition qsum (xs : list Q) : Q := fold_left Qplus xs 0%Q.

Definition mean (xs : list Q) : Q :=
  (qsum xs / inject_Z (Z.of_nat (length xs)))%Q.

Module Bucket.
Definition excellent : str := py "优秀(90-100)".
Definition good : str := py "良好(80-89)".
Definition pass : str := py "合格(60-79)".
Definition fail : str := py "不合格(<60)".
End Bucket.

(** [d[k] += 1] on a dict in insertion order. *)
Fixpoint dict_incr (k : str) (d : list (str * nat)) : list (str * nat) :=
  match d with
  | [] => []
  | (k', n) :: rest =>
      if str_eqb k k' then (k', S n) :: rest else (k', n) :: dict_incr k rest
  end.

(** The [if/elif] chain choosing the bucket of a score. *)
Definition bucket_of (score : Q) : str :=
  if Qle_bool 90 score then Bucket.excellent
  else if Qle_bool 80 score then Bucket.good
  else if Qle_bool 60 score then Bucket.pass
  else Bucket.fail.

Definition distribution_step (d : list (str * nat)) (r : InspectionReport)
    : list (str * nat) :=
  dict_incr (bucket_of (overall_score r)) d.

(** [if k not in stats: stats[k] = 0] then [stats[k] += 1]: a new key goes
    to the end. *)
Fixpoint stats_incr (k : str) (stats : list (str * nat)) : list (str * nat) :=
  match stats with
  | [] => [(k, 1)]
  | (k', n) :: rest =>
      if str_eqb k k' then (k', S n) :: rest else (k', n) :: stats_incr k rest
  end.

Definition issue_stats (results : list InspectionReport) : list (str * nat) :=
  fold_left (fun stats r =>
               fold_left (fun stats issue => stats_incr (issue_type issue) stats)
                         (issues r) stats)
            results [].

(** [sorted(items, key=lambda x: -x[1])]: by count, largest first. Python's
    sort is stable, which fixes the result; the model inserts each item
    before the first item of a count not larger than its own. *)
Fixpoint insert_desc (x : str * nat) (l : list (str * nat))
    : list (str * nat) :=
  match l with
  | [] => [x]
  | y :: l' => if (snd x <? snd y)%nat then y :: insert_desc x l' else x :: l
  end.

Fixpoint sorted_desc (l : list (str * nat)) : list (str * nat) :=
  match l with
  | [] => []
  | x :: l' => insert_desc x (sorted_desc l')
  end.

Definition _generate_recommendations (results : list InspectionReport)
    : list str :=
  let avg_attitude := mean (map attitude_score results) in
  let avg_professional := mean (map professionalism_score results) in
  let avg_compliance := mean (map compliance_score results) in
  let recommendations :=
    (if Qle_bool 80 avg_attitude then []
     else [py "加强客服人员服务态度培训，提高客户满意度"])
    ++ (if Qle_bool 80 avg_professional then []
        else [py "加强产品知识培训，提高客服专业水平"])
    ++ (if Qle_bool 80 avg_compliance then []
        else [py "强化合规意识培训，确保服务符合规范"]) in
  match recommendations with
  | [] => [py "继续保持良好的服务质量"; py "定期进行质检，及时发现和解决问题"]
  | _ :: _ => recommendations
  end.

(** [generate_summary_report]. [saved] is the outcome of rendering the
    report and writing it to [summary_report.txt]: [Ok tt], or the
    exception the write raised. *)
Definition generate_summary_report (saved : result unit)
    (results : list InspectionReport) : SummaryReport :=
  match results with
  | [] => SummaryReport_default
  | _ :: _ =>
      let body : result SummaryReport :=
        let total_sessions := length results in
        let avg_score := mean (map overall_score results) in
        let score_distribution :=
          fold_left distribution_step results
                    [(Bucket.excellent, 0); (Bucket.good, 0);
                     (Bucket.pass, 0); (Bucket.fail, 0)] in
        let top_issues := take 5 (sorted_desc (issue_stats results)) in
        let recommendations := _generate_recommendations results in
        let report :=
          {| report_period := Some (py "最近7天");
             total_sessions := total_sessions;
             avg_score := avg_score;
             score_distribution := score_distribution;
             top_issues := top_issues;
             recommendations := recommendations |} in
        _ ← saved;
        Ok report in
      match body with
      | Ok report => report
      | Raise _ => SummaryReport_default
      end
  end.

(** *** The aggregate in the words of the specification *)





(** The distinct elements, in the order in which they are first seen. *)
Definition first_seen (l : list str) : list str :=
  fold_left (fun seen k => if existsb (str_eqb k) seen then seen
                           else seen ++ [k]) l [].




(** ** ReviewWorkflow *)

(** A [datetime]. *)
Record datetime : Type := {
  year : N; month : N; day : N;
  hour : N; minute : N; second : N;
  microsecond : N
}.

(** The last [width] decimal digits of [n], zero padded. *)
Fixpoint zpad (width : nat) (n : N) : str :=
  match width with
  | O => []
  | S w => zpad w (n / 10) ++ [(0x30 + n mod 10)%N]
  end.

(** [t.strftime('%Y%m%d%H%M%S')] *)
Definition strftime_YmdHMS (t : datetime) : str :=
  zpad 4 (year t) ++ zpad 2 (month t) ++ zpad 2 (day t)
  ++ zpad 2 (hour t) ++ zpad 2 (minute t) ++ zpad 2 (second t).

(** The dict kept for one review; a key that is not set is [None]. *)
Record review : Type := {
  rv_report : InspectionReport;
  rv_reviewer : str;
  rv_submitted_at : datetime;
  rv_status : str;
  rv_approved_by : option str;
  rv_approved_at : option datetime;
  rv_comments : option (option str);
  rv_rejected_by : option str;
  rv_rejected_at : option datetime;
  rv_reasons : option (list str)
}.

Record ReviewWorkflow : Type := {
  pending_reviews : gmap str review;
  completed_reviews : gmap str review
}.

(** [ReviewWorkflow()] *)
Definition ReviewWorkflow_init : ReviewWorkflow :=
  {| pending_reviews := ∅; completed_reviews := ∅ |}.

Section workflow.
Context `{Runtime}.

Definition make_review_id (report : InspectionReport) (now : datetime) : str :=
  py "review_" ++ to_str (r_session_id report) ++ py "_"
  ++ strftime_YmdHMS now.

(** [submit_for_review]; [now] and [now'] are the two clock readings,
    for the identifier and for [submitted_at]. *)
Definition submit_for_review (now now' : datetime)
    (report : InspectionReport) (reviewer : str) (wf : ReviewWorkflow)
    : bool * ReviewWorkflow :=
  let review_id := make_review_id report now in
  (true,
   {| pending_reviews :=
        <[ review_id :=
             {| rv_report := report;
                rv_reviewer := reviewer;
                rv_submitted_at := now';
                rv_status := py "pending";
                rv_approved_by := None;
                rv_approved_at := None;
                rv_comments := None;
                rv_rejected_by := None;
                rv_rejected_at := None;
                rv_reasons := None |} ]> (pending_reviews wf);
      completed_reviews := completed_reviews wf |}).

(** [approve_report]: an unknown identifier raises [ValueError] inside
    the [try], and the handler returns [False]. *)
Definition approve_report (now : datetime) (review_id : str)
    (approver : str) (comments : option str) (wf : ReviewWorkflow)
    : bool * ReviewWorkflow :=
  let body : result ReviewWorkflow :=
    match pending_reviews wf !! review_id with
    | None => Raise (ValueError (py "复核ID不存在: " ++ review_id))
    | Some rv =>
        let rv' :=
          {| rv_report := rv_report rv;
             rv_reviewer := rv_reviewer rv;
             rv_submitted_at := rv_submitted_at rv;
             rv_status := py "approved";
             rv_approved_by := Some approver;
             rv_approved_at := Some now;
             rv_comments := Some comments;
             rv_rejected_by := rv_rejected_by rv;
             rv_rejected_at := rv_rejected_at rv;
             rv_reasons := rv_reasons rv |} in
        Ok {| pending_reviews := delete review_id (pending_reviews wf);
              completed_reviews :=
                <[ review_id := rv' ]> (completed_reviews wf) |}
    end in
  match body with
  | Ok wf' => (true, wf')
  | Raise _ => (false, wf)
  end.

Definition reject_report (now : datetime) (review_id : str)
    (rejector : str) (reasons : list str) (wf : ReviewWorkflow)
    : bool * ReviewWorkflow :=
  let body : result ReviewWorkflow :=
    match pending_reviews wf !! review_id with
    | None => Raise (ValueError (py "复核ID不存在: " ++ review_id))
    | Some rv =>
        let rv' :=
          {| rv_report := rv_report rv;
             rv_reviewer := rv_reviewer rv;
             rv_submitted_at := rv_submitted_at rv;
             rv_status := py "rejected";
             rv_approved_by := rv_approved_by rv;
             rv_approved_at := rv_approved_at rv;
             rv_comments := rv_comments rv;
             rv_rejected_by := Some rejector;
             rv_rejected_at := Some now;
             rv_reasons := Some reasons |} in
        Ok {| pending_reviews := delete review_id (pending_reviews wf);
              completed_reviews :=
                <[ review_id := rv' ]> (completed_reviews wf) |}
    end in
  match body with
  | Ok wf' => (true, wf')
  | Raise _ => (false, wf)
  end.

End workflow.

(* ===================================================================== *)
(** * A reference runtime, to run the model on examples *)
(* ===================================================================== *)

Module Demo.

Definition json_ws (c : N) : bool :=
  ((c =? 0x20) || (c =? 0x09) || (c =? 0x0A) || (c =? 0x0D))%N.

Fixpoint skip_ws (s : str) : str :=
  match s with
  | c :: s' => if json_ws c then skip_ws s' else s
  | [] => []
  end.

(** Text of a string up to its closing quote (no escapes). *)
Fixpoint read_string (s : str) : option (str * str) :=
  match s with
  | [] => None
  | c :: s' =>
      if (c =? 0x22)%N then Some ([], s')
      else if (c =? 0x5C)%N then None
      else match read_string s' with
           | Some (a, r) => Some (c :: a, r)
           | None => None
           end
  end.

Definition ascii_digit (c : N) : bool := ((0x30 <=? c) && (c <=? 0x39))%N.

Definition read_int (s : str) : option (pyval * str) :=
  let '(neg, s1) :=
    match s with
    | c :: s' => if (c =? 0x2D)%N then (true, s') else (false, s)
    | [] => (false, s)
    end in
  let '(ds, rest) := span ascii_digit s1 in
  match ds with
  | [] => None
  | _ :: _ =>
      let v := Z.of_N (digits_value ds) in
      Some (PInt (if neg then - v else v)%Z, rest)
  end.

Definition keyword (w : string) (v : pyval) (s : str)
    : option (pyval * str) :=
  if startswith (py w) s then Some (v, drop (length (py w)) s) else None.

(** Decoder for JSON without string escapes, fractions and exponents. *)
Fixpoint value (fuel : nat) (s : str) : option (pyval * str) :=
  match fuel with
  | O => None
  | S f =>
      match skip_ws s with
      | [] => None
      | c :: r =>
          if (c =? 0x22)%N then
            match read_string r with
            | Some (t, r') => Some (PStr t, r')
            | None => None
            end
          else if (c =? 0x5B)%N then
            match skip_ws r with
            | d :: r' =>
                if (d =? 0x5D)%N then Some (PList [], r')
                else match elements f r with
                     | Some (vs, r'') => Some (PList vs, r'')
                     | None => None
                     end
            | [] => None
            end
          else if (c =? 0x7B)%N then
            match skip_ws r with
            | d :: r' =>
                if (d =? 0x7D)%N then Some (PDict [], r')
                else match members f r with
                     | Some (kvs, r'') => Some (PDict kvs, r'')
                     | None => None
                     end
            | [] => None
            end
          else
            match keyword "null" PNone (c :: r) with
            | Some x => Some x
            | None =>
                match keyword "true" (PBool true) (c :: r) with
                | Some x => Some x
                | None =>
                    match keyword "false" (PBool false) (c :: r) with
                    | Some x => Some x
                    | None => read_int (c :: r)
                    end
                end
            end
      end
  end
with elements (fuel : nat) (s : str) : option (list pyval * str) :=
  match fuel with
  | O => None
  | S f =>
      match value f s with
      | Some (v, r) =>
          match skip_ws r with
          | c :: r' =>
              if (c =? 0x2C)%N then
                match elements f r' with
                | Some (vs, r'') => Some (v :: vs, r'')
                | None => None
                end
              else if (c =? 0x5D)%N then Some ([v], r')
              else None
          | [] => None
          end
      | None => None
      end
  end
with members (fuel : nat) (s : str) : option (list (str * pyval) * str) :=
  match fuel with
  | O => None
  | S f =>
      match skip_ws s with
      | q :: r0 =>
          if (q =? 0x22)%N then
            match read_string r0 with
            | Some (key, r1) =>
                match skip_ws r1 with
                | c1 :: r2 =>
                    if (c1 =? 0x3A)%N then
                      match value f r2 with
                      | Some (v, r3) =>
                          match skip_ws r3 with
                          | c :: r' =>
                              if (c =? 0x2C)%N then
                                match members f r' with
                                | Some (kvs, r'') => Some ((key, v) :: kvs, r'')
                                | None => None
                                end
                              else if (c =? 0x7D)%N then Some ([(key, v)], r')
                              else None
                          | [] => None
                          end
                      | None => None
                      end
                    else None
                | [] => None
                end
            | None => None
            end
          else None
      | [] => None
      end
  end.

Definition loads (s : str) : decoded :=
  match value (2 * length s + 2) s with
  | Some (v, rest) =>
      match skip_ws rest with
      | [] => Decoded v
      | _ :: _ => DecodeError (py "Extra data")
      end
  | None => DecodeError (py "Expecting value")
  end.

(** JSON text written with apostrophes in place of double quotes. *)
Definition json (s : string) : str :=
  map (fun c => if (c =? 0x27)%N then 0x22%N else c) (py s).

(** The digest is not computed, and only ASCII letters are alphanumeric
    or lowered. *)
Definition runtime : Runtime :=
  {| json_loads := loads;
     md5_hexdigest := fun _ => py "d41d8cd98f00b204e9800998ecf8427e";
     isalnum := fun c =>
       (ascii_digit c || (0x41 <=? c) && (c <=? 0x5A)
        || (0x61 <=? c) && (c <=? 0x7A))%N;
     py_str := fun _ => py "<object>";
     builtin_msg := fun _ => py "<error>";
     str_lower := map (fun c =>
       if ((0x41 <=? c) && (c <=? 0x5A))%N then (c + 32)%N else c) |}.

(** A language model that answers every prompt with [response]. *)
Definition llm (response : str) : LLMClient :=
  {| generate_text := fun _ => Ok response |}.

Definition noon : datetime :=
  {| year := 2024; month := 1; day := 15;
     hour := 12; minute := 0; second := 0; microsecond := 0 |}.

(** A report with an identifier and an overall score. *)
Definition report (sid : string) (score : Q) : InspectionReport :=
  {| r_session_id := PStr (py sid);
     overall_score := score;
     attitude_score := 0;
     professionalism_score := 0;
     compliance_score := 0;
     issues := [];
     summary := None |}.

(** A language model whose call raises. *)
Definition llm_down (msg : str) : LLMClient :=
  {| generate_text := fun _ => Raise (ServiceError msg) |}.

End Demo.

(* ===================================================================== *)
(** * The remaining operations of the three modules *)
(* ===================================================================== *)

(** [pyq "..."]: a Python string whose double quotes are written as
    apostrophes in the literal. *)
Definition pyq (s : string) : str :=
  map (fun c => if (c =? 0x27)%N then 0x22%N else c) (py s).

(** [s.count(c)] for one character. *)
Definition str_count (c : N) (s : str) : nat :=
  length (List.filter (N.eqb c) s).

(** [：:\-\[\]] *)
Definition marker_chars : N -> bool := Re.oneof (py "：:-[]").

(** [validate_conversation_format] *)
Definition validate_conversation_format (content : str) : bool :=
  if bool_decide (content = []) || (length (strip content) =? 0)%nat
  then false
  else
    let has_speaker_markers :=
      match Re.search (Re.Chr marker_chars) content with
      | Some _ => true
      | None => false
      end in
    let has_multiple_lines := (1 <=? str_count 10 content)%nat in
    has_speaker_markers || has_multiple_lines.

(** \[[\s\S]*\] *)
Definition json_array_pattern : Re.regex :=
  Seqs [Re.One 0x5B;
        Re.Star true (Re.Chr (Re.cls_or isspace (fun c => negb (isspace c))));
        Re.One 0x5D].

(** [_mock_generate] of the client, used when the SDK is not installed. *)
Definition _mock_generate (prompt : str) : str :=
  py "模拟回复: 已收到您的请求: " ++ take 50 prompt ++ py "...".

(** The client in mock mode. *)
Definition mock_client : LLMClient :=
  {| generate_text := fun prompt => Ok (_mock_generate prompt) |}.

Section inspector_more.
Context `{Runtime} `{LLMClient}.

Definition _parse_json_array_response (response : str) : pyval :=
  match Re.search json_array_pattern response with
  | Some m =>
      match json_loads (Re.m_text m) with
      | Decoded v => v
      | DecodeError _ => PList []
      end
  | None => PList []
  end.



Definition suggestions_prompt (issues : list QualityIssue) : str :=
  pyq "
请根据以下客服对话中发现的问题，提供具体的改进建议：

发现问题：
"
  ++ join (py "
") (map (fun issue => py "- " ++ issue_type issue ++ py ": "
                         ++ description issue) issues)
  ++ pyq "

请针对每个问题提供具体的改进建议，并按照JSON数组格式输出：
[
    {
        'issue': '问题类型',
        'suggestion': '改进建议'
    }
]
            ".

(** The comprehension over the decoded results: [result.get] needs a
    dict; a result is kept when its suggestion is truthy. *)
Fixpoint kept_suggestions (results : list pyval) : result (list pyval) :=
  match results with
  | [] => Ok []
  | r :: rest =>
      cond ← py_get r (py "suggestion") PNone;
      if truthy cond then
        v ← py_get r (py "suggestion") (PStr []);
        vs ← kept_suggestions rest;
        Ok (v :: vs)
      else kept_suggestions rest
  end.

(** [issue.suggestion for issue in issues if issue.suggestion] *)
Definition own_suggestions (issues : list QualityIssue) : list pyval :=
  flat_map (fun issue =>
              match suggestion issue with
              | Some ((_ :: _) as s) => [PStr s]
              | _ => []
              end) issues.

(** [generate_improvement_suggestions] *)
Definition generate_improvement_suggestions (issues : list QualityIssue)
    : list pyval :=
  match issues with
  | [] => [PStr (py "继续保持良好的服务")]
  | _ :: _ =>
      let body : result (list pyval) :=
        response ← generate_text (suggestions_prompt issues);
        results ← py_iter (_parse_json_array_response response);
        kept_suggestions results in
      match body with
      | Ok suggestions => suggestions
      | Raise _ => own_suggestions issues
      end
  end.

(** [batch_inspect]: the loop appends one report per conversation. *)
Definition batch_inspect (conversations : list ParsedConversation)
    : list InspectionReport :=
  fold_left (fun reports conversation =>
               reports ++ [inspect_conversation conversation])
            conversations [].

End inspector_more.

(** [t.isoformat()] of a naive [datetime]: the microseconds are written
    only when they are not zero. *)
Definition isoformat (t : datetime) : str :=
  zpad 4 (year t) ++ py "-" ++ zpad 2 (month t) ++ py "-" ++ zpad 2 (day t)
  ++ py "T" ++ zpad 2 (hour t) ++ py ":" ++ zpad 2 (minute t) ++ py ":"
  ++ zpad 2 (second t)
  ++ (if (microsecond t =? 0)%N then []
      else py "." ++ zpad 6 (microsecond t)).

(** One entry of [get_pending_reviews]. *)
Record pending_entry : Type := {
  pe_review_id : str;
  pe_session_id : pyval;
  pe_score : Q;
  pe_reviewer : str;
  pe_submitted_at : str
}.

Definition pending_entry_of (review_id : str) (rv : review) : pending_entry :=
  {| pe_review_id := review_id;
     pe_session_id := r_session_id (rv_report rv);
     pe_score := overall_score (rv_report rv);
     pe_reviewer := rv_reviewer rv;
     pe_submitted_at := isoformat (rv_submitted_at rv) |}.

(** [get_pending_reviews]. Python lists the entries in the insertion order
    of the dict; the map keeps no such order, and the model lists them in
    the order of the keys. *)
Definition get_pending_reviews (wf : ReviewWorkflow) : list pending_entry :=
  map (fun kv => pending_entry_of (fst kv) (snd kv))
      (map_to_list (pending_reviews wf)).

(** What the records of a workflow look like: a pending one has the
    status [pending] and nobody decided on it; a completed one is approved
    or rejected, by somebody and at some time. *)
Definition review_is_pending (rv : review) : Prop :=
  rv_status rv = py "pending"
  /\ rv_approved_by rv = None /\ rv_rejected_by rv = None.

Definition review_is_decided (rv : review) : Prop :=
  (rv_status rv = py "approved"
   /\ is_Some (rv_approved_by rv) /\ is_Some (rv_approved_at rv))
  \/ (rv_status rv = py "rejected"
      /\ is_Some (rv_rejected_by rv) /\ is_Some (rv_rejected_at rv)).

Definition workflow_ok (wf : ReviewWorkflow) : Prop :=
  map_Forall (fun _ rv => review_is_pending rv) (pending_reviews wf)
  /\ map_Forall (fun _ rv => review_is_decided rv) (completed_reviews wf).

(** A text without a decimal digit. *)
Definition no_digit (s : str) : Prop :=
  Forall (fun c => isdecimal c = false) s.

(** The text after the last occurrence of [c] in [s]. *)
Fixpoint after_last (c : N) (s : str) : option str :=
  match s with
  | [] => None
  | x :: s' =>
      match after_last c s' with
      | Some r => Some r
      | None => if (c =? x)%N then Some s' else None
      end
  end.

(** open[\s\S]*close, the shape of the two patterns that cut JSON out of
    an answer. *)
Definition bracket_pattern (open close : N) : Re.regex :=
  Seqs [Re.One open;
        Re.Star true (Re.Chr (Re.cls_or isspace (fun c => negb (isspace c))));
        Re.One close].

(** Turns whose speakers are all strings. *)
Definition spoken (turns : list DialogueTurn) : Prop :=
  exists names, map speaker turns = map PStr names.

(** The lines of a text, stripped, without the blank ones. *)
Definition stripped_lines (s : str) : list str :=
  List.filter (fun l => match l with [] => false | _ :: _ => true end)
              (map strip (split_char 10 s)).

(** What the line scanner returns at the end of the text: the turns, and
    the turn that is still open, if any. *)
Definition scan_result (st : scan_state) : list DialogueTurn :=
  let '(turns, current_speaker, current_content) := st in
  match current_content with
  | [] => turns
  | _ :: _ =>
      turns ++ [text_turn current_speaker (join (py " ") current_content)]
  end.

(** A speaker and a content that survive formatting as [speaker: content]
    on one line: both stripped and on one line, the speaker without a
    colon. *)
Definition plain_turn (said : str * str) : Prop :=
  strip (fst said) = fst said /\ strip (snd said) = snd said
  /\ (0x3A%N ∉ fst said) /\ (10%N ∉ fst said) /\ (10%N ∉ snd said).

(* ===================================================================== *)
(** * Properties *)
(* ===================================================================== *)

(** ** ReviewWorkflow: transitions need a pending review *)

Section workflow_facts.

Lemma approve_unknown now review_id approver comments wf :
  pending_reviews wf !! review_id = None →
  approve_report now review_id approver comments wf = (false, wf).
Proof. intros Hnone. unfold approve_report. by rewrite Hnone. Qed.

Lemma reject_unknown now review_id rejector reasons wf :
  pending_reviews wf !! review_id = None →
  reject_report now review_id rejector reasons wf = (false, wf).
Proof. intros Hnone. unfold reject_report. by rewrite Hnone. Qed.

Lemma approve_success now review_id approver comments wf wf' :
  approve_report now review_id approver comments wf = (true, wf') →
  is_Some (pending_reviews wf !! review_id)
  ∧ pending_reviews wf' = delete review_id (pending_reviews wf)
  ∧ is_Some (completed_reviews wf' !! review_id).
Proof.
  unfold approve_report.
  destruct (pending_reviews wf !! review_id) as [rv|] eqn:Hrv; [|done].
  intros [= <-]. simpl. split; [by eexists|]. split; [done|].
  rewrite lookup_insert_eq. by eexists.
Qed.

Lemma reject_success now review_id rejector reasons wf wf' :
  reject_report now review_id rejector reasons wf = (true, wf') →
  is_Some (pending_reviews wf !! review_id)
  ∧ pending_reviews wf' = delete review_id (pending_reviews wf)
  ∧ is_Some (completed_reviews wf' !! review_id).
Proof.
  unfold reject_report.
  destruct (pending_reviews wf !! review_id) as [rv|] eqn:Hrv; [|done].
  intros [= <-]. simpl. split; [by eexists|]. split; [done|].
  rewrite lookup_insert_eq. by eexists.
Qed.

Lemma gone_after_delete review_id (wf wf' : ReviewWorkflow) :
  pending_reviews wf' = delete review_id (pending_reviews wf) →
  pending_reviews wf' !! review_id = None.
Proof. intros ->. apply lookup_delete_eq. Qed.

End workflow_facts.

(** C4. For a [review_id] that is not pending, [approve_report] and
    [reject_report] return [False] and leave the workflow, its pending
    and its completed reviews, as it was. Hence after a successful
    approval or rejection of a [review_id], another approval or rejection
    of it returns [False] and leaves the completed record as it is. *)
Theorem review_transition_needs_pending (wf : ReviewWorkflow) (review_id : str) :
  (pending_reviews wf !! review_id = None →
   ∀ now who comments reasons,
     approve_report now review_id who comments wf = (false, wf)
     ∧ reject_report now review_id who reasons wf = (false, wf))
  ∧ (∀ now0 who0 comments0 reasons0 wf',
       approve_report now0 review_id who0 comments0 wf = (true, wf')
       ∨ reject_report now0 review_id who0 reasons0 wf = (true, wf') →
       ∀ now who comments reasons,
         approve_report now review_id who comments wf' = (false, wf')
         ∧ reject_report now review_id who reasons wf' = (false, wf')).
Proof.
  split.
  - intros Hnone now who comments reasons.
    split; [by apply approve_unknown | by apply reject_unknown].
  - intros now0 who0 comments0 reasons0 wf' Hdone now who comments reasons.
    assert (pending_reviews wf' !! review_id = None) as Hgone.
    { destruct Hdone as [Hok | Hok].
      - apply approve_success in Hok as (_ & Hdel & _).
        by eapply gone_after_delete.
      - apply reject_success in Hok as (_ & Hdel & _).
        by eapply gone_after_delete. }
    split; [by apply approve_unknown | by apply reject_unknown].
Qed.

(** Witness of C4: an identifier unknown to a fresh workflow, and a review
    approved once and then rejected. *)
Lemma review_transition_needs_pending_witness :
  let id := py "review_s1_20240115120000" in
  let wf1 := snd (@submit_for_review Demo.runtime Demo.noon Demo.noon
                    (Demo.report "s1" 85) (py "alice") ReviewWorkflow_init) in
  let wf2 := snd (approve_report Demo.noon id (py "bob") (Some (py "ok")) wf1) in
  pending_reviews ReviewWorkflow_init !! id = None
  ∧ approve_report Demo.noon id (py "bob") None ReviewWorkflow_init
    = (false, ReviewWorkflow_init)
  ∧ approve_report Demo.noon id (py "bob") (Some (py "ok")) wf1 = (true, wf2)
  ∧ reject_report Demo.noon id (py "carol") [] wf2 = (false, wf2).
Proof.
  intros id wf1 wf2.
  assert (pending_reviews ReviewWorkflow_init !! id = None) as Hnone
    by reflexivity.
  assert (approve_report Demo.noon id (py "bob") (Some (py "ok")) wf1
          = (true, wf2)) as Hok by (vm_compute; reflexivity).
  split; [exact Hnone|]. split.
  - destruct (review_transition_needs_pending ReviewWorkflow_init id)
      as [Hunknown _].
    exact (proj1 (Hunknown Hnone Demo.noon (py "bob") None [])).
  - split; [exact Hok|].
    destruct (review_transition_needs_pending wf1 id) as [_ Hterminal].
    exact (proj2 (Hterminal Demo.noon (py "bob") (Some (py "ok")) []
                    wf2 (or_introl Hok) Demo.noon (py "carol") None [])).
Defined.

(** ** ReviewWorkflow: submissions *)

Lemma zpad_length width n : length (zpad width n) = width.
Proof.
  revert n. induction width as [|w IH]; intros n; simpl; [done|].
  rewrite length_app, IH. simpl. lia.
Qed.

Lemma strftime_YmdHMS_length t : length (strftime_YmdHMS t) = 14%nat.
Proof.
  unfold strftime_YmdHMS. rewrite !length_app, !zpad_length. done.
Qed.

Section submit_facts.
Context `{Runtime}.

(** The identifier determines the session text and the second. *)
Lemma make_review_id_inj r1 t1 r2 t2 :
  make_review_id r1 t1 = make_review_id r2 t2 →
  to_str (r_session_id r1) = to_str (r_session_id r2)
  ∧ strftime_YmdHMS t1 = strftime_YmdHMS t2.
Proof.
  unfold make_review_id. intros Heq.
  apply app_inv_head in Heq.
  rewrite !(assoc_L (++)) in Heq.
  apply app_inj_2 in Heq as [Hsid Hts];
    [|by rewrite !strftime_YmdHMS_length].
  split; [|done]. by apply app_inv_tail in Hsid.
Qed.

End submit_facts.

(** C8, as the code has it. [submit_for_review] always returns [True] and
    stores the new pending record under [review_id = "review_" +
    session_id + "_" + timestamp] (second granularity), leaving every
    other pending record and the completed reviews untouched. When that
    [review_id] is not pending yet the number of pending records grows by
    one; two submissions get the same [review_id] only when their
    session_id texts and their seconds agree, and then the later record
    replaces the earlier one and the number of pending records stays. *)
Theorem submit_for_review_keyed `{Runtime} (now now' : datetime)
    (report : InspectionReport) (reviewer : str) (wf : ReviewWorkflow) :
  let review_id := make_review_id report now in
  let wf' := snd (submit_for_review now now' report reviewer wf) in
  fst (submit_for_review now now' report reviewer wf) = true
  ∧ review_id = py "review_" ++ to_str (r_session_id report) ++ py "_"
                ++ strftime_YmdHMS now
  ∧ (∃ rv, pending_reviews wf' !! review_id = Some rv
           ∧ rv_report rv = report ∧ rv_reviewer rv = reviewer
           ∧ rv_submitted_at rv = now' ∧ rv_status rv = py "pending")
  ∧ (∀ other, other ≠ review_id →
       pending_reviews wf' !! other = pending_reviews wf !! other)
  ∧ completed_reviews wf' = completed_reviews wf
  ∧ (pending_reviews wf !! review_id = None →
     size (pending_reviews wf') = S (size (pending_reviews wf)))
  ∧ (is_Some (pending_reviews wf !! review_id) →
     size (pending_reviews wf') = size (pending_reviews wf))
  ∧ (∀ report2 now2,
       make_review_id report2 now2 = review_id →
       to_str (r_session_id report2) = to_str (r_session_id report)
       ∧ strftime_YmdHMS now2 = strftime_YmdHMS now).
Proof.
  intros review_id wf'. subst review_id wf'. simpl.
  split; [done|]. split; [done|]. split.
  { eexists. rewrite lookup_insert_eq. by repeat split. }
  split. { intros other Hne. by rewrite lookup_insert_ne. }
  split; [done|]. split.
  { intros Hnone. by apply map_size_insert_None. }
  split.
  { intros Hsome. by apply map_size_insert_Some. }
  intros report2 now2 Heq. by apply make_review_id_inj.
Qed.

(** Witness of C8: a first submission, and a second one of the same report
    within the same second. *)
Lemma submit_for_review_keyed_witness :
  let r := Demo.report "s1" 85 in
  let wf1 := snd (@submit_for_review Demo.runtime Demo.noon Demo.noon r
                    (py "alice") ReviewWorkflow_init) in
  let wf2 := snd (@submit_for_review Demo.runtime Demo.noon Demo.noon r
                    (py "bob") wf1) in
  size (pending_reviews wf1) = 1%nat ∧ size (pending_reviews wf2) = 1%nat.
Proof.
  intros r wf1 wf2.
  pose proof (@submit_for_review_keyed Demo.runtime Demo.noon Demo.noon r
                (py "alice") ReviewWorkflow_init) as H1.
  pose proof (@submit_for_review_keyed Demo.runtime Demo.noon Demo.noon r
                (py "bob") wf1) as H2.
  cbv zeta in H1, H2.
  destruct H1 as (_ & _ & _ & _ & _ & Hfresh & _).
  destruct H2 as (_ & _ & _ & _ & _ & _ & Hsame & _).
  split.
  - exact (Hfresh eq_refl).
  - transitivity (size (pending_reviews wf1)); [|exact (Hfresh eq_refl)].
    apply Hsame. eexists. vm_compute. reflexivity.
Defined.

(** C8 as stated fails: two successful submissions of one report within the
    same second leave one pending record, not two. *)
Lemma submit_same_second_counterexample :
  ¬ (∀ (rt : Runtime) (now now' : datetime) (report : InspectionReport)
       (reviewer : str) (wf : ReviewWorkflow),
       fst (submit_for_review now now' report reviewer wf) = true →
       size (pending_reviews
               (snd (submit_for_review now now' report reviewer wf)))
       = S (size (pending_reviews wf))).
Proof.
  intros Hclaim.
  pose (wf1 := snd (@submit_for_review Demo.runtime Demo.noon Demo.noon
                      (Demo.report "s1" 85) (py "alice") ReviewWorkflow_init)).
  specialize (Hclaim Demo.runtime Demo.noon Demo.noon (Demo.report "s1" 85)
                (py "bob") wf1 eq_refl).
  vm_compute in Hclaim. discriminate Hclaim.
Qed.

(** ** Python strings: stripping and searching *)

Lemma contains_single c s : contains [c] s = existsb (N.eqb c) s.
Proof.
  induction s as [|x s IH]; [done|].
  simpl. rewrite IH. by rewrite andb_true_r.
Qed.

Lemma existsb_lstrip c s :
  isspace c = false → existsb (N.eqb c) (lstrip s) = existsb (N.eqb c) s.
Proof.
  intros Hc. induction s as [|x s IH]; [done|].
  simpl. destruct (isspace x) eqn:Hx; [|done].
  rewrite IH. destruct (N.eqb_spec c x) as [->|]; [congruence|done].
Qed.

Lemma existsb_rev {A} (f : A → bool) l : existsb f (rev l) = existsb f l.
Proof.
  induction l as [|x l IH]; [done|].
  simpl. rewrite existsb_app, IH. simpl. rewrite orb_false_r. apply orb_comm.
Qed.

Lemma existsb_strip c s :
  isspace c = false → existsb (N.eqb c) (strip s) = existsb (N.eqb c) s.
Proof.
  intros Hc. unfold strip, rstrip.
  by rewrite existsb_rev, existsb_lstrip, existsb_rev, existsb_lstrip.
Qed.

(** Stripping neither adds nor removes a character that is not a space. *)
Lemma contains_single_strip c s :
  isspace c = false → contains [c] (strip s) = contains [c] s.
Proof. intros Hc. rewrite !contains_single. by apply existsb_strip. Qed.



(** ** detect_format *)

Lemma has_colon_strip content : has_colon (strip content) = has_colon content.
Proof.
  unfold has_colon. change (py ":") with [0x3A%N]. change (py "：") with [0xFF1A%N].
  by rewrite !contains_single_strip.
Qed.

Lemma detect_format_cases `{Runtime} content :
  detect_format content
  = if valid_json content then py "json"
    else if has_colon content then py "text" else py "unknown".
Proof.
  unfold detect_format, valid_json.
  fold (has_colon (strip content)). rewrite has_colon_strip.
  destruct (startswith (py "{") (strip content)
            || startswith (py "[") (strip content)); simpl; [|done].
  by destruct (json_loads (strip content)).
Qed.



(** ** parse_conversation *)

Section parse_facts.
Context `{Runtime}.

Lemma parse_conversation_branch raw_content format_type :
  parse_conversation raw_content format_type
  = match parse_branch raw_content format_type with
    | Ok c => Ok c
    | Raise e => Ok (parse_error (exn_str e))
    end.
Proof. reflexivity. Qed.

Lemma parse_branch_json raw_content :
  parse_branch raw_content (py "json") = _parse_json raw_content.
Proof. reflexivity. Qed.



(** A top-level array never gets past the read of the unbound local
    [session_id]. *)
Lemma _parse_json_array raw_content elems :
  json_loads raw_content = Decoded (PList elems) →
  ∃ e, _parse_json raw_content = Raise e.
Proof.
  intros Hd. unfold _parse_json. rewrite Hd. simpl.
  destruct (turns_of_json elems) as [ts|e]; simpl; [|by eexists].
  destruct (list_of_set (map speaker ts)) as [ps|e]; simpl; by eexists.
Qed.

Lemma parse_error_fields msg :
  session_id (parse_error msg) = PStr (py "parse_error")
  ∧ metadata (parse_error msg) !! py "error" = Some (PStr msg)
  ∧ turns (parse_error msg) = []
  ∧ participants (parse_error msg) = [].
Proof.
  unfold parse_error. simpl. split; [done|]. split; [|done].
  apply lookup_singleton_eq.
Qed.

End parse_facts.



(** The sibling branch: a top-level object binds [session_id], and its
    turn objects are read one by one, with the defaults for absent keys. *)
Lemma turns_of_json_dicts `{Runtime} (dicts : list (list (str * pyval))) :
  turns_of_json (map PDict dicts)
  = Ok (map (fun items =>
               mkDialogueTurn
                 (dict_get (py "speaker") items (PStr (py "未知")))
                 (dict_get (py "content") items (PStr []))
                 (dict_get (py "timestamp") items PNone))
            dicts).
Proof.
  induction dicts as [|items dicts IH]; [done|].
  simpl. by rewrite IH.
Qed.

(** C2, what the code does. Under the hint "json", content that decodes to
    a top-level array is answered with the "parse_error" conversation,
    without turns, whatever the elements of the array are: the local
    [session_id] is read unbound. Content that decodes to an object whose
    "turns" (or else "conversation") entry is an array of turn objects
    with hashable speakers is answered with one turn per element, in
    order, with the defaults 未知 and "" for absent keys. *)
Theorem json_array_yields_parse_error `{Runtime} :
  (∀ raw_content elems,
     json_loads raw_content = Decoded (PList elems) →
     ∃ e, parse_conversation raw_content (py "json")
          = Ok (parse_error (exn_str e))
          ∧ session_id (parse_error (exn_str e)) = PStr (py "parse_error")
          ∧ turns (parse_error (exn_str e)) = [])
  ∧ (∀ raw_content items dicts speakers,
       json_loads raw_content = Decoded (PDict items) →
       dict_get (py "turns") items
         (dict_get (py "conversation") items (PList []))
       = PList (map PDict dicts) →
       let read items :=
         mkDialogueTurn (dict_get (py "speaker") items (PStr (py "未知")))
                        (dict_get (py "content") items (PStr []))
                        (dict_get (py "timestamp") items PNone) in
       list_of_set (map speaker (map read dicts)) = Ok speakers →
       parse_conversation raw_content (py "json")
       = Ok {| session_id :=
                 py_or (dict_get (py "session_id") items
                                 (PStr (py "json_session")))
                       (PStr (py "json_session"));
               participants := speakers;
               turns := map read dicts;
               metadata := {[ py "format" := PStr (py "json") ]} |}).
Proof.
  split.
  - intros raw_content elems Hd.
    destruct (_parse_json_array _ _ Hd) as [e He].
    exists e. rewrite parse_conversation_branch, parse_branch_json, He.
    destruct (parse_error_fields (exn_str e)) as (Hs & _ & Ht & _).
    by repeat split.
  - intros raw_content items dicts speakers Hd Hturns read Hset.
    rewrite parse_conversation_branch, parse_branch_json.
    unfold _parse_json. rewrite Hd, Hturns.
    cbn [py_iter mbind result_bind]. rewrite turns_of_json_dicts.
    cbn [mbind result_bind]. fold read. by rewrite Hset.
Qed.

(** Witness of C2: an array of one well-formed turn, and an object holding
    the same array. *)
Lemma json_array_yields_parse_error_witness :
  (∃ e, @parse_conversation Demo.runtime
          (Demo.json "[{'speaker': '客户', 'content': '您好'}]") (py "json")
        = Ok (@parse_error (@exn_str Demo.runtime e)))
  ∧ @parse_conversation Demo.runtime
      (Demo.json "{'turns': [{'speaker': '客户', 'content': '您好'}]}")
      (py "json")
    = Ok {| session_id := PStr (py "json_session");
            participants := [PStr (py "客户")];
            turns := [text_turn (py "客户") (py "您好")];
            metadata := {[ py "format" := PStr (py "json") ]} |}.
Proof.
  destruct (@json_array_yields_parse_error Demo.runtime) as [Harray Hobject].
  split.
  - destruct (Harray (Demo.json "[{'speaker': '客户', 'content': '您好'}]")
                [PDict [(py "speaker", PStr (py "客户"));
                        (py "content", PStr (py "您好"))]])
      as (e & He & _).
    + vm_compute. reflexivity.
    + exists e. exact He.
  - apply (Hobject
             (Demo.json "{'turns': [{'speaker': '客户', 'content': '您好'}]}")
             [(py "turns",
               PList [PDict [(py "speaker", PStr (py "客户"));
                             (py "content", PStr (py "您好"))]])]
             [[(py "speaker", PStr (py "客户"));
               (py "content", PStr (py "您好"))]]
             [PStr (py "客户")]);
      vm_compute; reflexivity.
Defined.

(** ** generate_summary_report *)

Lemma str_eqb_eq a b : str_eqb a b = true ↔ a = b.
Proof. unfold str_eqb. apply bool_decide_eq_true. Qed.

Lemma str_eqb_refl a : str_eqb a a = true.
Proof. by apply str_eqb_eq. Qed.

Lemma str_eqb_neq a b : a ≠ b → str_eqb a b = false.
Proof. intros Hne. unfold str_eqb. by apply bool_decide_eq_false. Qed.

Lemma existsb_str_eqb k l : existsb (str_eqb k) l = true ↔ k ∈ l.
Proof.
  rewrite existsb_exists. split.
  - intros (x & Hin & ->%str_eqb_eq). by apply list_elem_of_In.
  - intros Hin. exists k. split; [by apply list_elem_of_In | apply str_eqb_refl].
Qed.

(** *** The score distribution *)



Lemma buckets_distinct :
  Bucket.excellent ≠ Bucket.good ∧ Bucket.excellent ≠ Bucket.pass
  ∧ Bucket.excellent ≠ Bucket.fail ∧ Bucket.good ≠ Bucket.pass
  ∧ Bucket.good ≠ Bucket.fail ∧ Bucket.pass ≠ Bucket.fail.
Proof. repeat split; intros Heq; vm_compute in Heq; discriminate Heq. Qed.





(** *** Counting the issue types *)


Lemma first_seen_snoc l k :
  first_seen (l ++ [k])
  = if existsb (str_eqb k) (first_seen l) then first_seen l
    else first_seen l ++ [k].
Proof. unfold first_seen. by rewrite fold_left_app. Qed.

Lemma first_seen_elem k l : k ∈ first_seen l ↔ k ∈ l.
Proof.
  induction l as [|x l IH] using rev_ind; [done|].
  rewrite first_seen_snoc.
  destruct (existsb (str_eqb x) (first_seen l)) eqn:Hx.
  - apply existsb_str_eqb in Hx.
    rewrite elem_of_app, list_elem_of_singleton, IH.
    split; [tauto|]. intros [?| ->]; [done|]. by apply IH.
  - by rewrite !elem_of_app, IH.
Qed.

Lemma first_seen_NoDup l : NoDup (first_seen l).
Proof.
  induction l as [|x l IH] using rev_ind; [constructor|].
  rewrite first_seen_snoc.
  destruct (existsb (str_eqb x) (first_seen l)) eqn:Hx; [done|].
  apply NoDup_app. split; [done|]. split; [|apply NoDup_singleton].
  intros y Hy ->%list_elem_of_singleton.
  apply existsb_str_eqb in Hy. congruence.
Qed.





(** *** Sorting by count *)












(** The write of the summary file sits inside the [try]: when it raises,
    the report computed so far is dropped for [SummaryReport()]. *)
Lemma generate_summary_report_unsaved e results :
  generate_summary_report (Raise e) results = SummaryReport_default.
Proof. by destruct results. Qed.



(** ** The matcher on the patterns of the inspector *)

Section matcher_facts.
Import Re.

Lemma span_app p s : fst (span p s) ++ snd (span p s) = s.
Proof.
  induction s as [|x s IH]; [done|].
  simpl. destruct (p x); [|done].
  destruct (span p s) as [a b]. simpl in *. by rewrite IH.
Qed.

Lemma span_all p s : forallb p (fst (span p s)) = true.
Proof.
  induction s as [|x s IH]; [done|].
  simpl. destruct (p x) eqn:Hx; [|done].
  destruct (span p s) as [a b]. simpl in *. by rewrite Hx, IH.
Qed.

(** The text after the longest prefix does not start with the class. *)
Lemma span_rest p s :
  match snd (span p s) with
  | [] => True
  | x :: _ => p x = false
  end.
Proof.
  induction s as [|x s IH]; [done|].
  simpl. destruct (p x) eqn:Hx; [|done].
  by destruct (span p s) as [a b].
Qed.

Lemma span_stop p s :
  match s with [] => True | x :: _ => p x = false end → span p s = ([], s).
Proof. destruct s as [|x s]; [done|]. simpl. by intros ->. Qed.

Lemma span_prefix p a s :
  forallb p a = true →
  match s with [] => True | x :: _ => p x = false end →
  span p (a ++ s) = (a, s).
Proof.
  intros Ha Hs. induction a as [|x a IH]; simpl.
  { by apply span_stop. }
  apply andb_prop in Ha as [Hx Ha]. by rewrite Hx, IH.
Qed.

Lemma take_app_suffix {A} (a b : list A) :
  take (length (a ++ b) - length b) (a ++ b) = a.
Proof.
  rewrite length_app, Nat.add_sub. by rewrite take_app_length.
Qed.

(** A literal matches exactly when the input starts with it. *)
Lemma mt_Lit {R} p s c (k : str → caps → option R) :
  mt (Lit p) s c k
  = if startswith p s then k (drop (length p) s) c else None.
Proof.
  revert s. induction p as [|x p IH]; intros s; [done|].
  destruct p as [|y p].
  - destruct s as [|z s]; [done|]. simpl.
    rewrite andb_true_r. by destruct (x =? z)%N.
  - change (Lit (x :: y :: p)) with (Seq (One x) (Lit (y :: p))).
    destruct s as [|z s]; [done|].
    change (mt (Seq (One x) (Lit (y :: p))) (z :: s) c k)
      with (if (x =? z)%N then mt (Lit (y :: p)) s c k else None).
    rewrite IH. simpl. by destruct (x =? z)%N.
Qed.

(** A greedy repetition of a character class runs to the end of the
    longest prefix of the class when the continuation accepts there, or
    when the continuation accepts no input that starts with the class. *)
Lemma star_loop_class {R} p (k : str → caps → option R) n s c :
  (length s < n)%nat →
  is_Some (k (snd (span p s)) c)
  ∨ (∀ x s' c', p x = true → k (x :: s') c' = None) →
  star_loop true (fun s' c' k' => mt (Chr p) s' c' k') k n s c
  = k (snd (span p s)) c.
Proof.
  revert n. induction s as [|x s IH]; intros n Hn Hk.
  { destruct n; [lia|]. done. }
  destruct n as [|n]; [lia|].
  simpl in Hn. simpl star_loop. simpl span in Hk |- *.
  destruct (p x) eqn:Hx; [|done].
  assert ((length s <? S (length s))%nat = true) as -> by (apply Nat.ltb_lt; lia).
  destruct (span p s) as [a b] eqn:Hspan. simpl in *.
  rewrite IH; [|lia|done].
  destruct (k b c) as [r|] eqn:Hb; [done|].
  simpl. destruct Hk as [[r Hr]|Hk]; [congruence|]. by apply Hk.
Qed.

Lemma mt_Star_class {R} p s c (k : str → caps → option R) :
  is_Some (k (snd (span p s)) c)
  ∨ (∀ x s' c', p x = true → k (x :: s') c' = None) →
  mt (Star true (Chr p)) s c k = k (snd (span p s)) c.
Proof. intros Hk. apply star_loop_class; [lia|done]. Qed.

Lemma mt_Star_class_total {R} p s c (k : str → caps → option R) :
  (∀ s' c', is_Some (k s' c')) →
  mt (Star true (Chr p)) s c k = k (snd (span p s)) c.
Proof. intros Hk. apply mt_Star_class. by left. Qed.

(** Colons and whitespace are not digits, nor is the point. *)
Lemma sep_not_digit c : score_seps c = true → isdecimal c = false.
Proof.
  intros Hc.
  assert (In c [0xFF1A; 0x3A; 0x09; 0x0A; 0x0B; 0x0C; 0x0D; 0x1C; 0x1D; 0x1E;
                0x1F; 0x20; 0x85; 0xA0; 0x1680; 0x2000; 0x2001; 0x2002;
                0x2003; 0x2004; 0x2005; 0x2006; 0x2007; 0x2008; 0x2009;
                0x200A; 0x2028; 0x2029; 0x202F; 0x205F; 0x3000]%N) as Hin.
  { unfold score_seps, cls_or, oneof, isspace in Hc.
    change (py "：:") with [0xFF1A; 0x3A]%N in Hc. simpl existsb in Hc.
    repeat (apply orb_prop in Hc as [Hc|Hc]);
      repeat match goal with
             | H : (_ && _) = true |- _ => apply andb_prop in H as [? ?]
             | H : (_ =? _)%N = true |- _ => apply N.eqb_eq in H
             | H : (_ <=? _)%N = true |- _ => apply N.leb_le in H
             end;
      try discriminate; subst; simpl; try tauto.
    - assert (c = 0x09 ∨ c = 0x0A ∨ c = 0x0B ∨ c = 0x0C ∨ c = 0x0D)%N
        as Hr by lia. intuition (subst; tauto).
    - assert (c = 0x1C ∨ c = 0x1D ∨ c = 0x1E ∨ c = 0x1F ∨ c = 0x20)%N
        as Hr by lia. intuition (subst; tauto).
    - assert (c = 0x2000 ∨ c = 0x2001 ∨ c = 0x2002 ∨ c = 0x2003 ∨ c = 0x2004
              ∨ c = 0x2005 ∨ c = 0x2006 ∨ c = 0x2007 ∨ c = 0x2008
              ∨ c = 0x2009 ∨ c = 0x200A)%N as Hr by lia.
      intuition (subst; tauto). }
  clear Hc. revert c Hin. apply List.Forall_forall.
  apply (bool_decide_unpack _). vm_compute. exact I.
Qed.

Lemma dot_not_digit : isdecimal 0x2E = false.
Proof. vm_compute. reflexivity. Qed.

Lemma read_number_split s n rest : read_number s = Some (n, rest) → s = n ++ rest.
Proof.
  unfold read_number. pose proof (span_app isdecimal s) as Hs.
  destruct (span isdecimal s) as [ip r1]. simpl in Hs.
  destruct ip as [|d ip]; [done|].
  destruct r1 as [|c0 r2]; [by intros [= <- <-]|].
  destruct (c0 =? 0x2E)%N; [|by intros [= <- <-]].
  pose proof (span_app isdecimal r2) as Hr.
  destruct (span isdecimal r2) as [fp r3]. simpl in Hr.
  intros [= <- <-]. rewrite <- Hs, <- Hr. simpl. f_equal.
  by rewrite <- app_assoc.
Qed.

Lemma read_number_not_digit x s : isdecimal x = false → read_number (x :: s) = None.
Proof. intros Hx. unfold read_number. simpl. by rewrite Hx. Qed.

(** [\d+\.?\d*] before a continuation that accepts everything: the number
    is read as far as it goes. *)
Lemma mt_number {R} s c (k : str → caps → option R) :
  (∀ s' c', is_Some (k s' c')) →
  mt number s c k
  = match read_number s with
    | Some (_, rest) => k rest c
    | None => None
    end.
Proof.
  intros Hk. unfold read_number.
  change (mt number s c k)
    with (match s with
          | x :: s1 =>
              if isdecimal x then
                mt (Star true (Chr isdecimal)) s1 c (fun s' c' =>
                  orelse
                    (match s' with
                     | y :: s2 =>
                         if (0x2E =? y)%N then
                           mt (Star true (Chr isdecimal)) s2 c' k
                         else None
                     | [] => None
                     end)
                    (mt (Star true (Chr isdecimal)) s' c' k))
              else None
          | [] => None
          end).
  destruct s as [|x s1]; [done|]. simpl span.
  destruct (isdecimal x) eqn:Hx; [|done].
  rewrite mt_Star_class_total.
  2:{ intros s' c'. rewrite (mt_Star_class_total _ s').
      - destruct (Hk (snd (span isdecimal s')) c') as [r Hr]. rewrite Hr.
        destruct s' as [|y s2]; [by eexists|].
        destruct (0x2E =? y)%N; [|by eexists].
        rewrite mt_Star_class_total by done.
        destruct (Hk (snd (span isdecimal s2)) c') as [r' Hr'].
        rewrite Hr'. by eexists.
      - done. }
  pose proof (span_rest isdecimal s1) as Hrest.
  destruct (span isdecimal s1) as [a b]. cbn [snd] in *.
  destruct b as [|y s2].
  { by rewrite mt_Star_class_total. }
  rewrite (N.eqb_sym 0x2E y).
  destruct (y =? 0x2E)%N.
  - rewrite mt_Star_class_total by done.
    destruct (span isdecimal s2) as [fp r3]. cbn [snd].
    by destruct (Hk r3 c) as [r ->].
  - rewrite mt_Star_class_total by done.
    by rewrite (span_stop isdecimal (y :: s2)).
Qed.

Lemma mt_Group_number {R} s c (k : str → caps → option R) :
  (∀ s' c', is_Some (k s' c')) →
  mt (Group 1 number) s c k
  = match read_number s with
    | Some (n, rest) => k rest (set_cap 1 n c)
    | None => None
    end.
Proof.
  intros Hk.
  change (mt (Group 1 number) s c k)
    with (mt number s c (fun s' c' =>
            k s' (set_cap 1 (take (length s - length s') s) c'))).
  rewrite mt_number by (intros; apply Hk).
  destruct (read_number s) as [[n rest]|] eqn:Hn; [|done].
  apply read_number_split in Hn as ->. by rewrite take_app_suffix.
Qed.

(** The score pattern at the head of the input. *)
Lemma match_here_score label s :
  match_here (score_pattern label) s
  = if startswith label s then
      match read_number (snd (span score_seps (drop (length label) s))) with
      | Some (n, rest) => Some (rest, [(1%nat, n)])
      | None => None
      end
    else None.
Proof.
  unfold match_here.
  change (mt (score_pattern label) s [] (fun s' c' => Some (s', c')))
    with (mt (Lit label) s [] (fun s1 c1 =>
            mt (Star true (Chr score_seps)) s1 c1 (fun s2 c2 =>
              mt (Group 1 number) s2 c2 (fun s' c' => Some (s', c'))))).
  rewrite mt_Lit. destruct (startswith label s); [|done].
  rewrite mt_Star_class.
  - by rewrite mt_Group_number by (intros; by eexists).
  - right. intros x s' c' Hx.
    rewrite mt_Group_number by (intros; by eexists).
    by rewrite read_number_not_digit by by apply sep_not_digit.
Qed.

(** The search for a score pattern finds the number that follows the first
    occurrence of the label that is followed by a number. *)
Lemma search_score label s :
  option_map (fun m => group 1 (m_caps m)) (search (score_pattern label) s)
  = first_labelled_number label s.
Proof.
  unfold search. generalize (@nil N) as pre.
  induction s as [|x s IH]; intros pre.
  - simpl. rewrite match_here_score. unfold labelled_number_here.
    destruct (startswith label []); [|done].
    by destruct (read_number _) as [[n rest]|].
  - simpl search_from. simpl first_labelled_number.
    rewrite match_here_score. unfold labelled_number_here.
    destruct (startswith label (x :: s)); [|apply IH].
    by destruct (read_number _) as [[n rest]|]; [|apply IH].
Qed.

End matcher_facts.

(** ** The scores of an inspection response *)

(** [float] accepts every numeral the score patterns capture. *)
Lemma py_float_read_number s n rest :
  read_number s = Some (n, rest) → ∃ q, py_float n = Ok q.
Proof.
  unfold read_number.
  pose proof (span_all isdecimal s) as Hip.
  pose proof (span_rest isdecimal s) as Hr1.
  destruct (span isdecimal s) as [ip r1]. cbn [fst snd] in *.
  destruct ip as [|d ip]; [done|].
  assert (∀ tail, match tail with [] => True | x :: _ => isdecimal x = false end →
                  span isdecimal (d :: ip ++ tail) = (d :: ip, tail)) as Hspan.
  { intros tail Htail. by apply (span_prefix isdecimal (d :: ip)). }
  assert (span isdecimal (d :: ip) = (d :: ip, [])) as Hspan0.
  { specialize (Hspan [] I). by rewrite app_nil_r in Hspan. }
  destruct r1 as [|c0 r2].
  { intros [= <- <-]. unfold py_float. rewrite Hspan0. by eexists. }
  destruct (c0 =? 0x2E)%N eqn:Hc0.
  - pose proof (span_all isdecimal r2) as Hfp.
    destruct (span isdecimal r2) as [fp r3]. cbn [fst] in Hfp.
    intros [= <- <-]. unfold py_float.
    change ((d :: ip) ++ c0 :: fp) with (d :: ip ++ c0 :: fp).
    rewrite Hspan by done. rewrite Hc0, Hfp. by eexists.
  - intros [= <- <-]. unfold py_float. rewrite Hspan0. by eexists.
Qed.

Lemma first_labelled_number_float label s n :
  first_labelled_number label s = Some n → ∃ q, py_float n = Ok q.
Proof.
  induction s as [|x s IH]; simpl; unfold labelled_number_here.
  - destruct (startswith label []); [|done].
    destruct (read_number _) as [[m rest]|] eqn:Hm; [|done].
    intros [= <-]. by eapply py_float_read_number.
  - destruct (startswith label (x :: s)); [|apply IH].
    destruct (read_number _) as [[m rest]|] eqn:Hm; [|apply IH].
    intros [= <-]. by eapply py_float_read_number.
Qed.

(** One step of the loop over the score patterns. *)
Lemma score_step_spec response sc key :
  score_step response sc (key, score_pattern (score_label key))
  = match first_labelled_number (score_label key) response with
    | None => sc
    | Some n =>
        match py_float n with
        | Raise _ => sc
        | Ok score =>
            let '(ov, at_, pr, co) := sc in
            match key with
            | overall => (score, at_, pr, co)
            | attitude => (ov, score, pr, co)
            | professionalism => (ov, at_, score, co)
            | compliance => (ov, at_, pr, score)
            end
        end
    end.
Proof.
  unfold score_step. rewrite <- search_score.
  by destruct (Re.search (score_pattern (score_label key)) response).
Qed.

Lemma score_patterns_fold response :
  fold_left (score_step response) score_patterns (0, 0, 0, 0)%Q
  = (score_of response overall, score_of response attitude,
     score_of response professionalism, score_of response compliance).
Proof.
  unfold score_patterns. cbn [map fold_left].
  rewrite !score_step_spec. unfold score_of.
  repeat match goal with
         | |- context [first_labelled_number ?l response] =>
             destruct (first_labelled_number l response) as [?n|]
         | |- context [py_float ?n] => destruct (py_float n) as [?q|?e]
         end; reflexivity.
Qed.

Lemma parse_inspection_scores response sid key :
  report_score (_parse_inspection_response response sid) key
  = score_of response key.
Proof.
  unfold _parse_inspection_response. rewrite score_patterns_fold.
  by destruct key.
Qed.

(** C3. Each of the four scores is the value of the number that follows
    the first occurrence of its label (总体评分, 服务态度, 专业性, 合规性)
    that is followed by a number, and 0 when there is none. For the answer
    "总体评分：85\n服务态度：90\n总结：表现良好" [inspect_conversation]
    returns 85, 90, 0, 0 and the summary 表现良好. *)
Theorem inspection_scores :
  (∀ response sid key,
     match first_labelled_number (score_label key) response with
     | Some n =>
         py_float n
         = Ok (report_score (_parse_inspection_response response sid) key)
     | None =>
         report_score (_parse_inspection_response response sid) key = 0%Q
     end)
  ∧ (∀ (rt : Runtime) (llm : LLMClient) (conversation : ParsedConversation),
       generate_text
         (PromptTemplates.QUALITY_INSPECT (_format_conversation conversation))
       = Ok (py "总体评分：85
服务态度：90
总结：表现良好") →
       inspect_conversation conversation
       = {| r_session_id := session_id conversation;
            overall_score := 85;
            attitude_score := 90;
            professionalism_score := 0;
            compliance_score := 0;
            issues := [];
            summary := Some (py "表现良好") |}).
Proof.
  split.
  - intros response sid key. rewrite parse_inspection_scores. unfold score_of.
    destruct (first_labelled_number (score_label key) response) as [n|] eqn:Hn;
      [|done].
    destruct (first_labelled_number_float _ _ _ Hn) as [q Hq]. by rewrite Hq.
  - intros rt llm conversation Hllm.
    unfold inspect_conversation. rewrite Hllm. cbn [mbind result_bind].
    vm_compute. reflexivity.
Qed.

(** Witness of C3: the scenario, with a model that gives that answer. *)
Lemma inspection_scores_witness :
  let conversation :=
    {| session_id := PStr (py "s1"); participants := [];
       turns := [text_turn (py "客户") (py "您好")]; metadata := ∅ |} in
  overall_score
    (@inspect_conversation Demo.runtime
       (Demo.llm (py "总体评分：85
服务态度：90
总结：表现良好")) conversation) = 85%Q.
Proof.
  intros conversation.
  destruct inspection_scores as (_ & Hscenario).
  rewrite (Hscenario Demo.runtime (Demo.llm (py "总体评分：85
服务态度：90
总结：表现良好")) conversation); reflexivity.
Defined.

(** ** The issues of an inspection response *)

Section marker_facts.
Import Re.

Lemma marker_here_split s marker rest :
  marker_here s = Some (marker, rest) → s = marker ++ rest ∧ marker ≠ [].
Proof.
  unfold marker_here. pose proof (span_app isdecimal s) as Hs.
  destruct (span isdecimal s) as [ds r]. cbn [fst snd] in Hs.
  destruct ds as [|d ds]; [done|]. destruct r as [|c r]; [done|].
  destruct (c =? 0x2E)%N; [|done].
  intros [= <- <-]. split; [|done].
  rewrite <- Hs. simpl. f_equal. by rewrite <- app_assoc.
Qed.

(** [\d+\.] at the head of the input: the digits cannot be given back,
    what follows a digit is a digit or the end of the run. *)
Lemma match_here_marker s :
  match_here issue_marker s
  = option_map (fun mr => (snd mr, [])) (marker_here s).
Proof.
  unfold match_here, marker_here.
  change (mt issue_marker s [] (fun s' c' => Some (s', c')))
    with (match s with
          | x :: s1 =>
              if isdecimal x then
                mt (Star true (Chr isdecimal)) s1 [] (fun s2 c2 =>
                  match s2 with
                  | y :: s3 => if (0x2E =? y)%N then Some (s3, c2) else None
                  | [] => None
                  end)
              else None
          | [] => None
          end).
  destruct s as [|x s1]; [done|]. simpl span.
  destruct (isdecimal x) eqn:Hx; [|done].
  rewrite mt_Star_class.
  - destruct (span isdecimal s1) as [a b]. cbn [snd].
    destruct b as [|y s3]; [done|].
    rewrite (N.eqb_sym 0x2E y). by destruct (y =? 0x2E)%N.
  - right. intros y s' c' Hy.
    destruct (N.eqb_spec 0x2E y) as [<-|]; [|done].
    by rewrite dot_not_digit in Hy.
Qed.

Lemma search_from_marker pre s :
  search_from issue_marker pre s
  = match find_marker s with
    | Some (before, marker, rest) =>
        Some {| m_pre := rev pre ++ before; m_text := marker;
                m_post := rest; m_caps := [] |}
    | None => None
    end.
Proof.
  revert pre. induction s as [|x s IH]; intros pre.
  - cbn [search_from find_marker]. rewrite match_here_marker.
    by change (marker_here []) with (@None (str * str)).
  - cbn [search_from find_marker]. rewrite match_here_marker.
    destruct (marker_here (x :: s)) as [[marker rest]|] eqn:Hm; simpl.
    + apply marker_here_split in Hm as [Hm _].
      rewrite app_nil_r. do 2 f_equal.
      change (S (length s)) with (length (x :: s)). rewrite Hm.
      by rewrite take_app_suffix.
    + rewrite IH. destruct (find_marker s) as [[[before marker] rest]|]; [|done].
      simpl. by rewrite <- app_assoc.
Qed.

Lemma find_marker_nonempty s before marker rest :
  find_marker s = Some (before, marker, rest) → marker ≠ [].
Proof.
  revert before. induction s as [|x s IH]; intros before; cbn [find_marker].
  - by change (marker_here []) with (@None (str * str)).
  - destruct (marker_here (x :: s)) as [[m r]|] eqn:Hm.
    + intros [= <- <- <-]. by apply marker_here_split in Hm as [_ ?].
    + destruct (find_marker s) as [[[b m] r]|]; [|done].
      intros [= <- <- <-]. by eapply IH.
Qed.

(** [re.split] on the marker pattern cuts at the markers a scan from the
    left finds. *)
Lemma split_issue_marker s : split issue_marker s = split_at_markers s.
Proof.
  unfold split, split_at_markers. generalize (S (length s)) as n.
  intros n. revert s. induction n as [|n IH]; intros s; [done|].
  simpl. unfold search. rewrite search_from_marker.
  destruct (find_marker s) as [[[before marker] rest]|] eqn:Hf; [|done].
  simpl. apply find_marker_nonempty in Hf.
  destruct marker as [|c marker]; [done|]. by rewrite IH.
Qed.

End marker_facts.

(** The loop over the blocks keeps, in order, one issue for every block
    that mentions a problem. *)
Lemma issue_step_fold blocks acc :
  fold_left issue_step blocks acc
  = acc ++ map (fun block => block_issue (take 200 (strip block)) block)
             (List.filter mentions_problem blocks).
Proof.
  revert acc. induction blocks as [|b blocks IH]; intros acc; simpl.
  { by rewrite app_nil_r. }
  rewrite IH. unfold issue_step. fold (mentions_problem b).
  destruct (mentions_problem b); [|done].
  by rewrite <- app_assoc.
Qed.

Lemma parse_inspection_issues response sid :
  issues (_parse_inspection_response response sid)
  = map (fun block => block_issue (take 200 (strip block)) block)
        (List.filter mentions_problem (tail (split_at_markers response))).
Proof.
  unfold _parse_inspection_response.
  destruct (fold_left (score_step response) score_patterns (0, 0, 0, 0)%Q)
    as [[[ov at_] pr] co].
  cbn [issues]. by rewrite issue_step_fold, split_issue_marker.
Qed.

(** C6, as the code has it. The response is cut at the numbered-list
    markers, digits followed by a period; the text before the first marker
    is left aside, and every later block that mentions 问题 or 不足 gives
    one issue, in block order: its description is the block, stripped of
    surrounding whitespace and then cut at 200 characters, its severity is
    高 if the block mentions 严重, else 低 if it mentions 轻微, else 中. A
    block that mentions neither 问题 nor 不足 gives no issue. *)
Theorem inspection_issues (response : str) (sid : pyval) :
  issues (_parse_inspection_response response sid)
  = map (fun block => block_issue (take 200 (strip block)) block)
        (List.filter mentions_problem (tail (split_at_markers response)))
  ∧ Re.split issue_marker response = split_at_markers response
  ∧ (∀ d block,
       issue_type (block_issue d block) = py "服务问题"
       ∧ description (block_issue d block) = d
       ∧ severity (block_issue d block)
         = (if contains (py "严重") block then IssueSeverity.HIGH
            else if contains (py "轻微") block then IssueSeverity.LOW
            else IssueSeverity.MEDIUM))
  ∧ Forall (fun i => length (description i) <= 200)%nat
           (issues (_parse_inspection_response response sid))
  ∧ map (fun i => (description i, severity i))
        (issues (_parse_inspection_response
                   (py "前言有问题 1. 问题A 2.轻微的严重问题 3. 好 4. 轻微不足")
                   sid))
    = [(py "问题A", IssueSeverity.MEDIUM);
       (py "轻微的严重问题", IssueSeverity.HIGH);
       (py "轻微不足", IssueSeverity.LOW)].
Proof.
  split; [apply parse_inspection_issues|].
  split; [apply split_issue_marker|].
  split; [done|]. split.
  - rewrite parse_inspection_issues. apply Forall_map, Forall_forall.
    intros block _. simpl. rewrite length_take. lia.
  - vm_compute. reflexivity.
Qed.

(** C6 as stated fails: the text before the first marker is a block of the
    split and mentions 问题, yet it gives no issue; and a description is
    the stripped block, not the block as it stands. *)
Lemma inspection_issues_counterexample :
  ¬ (∀ response sid,
       issues (_parse_inspection_response response sid)
       = issues_of_all_blocks response).
Proof.
  intros Hclaim. specialize (Hclaim (py "存在问题") PNone).
  vm_compute in Hclaim. discriminate Hclaim.
Qed.

(** ** What the speaker-marker pattern captures *)

Section capture_facts.
Import Re.

Lemma orelse_Some {A} (a b : option A) x :
  orelse a b = Some x → a = Some x ∨ b = Some x.
Proof. destruct a; simpl; auto. Qed.

Lemma cap_inv_Eps P : cap_inv P Eps.
Proof. intros R s c k x Hc Hm. by exists s, c. Qed.

Lemma cap_inv_Chr P p : cap_inv P (Chr p).
Proof.
  intros R s c k x Hc Hm. simpl in Hm.
  destruct s as [|y s]; [done|]. destruct (p y); [|done]. by exists s, c.
Qed.

Lemma cap_inv_Eos P : cap_inv P Eos.
Proof.
  intros R s c k x Hc Hm. simpl in Hm.
  destruct (at_eos s); [|done]. by exists s, c.
Qed.

Lemma cap_inv_Seq P r1 r2 : cap_inv P r1 → cap_inv P r2 → cap_inv P (Seq r1 r2).
Proof.
  intros H1 H2 R s c k x Hc Hm. simpl in Hm.
  destruct (H1 _ _ _ _ _ Hc Hm) as (s1 & c1 & Hc1 & Hm1).
  by apply (H2 _ _ _ _ _ Hc1 Hm1).
Qed.

Lemma cap_inv_Alt P r1 r2 : cap_inv P r1 → cap_inv P r2 → cap_inv P (Alt r1 r2).
Proof.
  intros H1 H2 R s c k x Hc Hm. simpl in Hm.
  apply orelse_Some in Hm as [Hm|Hm]; [by eapply H1 | by eapply H2].
Qed.

Lemma cap_inv_Star P g r : cap_inv P r → cap_inv P (Star g r).
Proof.
  intros Hr R s c k x Hc Hm.
  change (mt (Star g r) s c k)
    with (star_loop g (fun s0 c0 k' => mt r s0 c0 k') k (S (length s)) s c)
    in Hm.
  remember (S (length s)) as n eqn:Hn. clear Hn. revert s c Hc Hm.
  induction n as [|n IH]; intros s c Hc Hm; simpl in Hm.
  { by exists s, c. }
  assert (k s c = Some x
          ∨ mt r s c (fun s' c' =>
               if (length s' <? length s)%nat
               then star_loop g (fun s0 c0 k' => mt r s0 c0 k') k n s' c'
               else None) = Some x) as [Hk|Hmore].
  { destruct g; apply orelse_Some in Hm; tauto. }
  { by exists s, c. }
  destruct (Hr _ _ _ _ _ Hc Hmore) as (s1 & c1 & Hc1 & Hm1).
  destruct (length s1 <? length s)%nat; [|done]. by eapply IH.
Qed.

Lemma cap_inv_Look P r : cap_inv P r → cap_inv P (Look r).
Proof.
  intros Hr R s c k x Hc Hm. simpl in Hm.
  destruct (mt r s c (fun _ c' => Some c')) as [c1|] eqn:Hlook; [|done].
  destruct (Hr _ _ _ _ _ Hc Hlook) as (s' & c' & Hc' & [= ->]).
  by exists s, c1.
Qed.

Lemma cap_inv_Group P i r :
  cap_inv P r → (∀ c v, P c → P (set_cap i v c)) → cap_inv P (Group i r).
Proof.
  intros Hr Hset R s c k x Hc Hm. simpl in Hm.
  destruct (Hr _ _ _ _ _ Hc Hm) as (s' & c' & Hc' & Hk).
  eexists _, _. split; [|exact Hk]. by apply Hset.
Qed.

Lemma group_set_cap_eq i v c : group i (set_cap i v c) = v.
Proof. unfold set_cap. simpl. by rewrite Nat.eqb_refl. Qed.

Lemma group_set_cap_ne i j v c : i ≠ j → group j (set_cap i v c) = group j c.
Proof.
  intros Hij. unfold set_cap. simpl.
  destruct (Nat.eqb_spec j i) as [->|_]; [done|].
  induction c as [|[n w] c IH]; [done|]. simpl.
  destruct (Nat.eqb_spec n i) as [->|Hn]; simpl.
  - destruct (Nat.eqb_spec j i) as [->|_]; [done|]. apply IH.
  - destruct (j =? n)%nat; [done|]. apply IH.
Qed.

Lemma startswith_take p s : startswith p s = true → take (length p) s = p.
Proof.
  revert s. induction p as [|x p IH]; intros s; [done|].
  destruct s as [|y s]; [done|]. simpl.
  intros [->%N.eqb_eq Hp]%andb_prop. by rewrite IH.
Qed.

(** The text captured by a group around the label alternation is one of
    the labels. *)
Lemma cap_inv_labels (P : caps → Prop) i :
  (∀ c l, l ∈ known_labels → P c → P (set_cap i l c)) →
  cap_inv P (Group i speaker_labels).
Proof.
  intros Hset R s c k x Hc Hm.
  change (mt (Group i speaker_labels) s c k)
    with (let k' := fun s' c' =>
                      k s' (set_cap i (take (length s - length s') s) c') in
          orelse (mt (Lit (py "客户")) s c k')
            (orelse (mt (Lit (py "用户")) s c k')
               (orelse (mt (Lit (py "Customer")) s c k')
                  (mt (Lit (py "User")) s c k')))) in Hm.
  cbv zeta in Hm. rewrite !mt_Lit in Hm.
  assert (∀ l, l ∈ known_labels → startswith l s = true →
            k (drop (length l) s)
              (set_cap i (take (length s - length (drop (length l) s)) s) c)
            = Some x →
            ∃ s' c', P c' ∧ k s' c' = Some x) as Hl.
  { intros l Hin Hstart Hk. eexists _, _. split; [|exact Hk].
    rewrite length_drop.
    assert (length l <= length s)%nat.
    { rewrite <- (startswith_take _ _ Hstart), length_take. lia. }
    replace (length s - (length s - length l))%nat with (length l) by lia.
    rewrite (startswith_take _ _ Hstart). by apply Hset. }
  repeat (apply orelse_Some in Hm as [Hm|Hm]);
    match type of Hm with
    | (if startswith ?l s then _ else _) = _ =>
        destruct (startswith l s) eqn:Hstart; [|done];
        apply (Hl l); [unfold known_labels; set_solver | done | done]
    end.
Qed.

Lemma cap_inv_pattern1 : cap_inv third_is_label pattern1.
Proof.
  unfold pattern1, Seqs, Plus. cbn [fold_right].
  repeat first
    [ apply cap_inv_Seq | apply cap_inv_Alt | apply cap_inv_Star
    | apply cap_inv_Look | apply cap_inv_Eps | apply cap_inv_Chr
    | apply cap_inv_Eos ].
  - apply cap_inv_labels. intros c l Hl Hc. unfold third_is_label.
    by rewrite group_set_cap_ne.
  - apply cap_inv_Group;
      [repeat first [apply cap_inv_Seq | apply cap_inv_Star | apply cap_inv_Chr]|].
    intros c v Hc. unfold third_is_label. by rewrite group_set_cap_ne.
  - apply cap_inv_labels. intros c l Hl Hc. right.
    by rewrite group_set_cap_eq.
Qed.

Lemma third_is_label_nil : third_is_label [].
Proof. by left. Qed.

Lemma match_here_pattern1 s s' c :
  match_here pattern1 s = Some (s', c) → third_is_label c.
Proof.
  unfold match_here. intros Hm.
  destruct (cap_inv_pattern1 _ _ _ _ _ third_is_label_nil Hm)
    as (s1 & c1 & Hc1 & [= <- <-]).
  done.
Qed.

Lemma search_from_pattern1 pre s m :
  search_from pattern1 pre s = Some m → third_is_label (m_caps m).
Proof.
  revert pre m. induction s as [|y s IH]; intros pre m; cbn [search_from].
  - destruct (match_here pattern1 []) as [[s' c]|] eqn:Hm; [|done].
    intros [= <-]. by eapply match_here_pattern1.
  - destruct (match_here pattern1 (y :: s)) as [[s' c]|] eqn:Hm; [|apply IH].
    intros [= <-]. by eapply match_here_pattern1.
Qed.

Lemma matches_pattern1 s :
  Forall (fun m => third_is_label (m_caps m)) (matches pattern1 s).
Proof.
  unfold matches. generalize (S (length s)) as n. intros n. revert s.
  induction n as [|n IH]; intros s; simpl; [constructor|].
  unfold search. destruct (search_from pattern1 [] s) as [m|] eqn:Hm;
    [|constructor].
  constructor; [by eapply search_from_pattern1|].
  destruct (m_text m), (m_post m); try constructor; apply IH.
Qed.

Lemma strip_known_label l : l ∈ known_labels → strip l = l.
Proof.
  unfold known_labels. rewrite !elem_of_cons, elem_of_nil.
  intros [->|[->|[->|[->|[]]]]]; vm_compute; reflexivity.
Qed.

(** The content of a turn of the speaker-marker strategy is taken from the
    third group: it is a speaker label, never the utterance next to it. *)
Lemma speaker_marker_turns_contents conversation :
  Forall (fun t => ∃ l, l ∈ known_labels ∧ content t = PStr l)
         (speaker_marker_turns conversation).
Proof.
  unfold speaker_marker_turns, findall.
  assert (∀ ms acc,
            Forall (fun m => third_is_label (m_caps m)) ms →
            Forall (fun t => ∃ l, l ∈ known_labels ∧ content t = PStr l) acc →
            Forall (fun t => ∃ l, l ∈ known_labels ∧ content t = PStr l)
                   (fold_left turn_of_match
                      (map (fun m => map (fun i => group i (m_caps m)) (seq 1 3))
                           ms) acc)) as Hfold.
  { induction ms as [|m ms IH]; intros acc Hms Hacc; [done|].
    apply Forall_cons in Hms as [Hm Hms]. simpl. apply IH; [done|].
    unfold turn_of_match. cbn [length Nat.leb nth List.last].
    destruct Hm as [Hm|Hm].
    - rewrite Hm. by change (strip []) with (@nil N).
    - rewrite (strip_known_label _ Hm).
      destruct (group 3 (m_caps m)) as [|y l] eqn:Hg; [done|].
      apply Forall_app. split; [done|].
      apply Forall_singleton. by eexists. }
  apply Hfold; [apply matches_pattern1 | constructor].
Qed.

End capture_facts.

(** ** extract_dialogue_turns on the scenario of the specification *)

(** What [turn_of_match] keeps of a three-group match: the first group as
    speaker and the last group, the label seen by the lookahead of
    pattern 1, as content; the utterance, group 2, is dropped. *)
Lemma turn_of_match_three `{Runtime} turns g1 g2 g3 :
  turn_of_match turns [g1; g2; g3]
  = match strip g3 with
    | [] => turns
    | _ :: _ => turns ++ [text_turn (strip g1) (strip g3)]
    end.
Proof. reflexivity. Qed.

(** When the speaker-marker pattern matches, it alone decides the turns of
    the pattern strategies. *)
Lemma pattern_turns_first `{Runtime} conversation :
  Re.findall 3 pattern1 conversation ≠ [] →
  pattern_turns patterns conversation = speaker_marker_turns conversation.
Proof.
  intros Hms. unfold patterns, speaker_marker_turns. cbn [pattern_turns].
  by destruct (Re.findall 3 pattern1 conversation).
Qed.


(** C1, what the code does. On "客户：您好\n客服：您好，请问有什么可以帮您？"
    pattern 1 matches once, from 客户 to the end of the text (客服 is not
    one of its labels) with an empty third group, so no turn is kept, the
    loop breaks, and the line scanner, which looks for the ASCII colon
    only, returns one turn of speaker 未知 holding both lines.
    [parse_conversation] returns that single turn; [detect_format] answers
    "text". On "客户：你好\n用户：在吗", whose labels are both recognized,
    pattern 1 yields one turn whose content is the next label, 用户. In
    general, whenever pattern 1 matches, its turns are the result of the
    pattern strategies, and the content of each of them is one of the four
    labels, not the utterance of the block. *)
Theorem speaker_marker_scenario `{Runtime} :
  let raw := py "客户：您好
客服：您好，请问有什么可以帮您？" in
  let both := py "客户：您好 客服：您好，请问有什么可以帮您？" in
  Re.findall 3 pattern1 raw
  = [[py "客户"; py "您好
客服：您好，请问有什么可以帮您？"; []]]
  ∧ extract_dialogue_turns raw = [text_turn (py "未知") both]
  ∧ parse_conversation raw (py "text")
    = Ok {| session_id :=
              PStr (take 12 (md5_hexdigest (flat_map utf8_encode_char raw)));
            participants := [PStr (py "未知")];
            turns := [text_turn (py "未知") both];
            metadata := {[ py "format" := PStr (py "text") ]} |}
  ∧ detect_format raw = py "text"
  ∧ Re.findall 3 pattern1 (py "客户：你好
用户：在吗")
    = [[py "客户"; py "你好
"; py "用户"]; [py "用户"; py "在吗"; []]]
  ∧ extract_dialogue_turns (py "客户：你好
用户：在吗") = [text_turn (py "客户") (py "用户")]
  ∧ (∀ conversation,
       Re.findall 3 pattern1 conversation ≠ [] →
       pattern_turns patterns conversation = speaker_marker_turns conversation)
  ∧ (∀ conversation,
       Forall (fun t => ∃ l, l ∈ known_labels ∧ content t = PStr l)
              (speaker_marker_turns conversation)).
Proof.
  cbv zeta.
  do 6 (split; [vm_compute; reflexivity|]).
  split; [apply pattern_turns_first | apply speaker_marker_turns_contents].
Qed.

(** Witness of C1: two blocks with recognized labels, for which pattern 1
    matches. *)
Lemma speaker_marker_scenario_witness :
  pattern_turns (@patterns Demo.runtime) (py "客户：你好
用户：在吗")
  = speaker_marker_turns (py "客户：你好
用户：在吗").
Proof.
  destruct (@speaker_marker_scenario Demo.runtime)
    as (_ & _ & _ & _ & _ & _ & Hfirst & _).
  apply Hfirst. vm_compute. discriminate.
Defined.

(** ** check_compliance *)

Section compliance_facts.
Context `{Runtime} `{LLMClient}.

Lemma dict_get_absent k items default :
  dict_has k items = false → dict_get k items default = default.
Proof.
  induction items as [|[k' v] items IH]; [done|].
  simpl. destruct (str_eqb k k'); [done|]. apply IH.
Qed.

Lemma check_compliance_raised conversation e :
  generate_text (compliance_prompt conversation) = Raise e →
  check_compliance conversation = compliance_failure e.
Proof.
  intros Hllm. unfold check_compliance.
  fold (compliance_prompt conversation). by rewrite Hllm.
Qed.

Lemma check_compliance_answered conversation response :
  generate_text (compliance_prompt conversation) = Ok response →
  check_compliance conversation
  = match _parse_json_response response with
    | PDict items =>
        PDict [(py "score", dict_get (py "score") items (PInt 100));
               (py "issues",
                PList (if contains (py "违规") (str_lower response)
                          || contains (py "不合规") (str_lower response)
                       then [PStr (py "存在潜在的合规性问题")] else []));
               (py "details", PDict items)]
    | v => compliance_failure (AttributeError v "get")
    end.
Proof.
  intros Hllm. unfold check_compliance.
  fold (compliance_prompt conversation). rewrite Hllm. simpl.
  by destruct (_parse_json_response response).
Qed.

End compliance_facts.

(** C10, as the code has it. When the model answers and its answer holds no
    JSON object with a "score" key, [check_compliance] returns the score
    100, without an "error" key, whereas [_parse_inspection_response]
    leaves the compliance score of an answer without a labelled number at
    0; when an exception is raised [check_compliance] returns the score 0
    together with the "error" key; and a score of 0 is returned only in
    that way, or when the JSON object found in the answer carries a score
    of 0 itself, which is passed on without an "error" key. *)
Theorem check_compliance_default_score `{Runtime} `{LLMClient}
    (conversation : ParsedConversation) :
  (∀ response items,
     generate_text (compliance_prompt conversation) = Ok response →
     _parse_json_response response = PDict items →
     dict_has (py "score") items = false →
     ∃ notes,
       check_compliance conversation
       = PDict [(py "score", PInt 100); (py "issues", PList notes);
                (py "details", PDict items)])
  ∧ (∀ response sid,
       first_labelled_number (score_label compliance) response = None →
       compliance_score (_parse_inspection_response response sid) = 0%Q)
  ∧ (∀ e, generate_text (compliance_prompt conversation) = Raise e →
          check_compliance conversation
          = PDict [(py "score", PInt 0); (py "error", PStr (exn_str e))])
  ∧ (∀ out,
       check_compliance conversation = PDict out →
       zero_score (dict_get (py "score") out PNone) = true →
       (∃ e, out = [(py "score", PInt 0); (py "error", PStr (exn_str e))])
       ∨ (∃ response items notes,
            generate_text (compliance_prompt conversation) = Ok response
            ∧ _parse_json_response response = PDict items
            ∧ dict_has (py "score") items = true
            ∧ zero_score (dict_get (py "score") items (PInt 100)) = true
            ∧ out = [(py "score", dict_get (py "score") items (PInt 100));
                     (py "issues", PList notes);
                     (py "details", PDict items)])).
Proof.
  split; [|split; [|split]].
  - intros response items Hllm Hjson Hkey.
    rewrite (check_compliance_answered _ _ Hllm), Hjson.
    rewrite (dict_get_absent _ _ _ Hkey). by eexists.
  - intros response sid Hnone.
    change (compliance_score (_parse_inspection_response response sid))
      with (report_score (_parse_inspection_response response sid) compliance).
    rewrite parse_inspection_scores. unfold score_of. by rewrite Hnone.
  - intros e Hllm. by apply check_compliance_raised.
  - intros out Hout Hzero.
    destruct (generate_text (compliance_prompt conversation))
      as [response|e] eqn:Hllm.
    + rewrite (check_compliance_answered _ _ Hllm) in Hout.
      destruct (_parse_json_response response) as [| | | | |l|items] eqn:Hjson;
        try (injection Hout as <-; left;
             by exists (AttributeError (_parse_json_response response) "get");
                rewrite Hjson).
      injection Hout as <-. right.
      change (dict_get (py "score") _ PNone)
        with (dict_get (py "score") items (PInt 100)) in Hzero.
      exists response, items. eexists. repeat split; try done.
      destruct (dict_has (py "score") items) eqn:Hkey; [done|].
      by rewrite (dict_get_absent _ _ _ Hkey) in Hzero.
    + rewrite (check_compliance_raised _ _ Hllm) in Hout.
      injection Hout as <-. left. by eexists.
Qed.

(** Witness of C10: an answer in prose, without any JSON object. *)
Lemma check_compliance_default_score_witness :
  let conversation :=
    {| session_id := PStr (py "s1"); participants := [];
       turns := [text_turn (py "客服") (py "您好")]; metadata := ∅ |} in
  ∃ notes,
    @check_compliance Demo.runtime (Demo.llm (py "对话合规，没有问题")) conversation
    = PDict [(py "score", PInt 100); (py "issues", PList notes);
             (py "details", PDict [])].
Proof.
  intros conversation.
  destruct (@check_compliance_default_score Demo.runtime
              (Demo.llm (py "对话合规，没有问题")) conversation) as (Hdefault & _).
  apply (Hdefault (py "对话合规，没有问题") []); vm_compute; reflexivity.
Defined.

(** C10 as stated fails: the answer {"score": 0} is passed on as the score
    0, with no exception and no "error" key. *)
Lemma check_compliance_zero_counterexample :
  ¬ (∀ (rt : Runtime) (llm : LLMClient) (conversation : ParsedConversation)
       (out : list (str * pyval)),
       check_compliance conversation = PDict out →
       dict_get (py "score") out PNone = PInt 0 →
       dict_has (py "error") out = true).
Proof.
  intros Hclaim.
  specialize (Hclaim Demo.runtime (Demo.llm (Demo.json "{'score': 0}"))
                {| session_id := PStr (py "s1"); participants := [];
                   turns := []; metadata := ∅ |}
                [(py "score", PInt 0); (py "issues", PList []);
                 (py "details", PDict [(py "score", PInt 0)])]).
  assert (false = true) as Habs; [|discriminate Habs].
  apply Hclaim; vm_compute; reflexivity.
Qed.

(* ===================================================================== *)
(** * Further properties of the code *)
(* ===================================================================== *)

Ltac in_list :=
  repeat first [apply list_elem_of_here | apply list_elem_of_further].

Ltac not_in_list :=
  let Hin := fresh "Hin" in
  vm_compute; intros Hin;
  repeat (apply elem_of_cons in Hin as [Hin|Hin]; [discriminate Hin|]);
  by apply elem_of_nil in Hin.

(* ===================================================================== *)
(** ** validate_conversation_format *)
(* ===================================================================== *)

Lemma search_from_Chr p pre s :
  match Re.search_from (Re.Chr p) pre s with
  | Some _ => existsb p s = true
  | None => existsb p s = false
  end.
Proof.
  revert pre. induction s as [|x s IH]; intros pre; [done|].
  cbn [Re.search_from]. unfold Re.match_here. cbn [Re.mt existsb].
  destruct (p x); [done|]. apply IH.
Qed.

Lemma oneof_elem cs c : Re.oneof cs c = true ↔ c ∈ cs.
Proof.
  unfold Re.oneof. rewrite existsb_exists. split.
  - intros (x & Hin & Heq). apply N.eqb_eq in Heq. subst.
    by apply list_elem_of_In.
  - intros Hin. exists c. split; [by apply list_elem_of_In|apply N.eqb_refl].
Qed.

Lemma str_count_pos c s : (1 <=? str_count c s)%nat = true ↔ c ∈ s.
Proof.
  unfold str_count. induction s as [|x s IH]; simpl.
  - split; [done|]. by intros ?%elem_of_nil.
  - rewrite elem_of_cons. destruct (N.eqb_spec c x) as [->|Hne]; simpl.
    + split; [by left|done].
    + rewrite IH. split; [by right|]. by intros [?|?].
Qed.

Lemma strip_nil_length s : (length (strip s) =? 0)%nat = false ↔ strip s ≠ [].
Proof. destruct (strip s); simpl; split; done. Qed.

Lemma validate_marker (content : str) (c : N) :
  strip content ≠ [] → c ∈ content → marker_chars c = true →
  validate_conversation_format content = true.
Proof.
  intros Hs Hin Hc. unfold validate_conversation_format.
  destruct (bool_decide_reflect (content = [])) as [->|Hne]; [done|].
  cbn [orb]. apply strip_nil_length in Hs. rewrite Hs.
  pose proof (search_from_Chr marker_chars [] content) as Hsearch.
  fold (Re.search (Re.Chr marker_chars) content) in Hsearch.
  destruct (Re.search _ content); [done|].
  assert (existsb marker_chars content = true) as Hex; [|congruence].
  apply existsb_exists. exists c. split; [by apply list_elem_of_In|done].
Qed.

(** X1 (validate_conversation_format): a text is accepted exactly when it
    is not blank and holds one of the characters [：:-[]] or a line
    break. *)
Theorem validate_conversation_format_spec (content : str) :
  validate_conversation_format content = true
  ↔ strip content ≠ []
    ∧ ∃ c, c ∈ content ∧ (c ∈ py "：:-[]" ∨ c = 10%N).
Proof.
  split.
  - unfold validate_conversation_format.
    destruct (bool_decide_reflect (content = [])) as [->|Hne]; [done|].
    cbn [orb].
    destruct (length (strip content) =? 0)%nat eqn:Hlen; [done|].
    apply strip_nil_length in Hlen.
    pose proof (search_from_Chr marker_chars [] content) as Hsearch.
    fold (Re.search (Re.Chr marker_chars) content) in Hsearch.
    rewrite orb_true_iff, str_count_pos.
    intros [Hm|Hn]; (split; [done|]).
    + destruct (Re.search _ content); [|done].
      apply existsb_exists in Hsearch as (c & Hin & Hc).
      exists c. split; [by apply list_elem_of_In|left].
      by apply oneof_elem.
    + exists 10%N. by split; [|right].
  - intros (Hs & c & Hin & [Hc| ->]).
    + eapply validate_marker; [done..|]. by apply oneof_elem.
    + unfold validate_conversation_format.
      destruct (bool_decide_reflect (content = [])) as [->|Hne]; [done|].
      cbn [orb]. apply strip_nil_length in Hs. rewrite Hs.
      apply orb_true_iff. right. by apply str_count_pos.
Qed.

Lemma validate_conversation_format_spec_witness :
  validate_conversation_format (py "你好
在吗") = true.
Proof.
  apply (proj2 (validate_conversation_format_spec (py "你好
在吗"))).
  split; [vm_compute; discriminate|].
  exists 10%N. split; [vm_compute; in_list|by right].
Defined.

Lemma contains_single_elem c s : contains [c] s = true ↔ c ∈ s.
Proof.
  rewrite contains_single, existsb_exists. split.
  - intros (x & Hin & Heq). apply N.eqb_eq in Heq. subst.
    by apply list_elem_of_In.
  - intros Hin. exists c. split; [by apply list_elem_of_In|apply N.eqb_refl].
Qed.

Lemma strip_keeps c s : isspace c = false → c ∈ s → strip s ≠ [].
Proof.
  intros Hc Hin Hs. apply contains_single_elem in Hin.
  rewrite <- (contains_single_strip c s Hc), Hs in Hin. done.
Qed.

(** X2 (detect_format, validate_conversation_format): whatever
    [detect_format] calls text is accepted by
    [validate_conversation_format]. *)
Theorem detected_text_is_valid `{Runtime} (content : str) :
  detect_format content = py "text" →
  validate_conversation_format content = true.
Proof.
  rewrite detect_format_cases. intros Hfmt.
  destruct (valid_json content); [by vm_compute in Hfmt|].
  destruct (has_colon content) eqn:Hcolon; [|by vm_compute in Hfmt].
  unfold has_colon in Hcolon. apply orb_true_iff in Hcolon.
  destruct Hcolon as [Hc|Hc]; apply contains_single_elem in Hc.
  - eapply validate_marker; [|exact Hc|by vm_compute].
    by eapply strip_keeps; [|exact Hc].
  - eapply validate_marker; [|exact Hc|by vm_compute].
    by eapply strip_keeps; [|exact Hc].
Qed.

Lemma detected_text_is_valid_witness :
  @validate_conversation_format (py "客户：您好") = true.
Proof.
  apply (@detected_text_is_valid Demo.runtime (py "客户：您好")).
  vm_compute. reflexivity.
Defined.

(* ===================================================================== *)
(** ** What a parsed inspection report always satisfies *)
(* ===================================================================== *)

Lemma py_float_nonneg s q : py_float s = Ok q → (0 <= q)%Q.
Proof.
  unfold py_float. destruct (span isdecimal s) as [ip rest].
  destruct ip as [|d ip]; [done|]. destruct rest as [|c fp].
  - intros [= <-]. unfold Qle. cbn [Qnum Qden]. lia.
  - destruct ((c =? 0x2E)%N && forallb isdecimal fp); [|done].
    intros [= <-]. unfold Qle. cbn [Qnum Qden]. lia.
Qed.

Lemma score_of_nonneg response key : (0 <= score_of response key)%Q.
Proof.
  unfold score_of. destruct (first_labelled_number _ response) as [n|]; [|done].
  destruct (py_float n) eqn:Hf; [|done]. by eapply py_float_nonneg.
Qed.

Lemma span_no_digit s : no_digit s → span isdecimal s = ([], s).
Proof. intros Hs. apply span_stop. by destruct Hs as [|x s ->]. Qed.

Lemma read_number_no_digit s : no_digit s → read_number s = None.
Proof. intros Hs. unfold read_number. by rewrite span_no_digit. Qed.

Lemma span_snd_no_digit p s : no_digit s → no_digit (snd (span p s)).
Proof.
  intros Hs. rewrite <- (span_app p s) in Hs.
  by apply Forall_app in Hs as [_ ?].
Qed.

Lemma first_labelled_number_no_digit label s :
  no_digit s → first_labelled_number label s = None.
Proof.
  induction s as [|x s IH]; intros Hs.
  - cbn [first_labelled_number]. unfold labelled_number_here.
    destruct (startswith label []); [|done].
    by rewrite read_number_no_digit;
      [|apply span_snd_no_digit, Forall_drop].
  - cbn [first_labelled_number]. unfold labelled_number_here.
    destruct (startswith label (x :: s)).
    + rewrite read_number_no_digit;
        [|by apply span_snd_no_digit, Forall_drop].
      simpl. apply IH. by inversion Hs.
    + apply IH. by inversion Hs.
Qed.

Lemma find_marker_no_digit s : no_digit s → find_marker s = None.
Proof.
  induction s as [|x s IH]; intros Hs.
  - done.
  - cbn [find_marker]. unfold marker_here. rewrite span_no_digit by done.
    rewrite IH; [done|]. by inversion Hs.
Qed.

Lemma no_digit_existsb s : existsb isdecimal s = false → no_digit s.
Proof.
  intros Hs. apply List.Forall_forall. intros c Hc.
  destruct (isdecimal c) eqn:Hd; [|done].
  rewrite <- Hs. symmetry. apply existsb_exists. by exists c.
Qed.

(** X3 (_parse_inspection_response): no score of a report is negative,
    whatever the model answered; and an answer without a decimal digit
    gives four zero scores and no issue. *)
Theorem inspection_scores_nonneg :
  (∀ response sid key,
     (0 <= report_score (_parse_inspection_response response sid) key)%Q)
  ∧ (∀ response sid,
       existsb isdecimal response = false →
       (∀ key,
          report_score (_parse_inspection_response response sid) key = 0%Q)
       ∧ issues (_parse_inspection_response response sid) = []).
Proof.
  split.
  - intros response sid key. rewrite parse_inspection_scores.
    apply score_of_nonneg.
  - intros response sid Hs%no_digit_existsb. split.
    + intros key. rewrite parse_inspection_scores. unfold score_of.
      by rewrite first_labelled_number_no_digit.
    + rewrite parse_inspection_issues. unfold split_at_markers.
      cbn [split_at_markers_fuel]. by rewrite find_marker_no_digit.
Qed.

Lemma inspection_scores_nonneg_witness :
  issues (_parse_inspection_response (py "服务有问题，态度不足") PNone) = [].
Proof.
  refine (proj2 (proj2 inspection_scores_nonneg (py "服务有问题，态度不足")
                       PNone _)).
  vm_compute. reflexivity.
Defined.

Lemma startswith_head c p s : startswith (c :: p) s = true → c ∈ s.
Proof.
  destruct s as [|y s]; [done|]. simpl. intros [Hc _]%andb_true_iff.
  apply N.eqb_eq in Hc. subst. by left.
Qed.

Lemma contains_head c p s : contains (c :: p) s = true → c ∈ s.
Proof.
  induction s as [|y s IH]; [done|].
  cbn [contains]. intros [H|H]%orb_true_iff.
  - by eapply startswith_head.
  - right. by apply IH.
Qed.

Lemma mentions_problem_strip block :
  mentions_problem block = true → strip block ≠ [].
Proof.
  unfold mentions_problem. intros [H|H]%orb_true_iff;
    apply contains_head in H; by eapply strip_keeps; [|done].
Qed.

Lemma split_at_markers_fuel_length n s :
  (1 <= length (split_at_markers_fuel n s))%nat.
Proof.
  destruct n; simpl; [lia|]. destruct (find_marker s) as [[[? ?] ?]|];
    simpl; lia.
Qed.

(** X4 (_parse_inspection_response): every issue of a report has the type
    [服务问题], a description that is not empty and at most 200 characters
    long, one of the three severities high, medium and low (never
    critical), and no location, suggestion or evidence; there are no more
    issues than numbered-list markers in the answer. *)
Theorem inspection_issue_invariants (response : str) (sid : pyval) :
  Forall (fun i =>
            issue_type i = py "服务问题"
            ∧ description i ≠ []
            ∧ (length (description i) <= 200)%nat
            ∧ severity i ∈ [IssueSeverity.HIGH; IssueSeverity.MEDIUM;
                            IssueSeverity.LOW]
            ∧ severity i ≠ IssueSeverity.CRITICAL
            ∧ location i = None ∧ suggestion i = None ∧ evidence i = None)
         (issues (_parse_inspection_response response sid))
  ∧ (S (length (issues (_parse_inspection_response response sid)))
     <= length (split_at_markers response))%nat.
Proof.
  rewrite parse_inspection_issues. split.
  - apply Forall_map, List.Forall_forall.
    intros block [_ Hm]%List.filter_In. unfold block_issue.
    cbn [issue_type description severity location suggestion evidence].
    split; [reflexivity|]. split.
    { apply mentions_problem_strip in Hm.
      by destruct (strip block). }
    split; [rewrite length_take; lia|].
    unfold severity_of.
    destruct (contains (py "严重") block);
      [|destruct (contains (py "轻微") block)];
      (split; [repeat first [apply list_elem_of_here
                            |apply list_elem_of_further]|]);
      (split; [by vm_compute|by repeat split]).
  - rewrite length_map.
    pose proof (List.filter_length_le mentions_problem
                  (tail (split_at_markers response))) as Hle.
    pose proof (split_at_markers_fuel_length (S (length response)) response).
    unfold split_at_markers in *.
    destruct (split_at_markers_fuel _ response); simpl in *; lia.
Qed.

(* ===================================================================== *)
(** ** Cutting JSON out of an answer *)
(* ===================================================================== *)

Section bracket_facts.
Import Re.

Lemma after_last_none c s : c ∉ s → after_last c s = None.
Proof.
  induction s as [|x s IH]; [done|]. intros Hc.
  apply not_elem_of_cons in Hc as [Hne Hc]. cbn [after_last].
  rewrite IH by done. by destruct (N.eqb_spec c x).
Qed.

Lemma after_last_app c inner post :
  c ∉ post → after_last c (inner ++ c :: post) = Some post.
Proof.
  intros Hc. induction inner as [|x inner IH].
  - cbn [app after_last]. rewrite after_last_none by done.
    by rewrite N.eqb_refl.
  - cbn [app after_last]. by rewrite IH.
Qed.

Lemma star_loop_all_close close n s c :
  (length s < n)%nat →
  star_loop true
    (fun s' c' k' =>
       mt (Chr (cls_or isspace (fun x => negb (isspace x)))) s' c' k')
    (fun s' c' =>
       mt (Seq (One close) Eps) s' c' (fun s'' c'' => Some (s'', c'')))
    n s c
  = option_map (fun r => (r, c)) (after_last close s).
Proof.
  revert s. induction n as [|n IH]; intros s Hn; [lia|].
  destruct s as [|x s].
  - done.
  - cbn [star_loop mt after_last]. unfold cls_or at 1.
    rewrite orb_negb_r.
    replace (length s <? length (x :: s))%nat with true
      by (symmetry; apply Nat.ltb_lt; simpl; lia).
    rewrite IH by (simpl in Hn; lia).
    destruct (after_last close s); [done|].
    cbn [option_map orelse]. unfold One. cbn [mt].
    by destruct (close =? x)%N.
Qed.

Lemma match_here_bracket open close s :
  match_here (bracket_pattern open close) s
  = match s with
    | x :: s' =>
        if (open =? x)%N
        then option_map (fun r => (r, [])) (after_last close s')
        else None
    | [] => None
    end.
Proof.
  unfold match_here, bracket_pattern, Seqs. cbn [fold_right].
  destruct s as [|x s]; [done|].
  change (mt (Seq (One open) ?r) (x :: s) [] ?k)
    with (if (open =? x)%N then mt r s [] k else None).
  destruct (open =? x)%N; [|done].
  apply star_loop_all_close. simpl. lia.
Qed.


Lemma search_from_bracket_skip open close acc pre s :
  open ∉ pre →
  search_from (bracket_pattern open close) acc (pre ++ s)
  = search_from (bracket_pattern open close) (rev pre ++ acc) s.
Proof.
  revert acc. induction pre as [|x pre IH]; intros acc Ho; [done|].
  apply not_elem_of_cons in Ho as [Hne Ho].
  cbn [app search_from]. rewrite match_here_bracket.
  destruct (N.eqb_spec open x) as [->|_]; [done|].
  rewrite IH by done. cbn [rev]. by rewrite <- app_assoc.
Qed.

Lemma search_bracket_found open close pre inner post :
  open ∉ pre → close ∉ post →
  search (bracket_pattern open close) (pre ++ open :: inner ++ close :: post)
  = Some {| m_pre := pre; m_text := open :: inner ++ [close];
            m_post := post; m_caps := [] |}.
Proof.
  intros Ho Hc. unfold search.
  rewrite search_from_bracket_skip by done.
  cbn [search_from]. rewrite match_here_bracket, N.eqb_refl.
  rewrite after_last_app by done. cbn [option_map].
  rewrite app_nil_r, rev_involutive. f_equal. f_equal.
  replace (open :: inner ++ close :: post)
    with ((open :: inner ++ [close]) ++ post)
    by (simpl; by rewrite <- app_assoc).
  apply take_app_suffix.
Qed.


End bracket_facts.



(* ===================================================================== *)
(** ** generate_improvement_suggestions and batch_inspect *)
(* ===================================================================== *)

Lemma dict_get_truthy k items d :
  truthy (dict_get k items PNone) = true →
  dict_get k items d = dict_get k items PNone.
Proof.
  induction items as [|[k' v] items IH]; [done|].
  cbn [dict_get]. by destruct (str_eqb k k').
Qed.

Section suggestion_facts.
Context `{Runtime} `{LLMClient}.

Lemma kept_suggestions_dicts dicts :
  kept_suggestions (map PDict dicts)
  = Ok (List.filter truthy
          (map (fun items => dict_get (py "suggestion") items PNone) dicts)).
Proof.
  induction dicts as [|items dicts IH]; [done|].
  cbn [map kept_suggestions py_get List.filter].
  change (mbind ?f (Ok ?a)) with (f a). cbv beta.
  destruct (truthy (dict_get (py "suggestion") items PNone)) eqn:Ht.
  - change (mbind ?f (Ok ?a)) with (f a). cbv beta.
    rewrite IH. change (mbind ?f (Ok ?a)) with (f a). cbv beta.
    by rewrite dict_get_truthy.
  - done.
Qed.

Lemma kept_suggestions_not_dict results v :
  v ∈ results → (∀ items, v ≠ PDict items) →
  ∃ e, kept_suggestions results = Raise e.
Proof.
  intros Hin Hv. induction results as [|r results IH].
  { by apply elem_of_nil in Hin. }
  destruct r as [| | | | | |items]; try by eexists.
  apply elem_of_cons in Hin as [->|Hin]; [by destruct (Hv items)|].
  destruct (IH Hin) as [e IH']. exists e.
  cbn [kept_suggestions py_get].
  change (mbind ?f (Ok ?a)) with (f a). cbv beta.
  destruct (truthy _); [|done].
  change (mbind ?f (Ok ?a)) with (f a). cbv beta. by rewrite IH'.
Qed.

Lemma kept_suggestions_truthy results vs :
  kept_suggestions results = Ok vs → Forall (fun v => truthy v = true) vs.
Proof.
  revert vs. induction results as [|r results IH]; intros vs.
  { intros [= <-]. constructor. }
  cbn [kept_suggestions]. destruct r; try done.
  cbn [py_get]. change (mbind ?f (Ok ?a)) with (f a). cbv beta.
  destruct (truthy (dict_get (py "suggestion") items PNone)) eqn:Ht.
  - change (mbind ?f (Ok ?a)) with (f a). cbv beta.
    destruct (kept_suggestions results) as [vs'|]; [|done].
    intros [= <-]. constructor; [|by apply IH].
    by rewrite dict_get_truthy.
  - apply IH.
Qed.

Lemma own_suggestions_truthy issues :
  Forall (fun v => truthy v = true) (own_suggestions issues).
Proof.
  unfold own_suggestions. induction issues as [|i issues IH]; [constructor|].
  cbn [flat_map]. apply Forall_app. split; [|done].
  destruct (suggestion i) as [[|c s]|];
    [apply Forall_nil_2|by apply Forall_singleton|apply Forall_nil_2].
Qed.

Lemma own_suggestions_none issues :
  Forall (fun i => suggestion i = None) issues → own_suggestions issues = [].
Proof.
  unfold own_suggestions. induction 1 as [|i issues Hi _ IH]; [done|].
  cbn [flat_map]. by rewrite Hi, IH.
Qed.

Lemma batch_inspect_fold conversations acc :
  fold_left (fun reports conversation =>
               reports ++ [inspect_conversation conversation])
            conversations acc
  = acc ++ map inspect_conversation conversations.
Proof.
  revert acc. induction conversations as [|c cs IH]; intros acc.
  - by rewrite app_nil_r.
  - cbn [fold_left map]. rewrite IH. by rewrite <- app_assoc.
Qed.

Lemma parse_inspection_session response sid :
  r_session_id (_parse_inspection_response response sid) = sid.
Proof.
  unfold _parse_inspection_response.
  by destruct (fold_left _ _ _) as [[[? ?] ?] ?].
Qed.

Lemma inspect_conversation_session conversation :
  r_session_id (inspect_conversation conversation) = session_id conversation.
Proof.
  unfold inspect_conversation. cbv zeta.
  destruct (generate_text _); [|reflexivity].
  change (mbind ?f (Ok ?a)) with (f a). cbv beta.
  apply parse_inspection_session.
Qed.

Lemma inspect_conversation_raised conversation e :
  generate_text (PromptTemplates.QUALITY_INSPECT
                   (_format_conversation conversation)) = Raise e →
  inspect_conversation conversation
  = {| r_session_id := session_id conversation;
       overall_score := 0;
       attitude_score := 0;
       professionalism_score := 0;
       compliance_score := 0;
       issues := [];
       summary := Some (py "质检失败: " ++ exn_str e) |}.
Proof. intros Hg. unfold inspect_conversation. by rewrite Hg. Qed.

End suggestion_facts.

(** X6 (generate_improvement_suggestions): every suggestion returned is a
    truthy value, so never an empty string, whatever the model answers;
    without issues the answer is the one fixed sentence and the model
    is not consulted. *)
Theorem improvement_suggestions_truthy `{Runtime} `{LLMClient}
    (issues : list QualityIssue) :
  Forall (fun v => truthy v = true) (generate_improvement_suggestions issues)
  ∧ generate_improvement_suggestions [] = [PStr (py "继续保持良好的服务")].
Proof.
  split; [|done]. destruct issues as [|i issues].
  { by repeat constructor. }
  unfold generate_improvement_suggestions.
  destruct (generate_text _) as [response|e]; [|apply own_suggestions_truthy].
  change (mbind ?f (Ok ?a)) with (f a). cbv beta.
  destruct (py_iter _) as [results|e]; [|apply own_suggestions_truthy].
  change (mbind ?f (Ok ?a)) with (f a). cbv beta.
  destruct (kept_suggestions results) eqn:Hk; [|apply own_suggestions_truthy].
  by eapply kept_suggestions_truthy.
Qed.

(** X7 (generate_improvement_suggestions, _parse_json_array_response):
    when the answer has a JSON array of objects between its first opening
    bracket and its last closing bracket, the suggestions are the truthy
    values of the [suggestion] keys of the objects, in order. *)
Theorem improvement_suggestions_answered `{Runtime} `{LLMClient}
    (issues : list QualityIssue) (pre inner post : str)
    (dicts : list (list (str * pyval))) :
  issues ≠ [] →
  0x5B%N ∉ pre → 0x5D%N ∉ post →
  generate_text (suggestions_prompt issues)
  = Ok (pre ++ 0x5B%N :: inner ++ 0x5D%N :: post) →
  json_loads (0x5B%N :: inner ++ [0x5D%N]) = Decoded (PList (map PDict dicts)) →
  generate_improvement_suggestions issues
  = List.filter truthy
      (map (fun items => dict_get (py "suggestion") items PNone) dicts).
Proof.
  intros Hi Ho Hc Hg Hj. destruct issues as [|i issues]; [done|].
  unfold generate_improvement_suggestions. rewrite Hg.
  change (mbind ?f (Ok ?a)) with (f a). cbv beta.
  unfold _parse_json_array_response.
  change json_array_pattern with (bracket_pattern 0x5B 0x5D).
  rewrite search_bracket_found by done. cbn [Re.m_text]. rewrite Hj.
  cbn [py_iter]. change (mbind ?f (Ok ?a)) with (f a). cbv beta.
  by rewrite kept_suggestions_dicts.
Qed.

Lemma improvement_suggestions_answered_witness :
  let issue :=
    {| issue_type := py "服务问题"; description := py "回复慢";
       severity := IssueSeverity.MEDIUM; location := None;
       suggestion := None; evidence := None |} in
  @generate_improvement_suggestions Demo.runtime
    (Demo.llm (py "建议如下：" ++ 0x5B%N
               :: Demo.json "{'issue': '回复慢', 'suggestion': '及时回复'}, {'issue': '其他', 'suggestion': ''}, {'issue': '无'}"
               ++ 0x5D%N :: py "。"))
    [issue]
  = [PStr (py "及时回复")].
Proof.
  intros issue.
  rewrite (@improvement_suggestions_answered Demo.runtime _ [issue]
             (py "建议如下：")
             (Demo.json "{'issue': '回复慢', 'suggestion': '及时回复'}, {'issue': '其他', 'suggestion': ''}, {'issue': '无'}")
             (py "。")
             [[(py "issue", PStr (py "回复慢"));
               (py "suggestion", PStr (py "及时回复"))];
              [(py "issue", PStr (py "其他")); (py "suggestion", PStr [])];
              [(py "issue", PStr (py "无"))]]).
  - vm_compute. reflexivity.
  - done.
  - not_in_list.
  - not_in_list.
  - vm_compute. reflexivity.
  - vm_compute. reflexivity.
Defined.

Lemma parsed_issues_no_suggestion response sid :
  Forall (fun i => suggestion i = None)
         (issues (_parse_inspection_response response sid)).
Proof. rewrite parse_inspection_issues. by apply Forall_map, Forall_true. Qed.

(** X8 (generate_improvement_suggestions): when the model raises, or its
    array holds something that is not an object, the suggestions are the
    non-empty suggestions the issues carry themselves; for the issues of
    a parsed inspection answer, which carry none, that is the empty
    list. *)
Theorem improvement_suggestions_fallback `{Runtime} `{LLMClient}
    (found : list QualityIssue) :
  found ≠ [] →
  (∀ e, generate_text (suggestions_prompt found) = Raise e →
        generate_improvement_suggestions found = own_suggestions found)
  ∧ (∀ response results v,
       generate_text (suggestions_prompt found) = Ok response →
       _parse_json_array_response response = PList results →
       v ∈ results → (∀ items, v ≠ PDict items) →
       generate_improvement_suggestions found = own_suggestions found)
  ∧ (∀ response sid,
       found = issues (_parse_inspection_response response sid) →
       own_suggestions found = []).
Proof.
  intros Hi. destruct found as [|i found]; [done|].
  split; [|split].
  - intros e Hg. unfold generate_improvement_suggestions. by rewrite Hg.
  - intros response results v Hg Hr Hv Hnd.
    unfold generate_improvement_suggestions. rewrite Hg.
    change (mbind ?f (Ok ?a)) with (f a). cbv beta. rewrite Hr.
    cbn [py_iter]. change (mbind ?f (Ok ?a)) with (f a). cbv beta.
    by destruct (kept_suggestions_not_dict results v Hv Hnd) as [e' ->].
  - intros response sid ->. apply own_suggestions_none.
    apply parsed_issues_no_suggestion.
Qed.

Lemma improvement_suggestions_fallback_witness :
  let found :=
    issues (_parse_inspection_response (py "1. 回复慢的问题 2. 轻微不足") PNone) in
  length found = 2%nat
  ∧ @generate_improvement_suggestions Demo.runtime (Demo.llm_down (py "超时"))
      found = [].
Proof.
  intros found. split; [vm_compute; reflexivity|].
  assert (found ≠ []) as Hne by (vm_compute; discriminate).
  pose proof (@improvement_suggestions_fallback Demo.runtime
                (Demo.llm_down (py "超时")) found Hne) as (Hraise & _ & Hnone).
  rewrite (Hraise (ServiceError (py "超时"))) by reflexivity.
  by apply (Hnone (py "1. 回复慢的问题 2. 轻微不足") PNone).
Defined.

(** X9 (batch_inspect): a batch gives one report per conversation, in
    order and with the session identifier of its conversation, also when
    the model fails on some of them; and when the model raises on every
    request, every report has zero scores, no issue and a summary that
    reports the failure. *)
Theorem batch_inspect_aligned `{Runtime} `{LLMClient}
    (conversations : list ParsedConversation) :
  batch_inspect conversations = map inspect_conversation conversations
  ∧ length (batch_inspect conversations) = length conversations
  ∧ map r_session_id (batch_inspect conversations)
    = map session_id conversations
  ∧ (∀ more,
       batch_inspect (conversations ++ more)
       = batch_inspect conversations ++ batch_inspect more)
  ∧ ((∀ prompt, ∃ e, generate_text prompt = Raise e) →
     Forall (fun r =>
               (∀ key, report_score r key = 0%Q) ∧ issues r = []
               ∧ ∃ e, summary r = Some (py "质检失败: " ++ exn_str e))
            (batch_inspect conversations)).
Proof.
  assert (∀ cs, batch_inspect cs = map inspect_conversation cs) as Hmap.
  { intros cs. unfold batch_inspect. by rewrite batch_inspect_fold. }
  split; [done|]. rewrite !Hmap. split; [by rewrite length_map|].
  split; [|split].
  - rewrite <- list_fmap_compose. apply list_fmap_ext.
    intros _ c _. apply inspect_conversation_session.
  - intros more. by rewrite !Hmap, map_app.
  - intros Hdown. apply Forall_map, Forall_forall. intros c _.
    destruct (Hdown (PromptTemplates.QUALITY_INSPECT
                       (_format_conversation c))) as [e He].
    rewrite (inspect_conversation_raised c e He).
    split; [intros []; reflexivity|]. split; [reflexivity|].
    exists e. reflexivity.
Qed.

Lemma batch_inspect_aligned_witness :
  let conversation sid :=
    {| session_id := PStr (py sid); participants := [];
       turns := [text_turn (py "客户") (py "您好")]; metadata := ∅ |} in
  Forall (fun r => overall_score r = 0%Q ∧ issues r = [])
         (@batch_inspect Demo.runtime (Demo.llm_down (py "超时"))
            [conversation "a"%string; conversation "b"%string]).
Proof.
  intros conversation.
  eapply Forall_impl.
  - apply (@batch_inspect_aligned Demo.runtime (Demo.llm_down (py "超时"))).
    intros prompt. by exists (ServiceError (py "超时")).
  - intros r (Hs & Hi & _). split; [apply (Hs overall)|done].
Defined.

(* ===================================================================== *)
(** ** Recommendations and the table of frequent issues *)
(* ===================================================================== *)














(* ===================================================================== *)
(** ** The review workflow as a whole *)
(* ===================================================================== *)

Section lifecycle_facts.
Context `{Runtime}.

Lemma approve_pending now review_id approver comments wf rv :
  pending_reviews wf !! review_id = Some rv →
  approve_report now review_id approver comments wf
  = (true,
     {| pending_reviews := delete review_id (pending_reviews wf);
        completed_reviews :=
          <[ review_id :=
               {| rv_report := rv_report rv;
                  rv_reviewer := rv_reviewer rv;
                  rv_submitted_at := rv_submitted_at rv;
                  rv_status := py "approved";
                  rv_approved_by := Some approver;
                  rv_approved_at := Some now;
                  rv_comments := Some comments;
                  rv_rejected_by := rv_rejected_by rv;
                  rv_rejected_at := rv_rejected_at rv;
                  rv_reasons := rv_reasons rv |} ]> (completed_reviews wf) |}).
Proof. intros Hrv. unfold approve_report. by rewrite Hrv. Qed.

Lemma reject_pending now review_id rejector reasons wf rv :
  pending_reviews wf !! review_id = Some rv →
  reject_report now review_id rejector reasons wf
  = (true,
     {| pending_reviews := delete review_id (pending_reviews wf);
        completed_reviews :=
          <[ review_id :=
               {| rv_report := rv_report rv;
                  rv_reviewer := rv_reviewer rv;
                  rv_submitted_at := rv_submitted_at rv;
                  rv_status := py "rejected";
                  rv_approved_by := rv_approved_by rv;
                  rv_approved_at := rv_approved_at rv;
                  rv_comments := rv_comments rv;
                  rv_rejected_by := Some rejector;
                  rv_rejected_at := Some now;
                  rv_reasons := Some reasons |} ]> (completed_reviews wf) |}).
Proof. intros Hrv. unfold reject_report. by rewrite Hrv. Qed.

Lemma workflow_ok_submit now now' report reviewer wf :
  workflow_ok wf →
  workflow_ok (snd (submit_for_review now now' report reviewer wf)).
Proof.
  intros [Hp Hc]. split; [|done]. cbn [snd submit_for_review pending_reviews].
  apply map_Forall_insert_2; [|done]. by repeat split.
Qed.

Lemma workflow_ok_approve now review_id approver comments wf :
  workflow_ok wf →
  workflow_ok (snd (approve_report now review_id approver comments wf)).
Proof.
  intros [Hp Hc].
  destruct (pending_reviews wf !! review_id) as [rv|] eqn:Hrv.
  - rewrite (approve_pending _ _ _ _ _ rv Hrv). split; cbn.
    + by apply map_Forall_delete.
    + apply map_Forall_insert_2; [|done]. left. by repeat split.
  - by rewrite approve_unknown.
Qed.

Lemma workflow_ok_reject now review_id rejector reasons wf :
  workflow_ok wf →
  workflow_ok (snd (reject_report now review_id rejector reasons wf)).
Proof.
  intros [Hp Hc].
  destruct (pending_reviews wf !! review_id) as [rv|] eqn:Hrv.
  - rewrite (reject_pending _ _ _ _ _ rv Hrv). split; cbn.
    + by apply map_Forall_delete.
    + apply map_Forall_insert_2; [|done]. right. by repeat split.
  - by rewrite reject_unknown.
Qed.

End lifecycle_facts.

(** X12 (submit_for_review, approve_report, reject_report): the workflow
    keeps its records well formed. From the empty workflow on, every
    pending record has the status [pending] and no approver or rejector,
    and every completed record is approved or rejected, with the person
    and the time recorded; each of the three operations preserves this,
    whether it succeeds or not. *)
Theorem workflow_records_well_formed `{Runtime} :
  workflow_ok ReviewWorkflow_init
  ∧ (∀ now now' report reviewer wf,
       workflow_ok wf →
       workflow_ok (snd (submit_for_review now now' report reviewer wf)))
  ∧ (∀ now review_id approver comments wf,
       workflow_ok wf →
       workflow_ok (snd (approve_report now review_id approver comments wf)))
  ∧ (∀ now review_id rejector reasons wf,
       workflow_ok wf →
       workflow_ok (snd (reject_report now review_id rejector reasons wf))).
Proof.
  split; [split; apply map_Forall_empty|].
  split; [apply @workflow_ok_submit|].
  split; [apply @workflow_ok_approve|apply @workflow_ok_reject].
Qed.

Lemma workflow_records_well_formed_witness :
  let id := py "review_s1_20240115120000" in
  let wf1 := snd (@submit_for_review Demo.runtime Demo.noon Demo.noon
                    (Demo.report "s1" 85) (py "alice") ReviewWorkflow_init) in
  workflow_ok (snd (reject_report Demo.noon id (py "bob") [py "分数偏高"] wf1)).
Proof.
  intros id wf1.
  apply (proj2 (proj2 (proj2 (@workflow_records_well_formed Demo.runtime)))).
  apply (proj1 (proj2 (@workflow_records_well_formed Demo.runtime))).
  apply (proj1 (@workflow_records_well_formed Demo.runtime)).
Defined.

(** X13 (submit_for_review, approve_report, reject_report): a submitted
    report can be decided once. Approving (rejecting) it right after the
    submission succeeds and files a record with the report, the reviewer
    and the submission time it was submitted with, the new status, and the
    approver with time and comments (the rejector with time and reasons);
    the pending reviews are those from before the submission, less this
    identifier. *)
Theorem review_lifecycle `{Runtime} (now now' t : datetime)
    (report : InspectionReport) (reviewer who : str) (wf : ReviewWorkflow) :
  let review_id := make_review_id report now in
  let wf1 := snd (submit_for_review now now' report reviewer wf) in
  (∀ comments,
     approve_report t review_id who comments wf1
     = (true,
        {| pending_reviews := delete review_id (pending_reviews wf);
           completed_reviews :=
             <[ review_id :=
                  {| rv_report := report;
                     rv_reviewer := reviewer;
                     rv_submitted_at := now';
                     rv_status := py "approved";
                     rv_approved_by := Some who;
                     rv_approved_at := Some t;
                     rv_comments := Some comments;
                     rv_rejected_by := None;
                     rv_rejected_at := None;
                     rv_reasons := None |} ]> (completed_reviews wf) |}))
  ∧ (∀ reasons,
       reject_report t review_id who reasons wf1
       = (true,
          {| pending_reviews := delete review_id (pending_reviews wf);
             completed_reviews :=
               <[ review_id :=
                    {| rv_report := report;
                       rv_reviewer := reviewer;
                       rv_submitted_at := now';
                       rv_status := py "rejected";
                       rv_approved_by := None;
                       rv_approved_at := None;
                       rv_comments := None;
                       rv_rejected_by := Some who;
                       rv_rejected_at := Some t;
                       rv_reasons := Some reasons |} ]>
                 (completed_reviews wf) |})).
Proof.
  intros review_id wf1. subst wf1. cbn [snd submit_for_review].
  fold review_id. split.
  - intros comments. erewrite approve_pending.
    2: { cbn [pending_reviews]. apply lookup_insert_eq. }
    cbn. by rewrite delete_insert_eq.
  - intros reasons. erewrite reject_pending.
    2: { cbn [pending_reviews]. apply lookup_insert_eq. }
    cbn. by rewrite delete_insert_eq.
Qed.

(** X14 (get_pending_reviews): the list of pending reviews has one entry
    for every pending review and no other, carrying its identifier, the
    session and score of its report, its reviewer and the submission time
    in ISO format; a submitted report is listed, and a review that was
    approved or rejected is no longer. *)
Theorem pending_reviews_listed `{Runtime} (wf : ReviewWorkflow) :
  (∀ e, e ∈ get_pending_reviews wf
        ↔ (∃ rv, pending_reviews wf !! pe_review_id e = Some rv
                 ∧ e = pending_entry_of (pe_review_id e) rv))
  ∧ NoDup (map pe_review_id (get_pending_reviews wf))
  ∧ length (get_pending_reviews wf) = size (pending_reviews wf)
  ∧ (∀ now now' report reviewer,
       {| pe_review_id := make_review_id report now;
          pe_session_id := r_session_id report;
          pe_score := overall_score report;
          pe_reviewer := reviewer;
          pe_submitted_at := isoformat now' |}
       ∈ get_pending_reviews
           (snd (submit_for_review now now' report reviewer wf)))
  ∧ (∀ now review_id who comments reasons wf',
       approve_report now review_id who comments wf = (true, wf')
       ∨ reject_report now review_id who reasons wf = (true, wf') →
       (review_id ∉ map pe_review_id (get_pending_reviews wf'))
       ∧ S (length (get_pending_reviews wf'))
         = length (get_pending_reviews wf)).
Proof.
  assert (∀ w e, e ∈ get_pending_reviews w
                 ↔ (∃ rv, pending_reviews w !! pe_review_id e = Some rv
                          ∧ e = pending_entry_of (pe_review_id e) rv))
    as Helem.
  { intros w e. unfold get_pending_reviews. rewrite list_elem_of_fmap. split.
    - intros ([k rv] & -> & Hin). apply elem_of_map_to_list in Hin.
      by exists rv.
    - intros (rv & Hrv & He). exists (pe_review_id e, rv).
      split; [done|]. by apply elem_of_map_to_list. }
  assert (∀ w, map pe_review_id (get_pending_reviews w)
               = (map_to_list (pending_reviews w)).*1) as Hids.
  { intros w. unfold get_pending_reviews. rewrite map_map.
    by apply map_ext. }
  assert (∀ w, length (get_pending_reviews w) = size (pending_reviews w))
    as Hlen.
  { intros w. unfold get_pending_reviews.
    by rewrite length_map, length_map_to_list. }
  assert (∀ w id, (id ∈ map pe_review_id (get_pending_reviews w))
                  → is_Some (pending_reviews w !! id)) as Hlisted.
  { intros w id. rewrite Hids. intros ([k rv] & -> & Hin)%list_elem_of_fmap.
    apply elem_of_map_to_list in Hin. by exists rv. }
  split; [apply Helem|]. split; [|split; [apply Hlen|split]].
  - rewrite Hids. apply NoDup_fst_map_to_list.
  - intros now now' report reviewer. apply Helem.
    eexists. split; [apply lookup_insert_eq|done].
  - intros now review_id who comments reasons wf' Hdone.
    assert (is_Some (pending_reviews wf !! review_id)
            ∧ pending_reviews wf' = delete review_id (pending_reviews wf))
      as [Hsome Hdel].
    { destruct Hdone as [Hd|Hd];
        [apply approve_success in Hd|apply reject_success in Hd];
        by destruct Hd as (? & ? & _). }
    split.
    + intros Hin%Hlisted. rewrite Hdel, lookup_delete_eq in Hin.
      by destruct Hin.
    + rewrite !Hlen, Hdel. destruct Hsome as [rv Hrv].
      rewrite map_size_delete, Hrv.
      assert (size (pending_reviews wf) ≠ 0%nat); [|lia].
      intros Hz%map_size_empty_iff. by rewrite Hz in Hrv.
Qed.

Lemma pending_reviews_listed_witness :
  let id := py "review_s1_20240115120000" in
  let wf1 := snd (@submit_for_review Demo.runtime Demo.noon Demo.noon
                    (Demo.report "s1" 85) (py "alice") ReviewWorkflow_init) in
  let wf2 := snd (approve_report Demo.noon id (py "bob") None wf1) in
  map pe_submitted_at (get_pending_reviews wf1) = [py "2024-01-15T12:00:00"]
  ∧ (id ∉ map pe_review_id (get_pending_reviews wf2)).
Proof.
  intros id wf1 wf2. split; [vm_compute; reflexivity|].
  apply (proj2 (proj2 (proj2 (proj2 (@pending_reviews_listed Demo.runtime wf1))))
           Demo.noon id (py "bob") None [] wf2).
  left. vm_compute. reflexivity.
Defined.

(* ===================================================================== *)
(** ** Parsing text *)
(* ===================================================================== *)

Lemma set_add_str a seen :
  set_add (PStr a) (map PStr seen)
  = map PStr (if existsb (str_eqb a) seen then seen else seen ++ [a]).
Proof.
  induction seen as [|b seen IH]; [done|].
  cbn [map set_add key_eqb existsb].
  destruct (str_eqb a b); [done|]. cbn [orb]. rewrite IH.
  by destruct (existsb (str_eqb a) seen).
Qed.

Lemma list_of_set_fold names seen :
  fold_left (fun acc v =>
               seen ← acc;
               if hashable v then Ok (set_add v seen)
               else Raise (TypeError_unhashable v))
            (map PStr names) (Ok (map PStr seen))
  = Ok (map PStr
          (fold_left (fun seen k => if existsb (str_eqb k) seen then seen
                                    else seen ++ [k]) names seen)).
Proof.
  revert seen. induction names as [|a names IH]; intros seen; [done|].
  cbn [map fold_left]. change (mbind ?f (Ok ?a)) with (f a). cbv beta.
  cbn [hashable]. rewrite set_add_str. apply IH.
Qed.

Lemma list_of_set_strs names :
  list_of_set (map PStr names) = Ok (map PStr (first_seen names)).
Proof. apply (list_of_set_fold names []). Qed.

Section text_facts.
Context `{Runtime}.

Lemma spoken_nil : spoken [].
Proof. by exists []. Qed.

Lemma spoken_snoc turns s c : spoken turns → spoken (turns ++ [text_turn s c]).
Proof.
  intros [names Hn]. exists (names ++ [s]). by rewrite !map_app, Hn.
Qed.

Lemma turn_of_match_spoken turns m :
  spoken turns → spoken (turn_of_match turns m).
Proof.
  intros Ht. unfold turn_of_match. destruct (2 <=? length m)%nat; [|done].
  destruct (strip (List.last m [])); [done|]. by apply spoken_snoc.
Qed.

Lemma pattern_turns_spoken ps conversation :
  spoken (pattern_turns ps conversation).
Proof.
  induction ps as [|[r n] ps IH]; [apply spoken_nil|].
  cbn [pattern_turns].
  destruct (Re.findall n r conversation) as [|m ms]; [done|].
  generalize (m :: ms) as l. intros l.
  assert (∀ acc, spoken acc → spoken (fold_left turn_of_match l acc)) as Hf.
  { induction l as [|x l IHl]; intros acc Hacc; [done|].
    cbn [fold_left]. by apply IHl, turn_of_match_spoken. }
  apply Hf, spoken_nil.
Qed.

Lemma scan_line_spoken st line :
  spoken st.1.1 → spoken (scan_line st line).1.1.
Proof.
  destruct st as [[turns sp] ct]. cbn [fst]. intros Ht.
  unfold scan_line. destruct (strip line) as [|x l]; [done|].
  destruct (contains (py ":") (x :: l)); [|done].
  destruct ct; cbn [fst]; [done|]. by apply spoken_snoc.
Qed.

Lemma scan_lines_spoken conversation : spoken (scan_lines conversation).
Proof.
  unfold scan_lines.
  assert (∀ ls st, spoken st.1.1 → spoken (fold_left scan_line ls st).1.1)
    as Hf.
  { induction ls as [|x ls IH]; intros st Hst; [done|].
    cbn [fold_left]. by apply IH, scan_line_spoken. }
  specialize (Hf (split_char 10 conversation) ([], py "未知", [])
                 spoken_nil).
  destruct (fold_left _ _ _) as [[turns sp] ct]. cbn [fst] in Hf.
  destruct ct; [done|]. by apply spoken_snoc.
Qed.

Lemma extract_dialogue_turns_spoken conversation :
  spoken (extract_dialogue_turns conversation).
Proof.
  unfold extract_dialogue_turns.
  pose proof (pattern_turns_spoken patterns conversation) as Hp.
  destruct (pattern_turns patterns conversation); [|done].
  apply scan_lines_spoken.
Qed.

End text_facts.

(** X15 (parse_conversation, _parse_text): a text that encodes as UTF-8 is
    always parsed: the session identifier is the first twelve characters
    of the MD5 digest of the encoded text, the turns are those
    [extract_dialogue_turns] finds, the participants are their speakers,
    each listed once, and the metadata records the format [text]. A text
    with a lone surrogate cannot be encoded and gives a parse error. *)
Theorem text_parse_result `{Runtime} (raw_content format_type : str) :
  format_type ≠ py "json" →
  (existsb is_surrogate raw_content = false →
   ∃ people,
     parse_conversation raw_content format_type
     = Ok {| session_id :=
               PStr (take 12 (md5_hexdigest
                                (flat_map utf8_encode_char raw_content)));
             participants := people;
             turns := extract_dialogue_turns raw_content;
             metadata := {[ py "format" := PStr (py "text") ]} |}
     ∧ NoDup people
     ∧ ∀ p, p ∈ people
            ↔ p ∈ map speaker (extract_dialogue_turns raw_content))
  ∧ (existsb is_surrogate raw_content = true →
     parse_conversation raw_content format_type
     = Ok (parse_error (exn_str (UnicodeEncodeError raw_content)))).
Proof.
  intros Hfmt. unfold parse_conversation. rewrite str_eqb_neq by done.
  unfold _parse_text.
  destruct (extract_dialogue_turns_spoken raw_content) as [names Hn].
  rewrite Hn, list_of_set_strs.
  change (mbind ?f (Ok ?a)) with (f a). cbv beta.
  unfold str_encode. split; intros ->.
  - change (mbind ?f (Ok ?a)) with (f a). cbv beta.
    eexists. split; [reflexivity|]. split.
    + assert (Inj eq eq PStr) as Hinj by (by intros a b [= ->]).
      apply (NoDup_fmap_2 PStr). apply first_seen_NoDup.
    + intros p. change (map PStr ?l) with (PStr <$> l).
      rewrite !list_elem_of_fmap. by setoid_rewrite first_seen_elem.
  - reflexivity.
Qed.

Lemma text_parse_result_witness :
  let raw := py "客户: 您好
客服: 您好
客户: 再见" in
  ∃ people,
    @parse_conversation Demo.runtime raw (py "text")
    = Ok {| session_id :=
              PStr (take 12 (@md5_hexdigest Demo.runtime
                              (flat_map utf8_encode_char raw)));
            participants := people;
            turns := @extract_dialogue_turns Demo.runtime raw;
            metadata := {[ py "format" := PStr (py "text") ]} |}
    ∧ NoDup people
    ∧ ∀ p, p ∈ people
           ↔ p ∈ map speaker (@extract_dialogue_turns Demo.runtime raw).
Proof.
  intros raw.
  apply (proj1 (@text_parse_result Demo.runtime raw (py "text")
                  ltac:(vm_compute; discriminate))).
  vm_compute. reflexivity.
Defined.

(* ===================================================================== *)
(** ** Text without speaker markers *)
(* ===================================================================== *)

Section unmarked_facts.
Import Re.

Lemma mt_suffix r :
  ∀ R s c (k : str → caps → option R) x,
    mt r s c k = Some x → ∃ s' c', s' `suffix_of` s ∧ k s' c' = Some x.
Proof.
  induction r as [|p|r1 IH1 r2 IH2|r1 IH1 r2 IH2|g r IH|i r IH|r IH| |];
    intros R s c k x Hm.
  - by exists s, c.
  - cbn [mt] in Hm. destruct s as [|y s]; [done|]. destruct (p y); [|done].
    exists s, c. split; [by apply suffix_cons_r|done].
  - cbn [mt] in Hm. destruct (IH1 _ _ _ _ _ Hm) as (s1 & c1 & Hs1 & Hm1).
    destruct (IH2 _ _ _ _ _ Hm1) as (s2 & c2 & Hs2 & Hm2).
    exists s2, c2. split; [by etrans|done].
  - cbn [mt] in Hm. apply orelse_Some in Hm as [Hm|Hm];
      [by apply (IH1 _ _ _ _ _ Hm)|by apply (IH2 _ _ _ _ _ Hm)].
  - change (mt (Star g r) s c k)
      with (star_loop g (fun s0 c0 k' => mt r s0 c0 k') k (S (length s)) s c)
      in Hm.
    remember (S (length s)) as n eqn:Hn. clear Hn. revert s c Hm.
    induction n as [|n IHn]; intros s c Hm; cbn [star_loop] in Hm.
    { by exists s, c. }
    assert (k s c = Some x
            ∨ mt r s c (fun s' c' =>
                 if (length s' <? length s)%nat
                 then star_loop g (fun s0 c0 k' => mt r s0 c0 k') k n s' c'
                 else None) = Some x) as [Hk|Hmore].
    { destruct g; apply orelse_Some in Hm; tauto. }
    { by exists s, c. }
    destruct (IH _ _ _ _ _ Hmore) as (s1 & c1 & Hs1 & Hm1).
    destruct (length s1 <? length s)%nat; [|done].
    destruct (IHn _ _ Hm1) as (s2 & c2 & Hs2 & Hm2).
    exists s2, c2. split; [by etrans|done].
  - cbn [mt] in Hm. destruct (IH _ _ _ _ _ Hm) as (s1 & c1 & Hs1 & Hm1).
    by eexists _, _.
  - cbn [mt] in Hm.
    destruct (mt r s c (fun _ c' => Some c')) as [c1|]; [|done].
    by exists s, c1.
  - cbn [mt] in Hm. destruct (at_eos s); [|done]. by exists s, c.
  - cbn [mt] in Hm. destruct (at_eol s); [|done]. by exists s, c.
Qed.

Lemma mt_needs_class {R} r p rest s c (k : str → caps → option R) x :
  mt (Seq r (Seq (Chr p) rest)) s c k = Some x → ∃ y, y ∈ s ∧ p y = true.
Proof.
  cbn [mt]. intros Hm0.
  destruct (mt_suffix _ _ _ _ _ _ Hm0) as (s' & c' & [pre ->] & Hm).
  cbn [mt] in Hm.
  destruct s' as [|y s']; [done|]. destruct (p y) eqn:Hp; [|done].
  exists y. split; [|done]. apply elem_of_app. right. by left.
Qed.

Lemma search_from_none r pre s :
  (∀ t, t `suffix_of` s → match_here r t = None) → search_from r pre s = None.
Proof.
  revert pre. induction s as [|y s IH]; intros pre Hs.
  - cbn [search_from]. by rewrite Hs.
  - cbn [search_from]. rewrite Hs by done. apply IH.
    intros t Ht. apply Hs. by apply suffix_cons_r.
Qed.

Lemma findall_none n r s :
  (∀ t, t `suffix_of` s → match_here r t = None) → findall n r s = [].
Proof.
  intros Hs. unfold findall, matches. cbn [matches_fuel]. unfold search.
  by rewrite search_from_none.
Qed.

Lemma not_matched r s :
  (∀ t x, t `suffix_of` s → match_here r t ≠ Some x) →
  ∀ t, t `suffix_of` s → match_here r t = None.
Proof.
  intros Hs t Ht. destruct (match_here r t) as [x|] eqn:Hm; [|done].
  by destruct (Hs t x Ht).
Qed.

Context `{Runtime}.

Lemma pattern_turns_unmarked conversation :
  (∀ c, c ∈ conversation → c ∉ py "：:[（(") →
  pattern_turns patterns conversation = [].
Proof.
  intros Hfree.
  assert (∀ t y cs, t `suffix_of` conversation → y ∈ t → oneof cs y = true →
                    (∀ z, z ∈ cs → z ∈ py "：:[（(") → False) as Hno.
  { intros t y cs [pre ->] Hy Hcs Hsub. apply oneof_elem in Hcs.
    apply (Hfree y); [|by apply Hsub]. apply elem_of_app. by right. }
  unfold patterns. cbn [pattern_turns].
  rewrite findall_none; [rewrite findall_none; [rewrite findall_none|]|];
    [done|..]; apply not_matched; intros t x Ht Hm.
  - unfold match_here, pattern3, Seqs in Hm. cbn [fold_right] in Hm.
    apply mt_needs_class in Hm as (y & Hy & Hp).
    apply (Hno t y _ Ht Hy Hp). intros z Hz. vm_compute in Hz |- *.
    repeat (apply elem_of_cons in Hz as [->|Hz]; [in_list|]).
    by apply elem_of_nil in Hz.
  - unfold match_here, pattern2, Seqs in Hm. cbn [fold_right mt] in Hm.
    destruct t as [|y t]; [done|]. unfold One in Hm. cbn [mt] in Hm.
    destruct (N.eqb_spec 0x5B y) as [<-|]; [|done].
    destruct Ht as [pre ->].
    apply (Hfree 0x5B%N); [apply elem_of_app; right; by left|].
    vm_compute. in_list.
  - unfold match_here, pattern1, Seqs in Hm. cbn [fold_right] in Hm.
    apply mt_needs_class in Hm as (y & Hy & Hp).
    apply (Hno t y _ Ht Hy Hp). intros z Hz. vm_compute in Hz |- *.
    repeat (apply elem_of_cons in Hz as [->|Hz]; [in_list|]).
    by apply elem_of_nil in Hz.
Qed.

Lemma split_char_elem sep s :
  Forall (fun piece => ∀ c, c ∈ piece → c ∈ s) (split_char sep s).
Proof.
  induction s as [|x s IH].
  - constructor; [done|constructor].
  - cbn [split_char]. destruct (x =? sep)%N.
    + constructor; [by intros c ?%elem_of_nil|].
      eapply Forall_impl; [exact IH|]. intros piece Hp c Hc. right. by apply Hp.
    + destruct (split_char sep s) as [|piece rest]; [|inversion IH; subst].
      * constructor; [|constructor].
        intros c [->|?%elem_of_nil]%elem_of_cons; [|done]. by left.
      * constructor.
        -- intros c [->|Hc]%elem_of_cons; [by left|right; auto].
        -- eapply Forall_impl; [eassumption|]. intros p Hp c Hc. right. by apply Hp.
Qed.

Lemma scan_line_plain turns sp ct line :
  0x3A%N ∉ line →
  scan_line (turns, sp, ct) line
  = (turns, sp, ct ++ match strip line with [] => [] | l => [l] end).
Proof.
  intros Hline. unfold scan_line.
  destruct (strip line) as [|x l] eqn:Hs; [by rewrite app_nil_r|].
  rewrite <- Hs.
  replace (contains (py ":") (strip line)) with false; [done|].
  symmetry. change (py ":") with [0x3A%N].
  rewrite contains_single_strip by done.
  apply not_true_is_false. by intros ?%contains_single_elem.
Qed.

Lemma scan_fold_plain lines turns sp ct :
  Forall (fun line => 0x3A%N ∉ line) lines →
  fold_left scan_line lines (turns, sp, ct)
  = (turns, sp,
     ct ++ List.filter (fun l => match l with [] => false | _ :: _ => true end)
             (map strip lines)).
Proof.
  intros Hl. revert ct. induction Hl as [|line lines Hline _ IH]; intros ct.
  - by rewrite app_nil_r.
  - cbn [fold_left map List.filter]. rewrite scan_line_plain by done.
    rewrite IH, <- app_assoc. by destruct (strip line).
Qed.

Lemma scan_lines_plain conversation :
  0x3A%N ∉ conversation →
  scan_lines conversation
  = match stripped_lines conversation with
    | [] => []
    | ls => [text_turn (py "未知") (join (py " ") ls)]
    end.
Proof.
  intros Hc. unfold scan_lines. rewrite scan_fold_plain.
  - cbn [app]. fold (stripped_lines conversation).
    by destruct (stripped_lines conversation).
  - eapply Forall_impl; [apply split_char_elem|].
    intros piece Hp Hin. by apply Hc, Hp.
Qed.

End unmarked_facts.

(** X16 (extract_dialogue_turns): a text that holds none of the characters
    the three patterns and the line scanner look for ([：], [:], the
    opening bracket and the two opening parentheses) becomes at most one
    turn: none when every line is blank, otherwise one turn by the speaker
    [未知] whose content is the stripped non-blank lines joined by single
    spaces. *)
Theorem unmarked_text_single_turn `{Runtime} (conversation : str) :
  (∀ c, c ∈ conversation → c ∉ py "：:[（(") →
  pattern_turns patterns conversation = []
  ∧ extract_dialogue_turns conversation
    = match stripped_lines conversation with
      | [] => []
      | ls => [text_turn (py "未知") (join (py " ") ls)]
      end.
Proof.
  intros Hfree. pose proof (pattern_turns_unmarked conversation Hfree) as Hp.
  split; [done|]. unfold extract_dialogue_turns. rewrite Hp.
  apply scan_lines_plain. intros Hin. apply (Hfree _ Hin).
  vm_compute. in_list.
Qed.

Lemma unmarked_text_single_turn_witness :
  @extract_dialogue_turns Demo.runtime (py "  您好，我想咨询一下

订单什么时候发货  ")
  = [text_turn (py "未知") (py "您好，我想咨询一下 订单什么时候发货")].
Proof.
  set (conversation := py "  您好，我想咨询一下

订单什么时候发货  ").
  assert (∀ c, c ∈ conversation → c ∉ py "：:[（(") as Hfree.
  { intros c Hc. vm_compute in Hc.
    repeat (apply elem_of_cons in Hc as [->|Hc]; [not_in_list|]).
    by apply elem_of_nil in Hc. }
  rewrite (proj2 (@unmarked_text_single_turn Demo.runtime conversation Hfree)).
  vm_compute. reflexivity.
Defined.

(* ===================================================================== *)
(** ** Formatting a conversation and reading it back *)
(* ===================================================================== *)

Lemma lstrip_app_nonspace x c y :
  isspace c = false → lstrip (x ++ c :: y) = lstrip x ++ c :: y.
Proof.
  intros Hc. induction x as [|a x IH]; cbn [app lstrip].
  - by rewrite Hc.
  - by destruct (isspace a).
Qed.

Lemma rstrip_app_nonspace x c y :
  isspace c = false → rstrip (x ++ c :: y) = x ++ c :: rstrip y.
Proof.
  intros Hc. unfold rstrip. rewrite rev_app_distr. cbn [rev].
  rewrite <- app_assoc. cbn [app]. rewrite lstrip_app_nonspace by done.
  rewrite rev_app_distr. cbn [rev]. rewrite rev_involutive.
  by rewrite <- app_assoc.
Qed.

Lemma lstrip_length s : (length (lstrip s) <= length s)%nat.
Proof.
  induction s as [|c s IH]; [done|]. cbn [lstrip].
  destruct (isspace c); simpl; lia.
Qed.

Lemma lstrip_same_length s : length (lstrip s) = length s → lstrip s = s.
Proof.
  destruct s as [|c s]; [done|]. cbn [lstrip]. destruct (isspace c); [|done].
  pose proof (lstrip_length s). simpl. lia.
Qed.

Lemma rstrip_length s : (length (rstrip s) <= length s)%nat.
Proof.
  unfold rstrip. rewrite length_rev.
  etrans; [apply lstrip_length|]. by rewrite length_rev.
Qed.

Lemma rstrip_same_length s : length (rstrip s) = length s → rstrip s = s.
Proof.
  unfold rstrip. rewrite length_rev. intros Hl.
  rewrite lstrip_same_length; [apply rev_involutive|by rewrite length_rev].
Qed.

Lemma strip_fixed s : strip s = s → lstrip s = s ∧ rstrip s = s.
Proof.
  unfold strip. intros Hs.
  assert (lstrip s = s) as Hl.
  { apply lstrip_same_length. apply (f_equal length) in Hs.
    pose proof (rstrip_length (lstrip s)). pose proof (lstrip_length s). lia. }
  split; [done|]. by rewrite Hl in Hs.
Qed.

Lemma lstrip_head s :
  match lstrip s with [] => True | c :: _ => isspace c = false end.
Proof.
  induction s as [|c s IH]; [done|]. cbn [lstrip].
  by destruct (isspace c) eqn:Hc.
Qed.

Lemma fixed_head c s : lstrip (c :: s) = c :: s → isspace c = false.
Proof. intros Hs. pose proof (lstrip_head (c :: s)) as Hh. by rewrite Hs in Hh. Qed.

Lemma lstrip_fixed_app s y : s ≠ [] → lstrip s = s → lstrip (s ++ y) = s ++ y.
Proof.
  destruct s as [|c s]; [done|]. intros _ Hs.
  apply fixed_head in Hs. cbn [app lstrip]. by rewrite Hs.
Qed.

Lemma rstrip_fixed_app x s : s ≠ [] → rstrip s = s → rstrip (x ++ s) = x ++ s.
Proof.
  intros Hne Hs. unfold rstrip in *. rewrite rev_app_distr.
  apply (f_equal (@rev N)) in Hs. rewrite rev_involutive in Hs.
  rewrite lstrip_fixed_app; [by rewrite <- rev_app_distr, rev_involutive| |done].
  intros Hr. apply (f_equal (@rev N)) in Hr. by rewrite rev_involutive in Hr.
Qed.

Lemma split_once_app sep a b :
  sep ∉ a → split_once sep (a ++ sep :: b) = [a; b].
Proof.
  induction a as [|x a IH]; intros Ha.
  - cbn [app split_once]. by rewrite N.eqb_refl.
  - apply not_elem_of_cons in Ha as [Hne Ha]. cbn [app split_once].
    destruct (N.eqb_spec x sep) as [->|_]; [done|]. by rewrite IH.
Qed.

Lemma split_char_app sep a b :
  sep ∉ a → split_char sep (a ++ sep :: b) = a :: split_char sep b.
Proof.
  induction a as [|x a IH]; intros Ha.
  - cbn [app split_char]. by rewrite N.eqb_refl.
  - apply not_elem_of_cons in Ha as [Hne Ha]. cbn [app split_char].
    destruct (N.eqb_spec x sep) as [->|_]; [done|]. by rewrite IH.
Qed.

Lemma split_char_whole sep a : sep ∉ a → split_char sep a = [a].
Proof.
  induction a as [|x a IH]; intros Ha; [done|].
  apply not_elem_of_cons in Ha as [Hne Ha]. cbn [split_char].
  destruct (N.eqb_spec x sep) as [->|_]; [done|]. by rewrite IH.
Qed.

Lemma split_char_join sep lines :
  lines ≠ [] → Forall (fun line => sep ∉ line) lines →
  split_char sep (join [sep] lines) = lines.
Proof.
  intros Hne Hl. induction Hl as [|line lines Hline Hl IH]; [done|].
  destruct lines as [|line' lines].
  - cbn [join]. by apply split_char_whole.
  - change (join [sep] (line :: line' :: lines))
      with (line ++ sep :: join [sep] (line' :: lines)).
    rewrite split_char_app by done. by rewrite IH.
Qed.

Section round_trip_facts.
Context `{Runtime}.

Lemma strip_formatted sp ct :
  plain_turn (sp, ct) →
  strip (sp ++ py ": " ++ ct) = sp ++ 0x3A%N :: rstrip (0x20%N :: ct)
  ∧ strip (rstrip (0x20%N :: ct)) = ct.
Proof.
  intros (Hsp & Hct & Hcolon & _). cbn [fst snd] in *.
  apply strip_fixed in Hsp as [Hsl Hsr]. apply strip_fixed in Hct as [Hcl Hcr].
  change (py ": " ++ ct) with (0x3A%N :: 0x20%N :: ct).
  split.
  - unfold strip. rewrite lstrip_app_nonspace by done. rewrite Hsl.
    by rewrite rstrip_app_nonspace.
  - destruct ct as [|c ct]; [done|].
    change (0x20%N :: c :: ct) with ([0x20%N] ++ c :: ct).
    rewrite rstrip_fixed_app by done.
    pose proof (fixed_head c ct Hcl) as Hc.
    unfold strip. cbn [app lstrip]. change (isspace 0x20) with true. cbv iota.
    by rewrite Hc.
Qed.

Lemma scan_line_formatted st sp ct :
  plain_turn (sp, ct) →
  scan_result (scan_line st (sp ++ py ": " ++ ct))
  = scan_result st ++ [text_turn sp ct]
  ∧ ∃ turns, scan_line st (sp ++ py ": " ++ ct) = (turns, sp, [ct]).
Proof.
  intros Hok. destruct (strip_formatted sp ct Hok) as [Hline Hrest].
  destruct Hok as (Hsp & _ & Hcolon & _). cbn [fst snd] in *.
  destruct st as [[turns cur_sp] cur_ct]. unfold scan_line. rewrite Hline.
  destruct (sp ++ 0x3A%N :: rstrip (0x20%N :: ct)) as [|x l] eqn:Hl.
  { by destruct sp. }
  rewrite <- Hl.
  replace (contains (py ":") (sp ++ 0x3A%N :: rstrip (0x20%N :: ct)))
    with true.
  2: { symmetry. apply (contains_single_elem 0x3A).
       apply elem_of_app. right. by left. }
  rewrite split_once_app by done. cbn [nth length]. cbn [Nat.ltb Nat.leb].
  rewrite Hsp, Hrest.
  destruct cur_ct as [|l0 cur_ct]; cbn [scan_result app].
  - split; [done|by eexists].
  - split; [done|by eexists].
Qed.

Lemma scan_fold_formatted said st :
  Forall plain_turn said →
  scan_result
    (fold_left scan_line
       (map (fun t => fst t ++ py ": " ++ snd t) said) st)
  = scan_result st ++ map (fun t => text_turn (fst t) (snd t)) said.
Proof.
  intros Hs. revert st. induction Hs as [|[sp ct] said Ht _ IH]; intros st.
  - by rewrite app_nil_r.
  - cbn [map fold_left fst snd]. rewrite IH.
    destruct (scan_line_formatted st sp ct Ht) as [-> _].
    by rewrite <- app_assoc.
Qed.

Lemma scan_lines_result conversation :
  scan_lines conversation
  = scan_result (fold_left scan_line (split_char 10 conversation)
                           ([], py "未知", [])).
Proof. done. Qed.

Lemma formatted_line_one sp ct :
  plain_turn (sp, ct) → 10%N ∉ sp ++ py ": " ++ ct.
Proof.
  intros (_ & _ & _ & Hsp & Hct). cbn [fst snd] in *.
  rewrite !not_elem_of_app. split; [done|]. split; [|done].
  not_in_list.
Qed.

End round_trip_facts.

(** X17 (_format_conversation, extract_dialogue_turns): reading back a
    formatted conversation. When every turn has a stripped one-line
    speaker without a colon and a stripped one-line content, the line
    scanner finds exactly the turns that were formatted; and so does
    [extract_dialogue_turns] when none of its three patterns matches the
    formatted text. *)
Theorem format_scan_round_trip `{Runtime} (said : list (str * str))
    (conversation : ParsedConversation) :
  turns conversation = map (fun t => text_turn (fst t) (snd t)) said →
  Forall plain_turn said →
  scan_lines (_format_conversation conversation) = turns conversation
  ∧ (pattern_turns patterns (_format_conversation conversation) = [] →
     extract_dialogue_turns (_format_conversation conversation)
     = turns conversation).
Proof.
  intros Hturns Hsaid.
  assert (scan_lines (_format_conversation conversation) = turns conversation)
    as Hscan.
  { rewrite scan_lines_result. unfold _format_conversation. rewrite Hturns.
    rewrite map_map. cbn [speaker content text_turn mkDialogueTurn to_str].
    destruct said as [|t said]; [done|].
    change (py "
") with [10%N].
    rewrite split_char_join.
    - by rewrite scan_fold_formatted.
    - done.
    - apply Forall_map. eapply Forall_impl; [exact Hsaid|].
      intros [sp ct] Ht. by apply formatted_line_one. }
  split; [done|]. intros Hp. unfold extract_dialogue_turns. rewrite Hp.
  exact Hscan.
Qed.

Lemma format_scan_round_trip_witness :
  let conversation :=
    {| session_id := PStr (py "s1"); participants := [];
       turns := [text_turn (py "客服") (py "您好，请问有什么可以帮您");
                 text_turn (py "顾客") (py "我想退货")];
       metadata := ∅ |} in
  @extract_dialogue_turns Demo.runtime
    (@_format_conversation Demo.runtime conversation)
  = turns conversation.
Proof.
  intros conversation.
  apply (proj2 (@format_scan_round_trip Demo.runtime
                  [(py "客服", py "您好，请问有什么可以帮您");
                   (py "顾客", py "我想退货")]
                  conversation eq_refl
                  ltac:(repeat (constructor;
                                [repeat split;
                                 first [vm_compute; reflexivity
                                       |not_in_list]|]);
                        constructor))).
  vm_compute. reflexivity.
Defined.

(* ===================================================================== *)
(** ** The summary of an inspection answer *)
(* ===================================================================== *)

Lemma lstrip_elem c s : c ∈ lstrip s → c ∈ s.
Proof.
  induction s as [|x s IH]; [done|]. cbn [lstrip].
  destruct (isspace x); [|done]. intros Hc. right. by apply IH.
Qed.

Lemma elem_of_rev {A} (x : A) l : x ∈ rev l ↔ x ∈ l.
Proof. rewrite !list_elem_of_In. symmetry. apply in_rev. Qed.

Lemma strip_elem c s : c ∈ strip s → c ∈ s.
Proof.
  unfold strip, rstrip. rewrite elem_of_rev. intros Hc%lstrip_elem.
  apply lstrip_elem. by apply elem_of_rev.
Qed.

Lemma lstrip_idem s : lstrip (lstrip s) = lstrip s.
Proof.
  pose proof (lstrip_head s) as Hh. destruct (lstrip s) as [|c r]; [done|].
  cbn [lstrip]. by rewrite Hh.
Qed.

Lemma strip_idem s : strip (strip s) = strip s.
Proof.
  unfold strip at 1.
  assert (lstrip (strip s) = strip s) as ->.
  { unfold strip. pose proof (lstrip_head s) as Hh.
    destruct (lstrip s) as [|c r]; [done|].
    change (rstrip (c :: r)) with (rstrip ([] ++ c :: r)).
    rewrite (rstrip_app_nonspace [] c r Hh). cbn [app lstrip]. by rewrite Hh. }
  unfold strip, rstrip. by rewrite rev_involutive, lstrip_idem.
Qed.

Section summary_facts.
Import Re.

Lemma cap_inv_Eol P : cap_inv P Eol.
Proof.
  intros R s c k x Hc Hm. cbn [mt] in Hm.
  destruct (at_eol s); [|done]. by exists s, c.
Qed.

Lemma cap_inv_Lit P l : cap_inv P (Lit l).
Proof.
  induction l as [|a l IH]; [apply cap_inv_Eps|].
  destruct l as [|b l]; [apply cap_inv_Chr|].
  change (Lit (a :: b :: l)) with (Seq (One a) (Lit (b :: l))).
  apply cap_inv_Seq; [apply cap_inv_Chr|exact IH].
Qed.

(** A repetition of a character class consumes characters of the class
    and leaves the captures alone. *)
Lemma star_loop_class_run {R} g p (k : str → caps → option R) n s c x :
  star_loop g (fun s' c' k' => mt (Chr p) s' c' k') k n s c = Some x →
  ∃ a s', s = a ++ s' ∧ forallb p a = true ∧ k s' c = Some x.
Proof.
  revert s. induction n as [|n IH]; intros s Hm; cbn [star_loop] in Hm.
  { by exists [], s. }
  assert (k s c = Some x
          ∨ mt (Chr p) s c (fun s' c' =>
               if (length s' <? length s)%nat
               then star_loop g (fun s0 c0 k' => mt (Chr p) s0 c0 k') k n s' c'
               else None) = Some x) as [Hk|Hmore].
  { destruct g; apply orelse_Some in Hm; tauto. }
  { by exists [], s. }
  cbn [mt] in Hmore. destruct s as [|y s]; [done|].
  destruct (p y) eqn:Hp; [|done].
  destruct (length s <? length (y :: s))%nat; [|done].
  destruct (IH _ Hmore) as (a & s' & -> & Ha & Hk).
  exists (y :: a), s'. split; [done|]. split; [|done].
  cbn [forallb]. by rewrite Hp.
Qed.

Lemma cap_inv_Group_run (P : caps → Prop) i g p :
  (∀ c a, P c → forallb p a = true → P (set_cap i a c)) →
  cap_inv P (Group i (Plus g (Chr p))).
Proof.
  intros Hset R s c k x Hc Hm. unfold Plus in Hm. cbn [mt] in Hm.
  destruct s as [|y s]; [done|]. destruct (p y) eqn:Hp; [|done].
  change (mt (Star g (Chr p)) s c ?k0)
    with (star_loop g (fun s' c' k' => mt (Chr p) s' c' k') k0
            (S (length s)) s c) in Hm.
  apply star_loop_class_run in Hm as (a & s' & -> & Ha & Hk).
  eexists _, _. split; [|exact Hk]. apply Hset; [done|].
  replace (take _ _) with (y :: a).
  - cbn [forallb]. by rewrite Hp.
  - symmetry. apply (take_app_suffix (y :: a) s').
Qed.

Lemma search_from_cap_inv (P : caps → Prop) r pre s m :
  cap_inv P r → P [] → search_from r pre s = Some m → P (m_caps m).
Proof.
  intros Hr Hnil. revert pre.
  induction s as [|y s IH]; intros pre Hm; cbn [search_from] in Hm.
  - destruct (match_here r []) as [[s' c]|] eqn:Hh; [|done].
    injection Hm as <-. cbn [m_caps]. unfold match_here in Hh.
    by destruct (Hr _ _ _ _ _ Hnil Hh) as (s1 & c1 & Hc1 & [= _ <-]).
  - destruct (match_here r (y :: s)) as [[s' c]|] eqn:Hh.
    + injection Hm as <-. cbn [m_caps]. unfold match_here in Hh.
      by destruct (Hr _ _ _ _ _ Hnil Hh) as (s1 & c1 & Hc1 & [= _ <-]).
    + by eapply IH.
Qed.

Lemma cap_inv_summary :
  cap_inv (fun c => forallb not_nl (group 1 c) = true) summary_pattern.
Proof.
  unfold summary_pattern, Seqs. cbn [fold_right].
  apply cap_inv_Seq; [apply cap_inv_Lit|].
  apply cap_inv_Seq; [apply cap_inv_Star, cap_inv_Chr|].
  apply cap_inv_Seq; [|apply cap_inv_Seq; [apply cap_inv_Eol|apply cap_inv_Eps]].
  apply cap_inv_Group_run. intros c a _ Ha. by rewrite group_set_cap_eq.
Qed.

Lemma startswith_absent l s t :
  contains l s = false → t `suffix_of` s → startswith l t = false.
Proof.
  intros Hc [pre ->]. induction pre as [|x pre IH].
  - cbn [app] in Hc. destruct t; cbn [contains] in Hc;
      by apply orb_false_iff in Hc as [? _].
  - apply IH. cbn [app contains] in Hc. by apply orb_false_iff in Hc as [_ ?].
Qed.

Lemma search_summary_absent response :
  contains (py "总结") response = false →
  search summary_pattern response = None.
Proof.
  intros Hc. apply search_from_none. intros t Ht.
  unfold match_here, summary_pattern, Seqs. cbn [fold_right mt].
  rewrite mt_Lit. by rewrite (startswith_absent _ _ _ Hc Ht).
Qed.

End summary_facts.

Lemma parse_inspection_summary response sid :
  summary (_parse_inspection_response response sid)
  = Some match Re.search summary_pattern response with
         | Some m => strip (Re.group 1 (Re.m_caps m))
         | None => []
         end.
Proof.
  unfold _parse_inspection_response.
  by destruct (fold_left _ _ _) as [[[? ?] ?] ?].
Qed.

(** X18 (_parse_inspection_response): a parsed report always has a
    summary; it is a single line without surrounding whitespace, and it is
    empty when the answer does not contain the label [总结]. *)
Theorem inspection_summary_line (response : str) (sid : pyval) :
  ∃ text,
    summary (_parse_inspection_response response sid) = Some text
    ∧ (10%N ∉ text)
    ∧ strip text = text
    ∧ (contains (py "总结") response = false → text = []).
Proof.
  rewrite parse_inspection_summary. eexists. split; [reflexivity|].
  destruct (Re.search summary_pattern response) as [m|] eqn:Hm.
  - split; [|split].
    + intros Hin%strip_elem.
      apply (search_from_cap_inv _ _ _ _ _ cap_inv_summary eq_refl) in Hm.
      rewrite forallb_forall in Hm.
      apply list_elem_of_In, Hm in Hin. by vm_compute in Hin.
    + apply strip_idem.
    + intros Habs%search_summary_absent. congruence.
  - split; [by intros ?%elem_of_nil|]. by split.
Qed.

Lemma inspection_summary_line_witness :
  summary (_parse_inspection_response (py "总体评分：85
服务很好") PNone) = Some [].
Proof.
  destruct (inspection_summary_line (py "总体评分：85
服务很好") PNone) as (text & -> & _ & _ & Hempty).
  rewrite Hempty; [reflexivity|]. vm_compute. reflexivity.
Defined.

Section summary_case_facts.
Import Re.

(** A lazy repetition of a class stops at the first place where what
    follows matches. *)
Lemma star_lazy_run {R} p (k : str → caps → option R) n a rest c :
  (length (a ++ rest) < n)%nat →
  forallb p a = true →
  (∀ a1 a2, a = a1 ++ a2 → a2 ≠ [] → k (a2 ++ rest) c = None) →
  is_Some (k rest c) →
  star_loop false (fun s' c' k' => mt (Chr p) s' c' k') k n (a ++ rest) c
  = k rest c.
Proof.
  revert n. induction a as [|y a IH]; intros n Hn Hp Hnone [x Hx].
  - destruct n; [simpl in Hn; lia|]. cbn [app star_loop]. by rewrite Hx.
  - destruct n; [simpl in Hn; lia|]. cbn [app star_loop].
    pose proof (Hnone [] (y :: a) eq_refl ltac:(done)) as Hk.
    cbn [app] in Hk. rewrite Hk. cbn [orelse mt].
    cbn [forallb] in Hp. apply andb_true_iff in Hp as [Hy Hp]. rewrite Hy.
    replace (length (a ++ rest) <? length (y :: a ++ rest))%nat with true
      by (symmetry; apply Nat.ltb_lt; simpl; lia).
    apply IH; [simpl in Hn; lia|done| |by exists x].
    intros a1 a2 -> Ha2. by apply (Hnone (y :: a1) a2).
Qed.

Lemma match_here_summary seps body rest :
  forallb score_seps seps = true →
  match body with b :: _ => score_seps b = false | [] => False end →
  10%N ∉ body →
  match rest with [] => True | c :: _ => c = 10%N end →
  match_here summary_pattern (py "总结" ++ seps ++ body ++ rest)
  = Some (rest, [(1%nat, body)]).
Proof.
  intros Hseps Hhead Hline Hrest.
  destruct body as [|b body]; [done|].
  assert (forallb not_nl (b :: body) = true) as Hnl.
  { apply forallb_forall. intros x Hx%list_elem_of_In. unfold not_nl.
    destruct (N.eqb_spec x 10) as [->|]; [done|done]. }
  assert (at_eol rest = true) as Heol.
  { destruct rest as [|c rest]; [done|]. subst c. done. }
  unfold match_here, summary_pattern, Seqs. cbn [fold_right].
  change (mt (Seq ?r1 ?r2) ?s ?c ?k)
    with (mt r1 s c (fun s' c' => mt r2 s' c' k)).
  rewrite mt_Lit.
  change (startswith (py "总结") (py "总结" ++ seps ++ (b :: body) ++ rest))
    with true.
  change (drop (length (py "总结")) (py "总结" ++ seps ++ (b :: body) ++ rest))
    with (seps ++ (b :: body) ++ rest).
  cbv iota.
  assert (mt (Seq (Group 1 (Plus false (Chr not_nl))) (Seq Eol Eps))
             ((b :: body) ++ rest) []
             (fun s' c' => Some (s', c'))
          = Some (rest, [(1%nat, b :: body)])) as Hgroup.
  { cbn [mt app]. unfold Plus. cbn [mt].
    cbn [forallb] in Hnl. apply andb_true_iff in Hnl as [Hb Hnl]. rewrite Hb.
    etrans; [apply (star_lazy_run not_nl _ _ body rest [])|].
    - lia.
    - done.
    - intros a1 a2 -> Ha2. destruct a2 as [|y a2]; [done|].
      assert (not_nl y = true) as Hy.
      { rewrite forallb_app in Hnl. apply andb_true_iff in Hnl as [_ Hnl].
        cbn [forallb] in Hnl. by apply andb_true_iff in Hnl as [? _]. }
      cbn [app at_eol]. unfold not_nl in Hy.
      by destruct (y =? 10)%N.
    - rewrite Heol. by eexists.
    - rewrite Heol. do 2 f_equal. unfold set_cap. cbn [List.filter].
      do 2 f_equal.
      apply (take_app_suffix (b :: body) rest). }
  change (mt (Seq ?r1 ?r2) ?s ?c ?k)
    with (mt r1 s c (fun s' c' => mt r2 s' c' k)).
  rewrite mt_Star_class.
  - rewrite (span_prefix score_seps seps ((b :: body) ++ rest) Hseps Hhead).
    cbn [snd]. exact Hgroup.
  - left. rewrite (span_prefix score_seps seps ((b :: body) ++ rest) Hseps Hhead).
    cbn [snd]. rewrite Hgroup. by eexists.
Qed.

Lemma label_not_before pre t rest :
  contains (py "总结") pre = false → t ≠ [] → t `suffix_of` pre →
  startswith (py "总结") (t ++ py "总结" ++ rest) = false.
Proof.
  intros Hc Hne Ht. pose proof (startswith_absent _ _ _ Hc Ht) as Hs.
  destruct t as [|x [|y t]]; [done| |].
  - change (py "总结") with [0x603B%N; 0x7ED3%N]. cbn [app startswith].
    change (0x7ED3 =? 0x603B)%N with false. by rewrite andb_false_r.
  - change (py "总结") with [0x603B%N; 0x7ED3%N] in *.
    cbn [app startswith] in *. exact Hs.
Qed.

Lemma search_summary_found pre seps body rest acc :
  contains (py "总结") pre = false →
  forallb score_seps seps = true →
  match body with b :: _ => score_seps b = false | [] => False end →
  10%N ∉ body →
  match rest with [] => True | c :: _ => c = 10%N end →
  option_map m_caps
    (search_from summary_pattern acc
       (pre ++ py "总结" ++ seps ++ body ++ rest))
  = Some [(1%nat, body)].
Proof.
  intros Hc Hseps Hhead Hline Hrest.
  assert (∀ t, t `suffix_of` pre →
            option_map m_caps
              (search_from summary_pattern acc
                 (t ++ py "总结" ++ seps ++ body ++ rest))
            = Some [(1%nat, body)]) as Hall; [|by apply Hall].
  intros t. revert acc. induction t as [|x t IH]; intros acc Ht.
  - cbn [app].
    pose proof (match_here_summary seps body rest Hseps Hhead Hline Hrest)
      as Hm.
    destruct (py "总结" ++ seps ++ body ++ rest) as [|z s] eqn:Hs;
      [done|]. cbn [search_from]. by rewrite Hm.
  - cbn [app search_from].
    replace (match_here summary_pattern
               (x :: t ++ py "总结" ++ seps ++ body ++ rest))
      with (@None (str * caps)).
    + apply IH. by eapply suffix_cons_l.
    + symmetry. unfold match_here, summary_pattern, Seqs. cbn [fold_right].
      change (mt (Seq ?r1 ?r2) ?s ?c ?k)
        with (mt r1 s c (fun s' c' => mt r2 s' c' k)).
      rewrite mt_Lit.
      change (x :: t ++ ?r) with ((x :: t) ++ r).
      by rewrite (label_not_before pre (x :: t) _ Hc ltac:(done) Ht).
Qed.

End summary_case_facts.

(** X19 (_parse_inspection_response): the usual answer. When the label
    [总结] first occurs followed by colons or whitespace and then by text
    that runs to the end of its line, the summary of the report is that
    text, stripped. *)
Theorem inspection_summary_main_case (pre seps body rest : str)
    (sid : pyval) :
  contains (py "总结") pre = false →
  forallb score_seps seps = true →
  match body with b :: _ => score_seps b = false | [] => False end →
  10%N ∉ body →
  match rest with [] => True | c :: _ => c = 10%N end →
  summary (_parse_inspection_response
             (pre ++ py "总结" ++ seps ++ body ++ rest) sid)
  = Some (strip body).
Proof.
  intros Hc Hseps Hhead Hline Hrest. rewrite parse_inspection_summary.
  pose proof (search_summary_found pre seps body rest [] Hc Hseps Hhead
                Hline Hrest) as Hm.
  unfold Re.search.
  destruct (Re.search_from summary_pattern [] _) as [m|]; [|done].
  injection Hm as ->. reflexivity.
Qed.

Lemma inspection_summary_main_case_witness :
  summary (_parse_inspection_response (py "总体评分：85
总结： 服务态度良好，回复及时 
建议：无") PNone)
  = Some (py "服务态度良好，回复及时").
Proof.
  etrans; [apply (inspection_summary_main_case
                    (py "总体评分：85
") (py "： ") (py "服务态度良好，回复及时 ") (py "
建议：无") PNone)|].
  - vm_compute. reflexivity.
  - vm_compute. reflexivity.
  - vm_compute. reflexivity.
  - not_in_list.
  - vm_compute. reflexivity.
  - vm_compute. reflexivity.
Defined.

(* ===================================================================== *)
(** ** Inspection with the client in mock mode *)
(* ===================================================================== *)

Lemma take_heading {A} (heading text rest : list A) n m :
  length heading = n → (m <= length text)%nat →
  take (n + m) (heading ++ text ++ rest) = heading ++ take m text.
Proof.
  intros <- Hm. rewrite take_app. rewrite take_ge by lia. f_equal.
  replace (length heading + m - length heading)%nat with m by lia.
  rewrite take_app. replace (m - length text)%nat with 0%nat by lia.
  cbn [take]. by rewrite app_nil_r.
Qed.

Lemma mock_answer (text : str) :
  (26 <= length text)%nat →
  _mock_generate (PromptTemplates.QUALITY_INSPECT text)
  = py "模拟回复: 已收到您的请求: 
请对以下客服对话进行质量检查：

对话内容：
" ++ take 26 text ++ py "...".
Proof.
  intros Hlen.
  unfold _mock_generate, PromptTemplates.QUALITY_INSPECT.
  change 50%nat with (24 + 26)%nat.
  rewrite (take_heading _ text _ 24 26); [|vm_compute; reflexivity|done].
  rewrite <- !app_assoc. rewrite (app_assoc (py "模拟回复: 已收到您的请求: ")).
  assert (py "模拟回复: 已收到您的请求: " ++ py "
请对以下客服对话进行质量检查：

对话内容：
" = py "模拟回复: 已收到您的请求: 
请对以下客服对话进行质量检查：

对话内容：
") as Heq by (vm_compute; reflexivity).
  rewrite Heq. reflexivity.
Qed.

Lemma no_digit_report response sid :
  no_digit response →
  (∀ key, report_score (_parse_inspection_response response sid) key = 0%Q)
  ∧ issues (_parse_inspection_response response sid) = [].
Proof.
  intros Hs. split.
  - intros key. rewrite parse_inspection_scores. unfold score_of.
    by rewrite first_labelled_number_no_digit.
  - rewrite parse_inspection_issues. unfold split_at_markers.
    cbn [split_at_markers_fuel]. by rewrite find_marker_no_digit.
Qed.

Lemma mock_report `{Runtime} conversation :
  (26 <= length (_format_conversation conversation))%nat →
  @inspect_conversation _ mock_client conversation
  = _parse_inspection_response
      (py "模拟回复: 已收到您的请求: 
请对以下客服对话进行质量检查：

对话内容：
" ++ take 26 (_format_conversation conversation) ++ py "...")
      (session_id conversation).
Proof.
  intros Hlen. unfold inspect_conversation. cbn [generate_text mock_client].
  change (mbind ?f (Ok ?a)) with (f a). cbv beta.
  by rewrite mock_answer.
Qed.

(** X20 (inspect_conversation, _mock_generate): with the client in mock
    mode the report is read off the echo of the first fifty characters of
    the prompt, that is the fixed heading and the first 26 characters of
    the formatted conversation: nothing after them has any influence, and
    when they hold no decimal digit all four scores are zero and no issue
    is found. *)
Theorem mock_inspection `{Runtime} (conversation : ParsedConversation) :
  let text := _format_conversation conversation in
  let report := @inspect_conversation _ mock_client conversation in
  (26 <= length text)%nat →
  report
  = _parse_inspection_response
      (py "模拟回复: 已收到您的请求: 
请对以下客服对话进行质量检查：

对话内容：
" ++ take 26 text ++ py "...")
      (session_id conversation)
  ∧ (existsb isdecimal (take 26 text) = false →
     (∀ key, report_score report key = 0%Q) ∧ issues report = []).
Proof.
  intros text report Hlen. subst text report.
  rewrite (mock_report conversation Hlen).
  split; [reflexivity|]. intros Hd. apply no_digit_report.
  apply no_digit_existsb. rewrite !existsb_app, Hd. vm_compute. reflexivity.
Qed.

Lemma mock_inspection_witness :
  let conversation :=
    {| session_id := PStr (py "s1"); participants := [];
       turns := [text_turn (py "客户") (py "您好，我的订单一直没有发货，已经等了很多天");
                 text_turn (py "客服") (py "总体评分：95")];
       metadata := ∅ |} in
  report_score
    (@inspect_conversation Demo.runtime mock_client conversation) overall
  = 0%Q.
Proof.
  intros conversation.
  assert (26 <= length (@_format_conversation Demo.runtime conversation))%nat
    as Hlen by (vm_compute; lia).
  assert (existsb isdecimal
            (take 26 (@_format_conversation Demo.runtime conversation))
          = false) as Hd by (vm_compute; reflexivity).
  exact (proj1 (proj2 (@mock_inspection Demo.runtime conversation Hlen) Hd)
           overall).
Defined.

(* ===================================================================== *)
(** ** JSON objects that do not parse *)
(* ===================================================================== *)

Section json_object_facts.
Context `{Runtime}.

Lemma turns_of_json_not_dict before v after :
  (∀ d, v ≠ PDict d) →
  turns_of_json (map PDict before ++ v :: after)
  = Raise (AttributeError v "get").
Proof.
  intros Hv. induction before as [|d before IH].
  - cbn [map app turns_of_json]. destruct v; try done. by destruct (Hv items).
  - cbn [map app turns_of_json turn_of_json].
    change (mbind ?f (Ok ?a)) with (f a). cbv beta. by rewrite IH.
Qed.

Lemma list_of_set_raised vs e :
  fold_left (fun acc v =>
               seen ← acc;
               if hashable v then Ok (set_add v seen)
               else Raise (TypeError_unhashable v))
            vs (Raise e)
  = Raise e.
Proof. induction vs as [|v vs IH]; [done|]. cbn [fold_left]. apply IH. Qed.

Lemma list_of_set_unhashable_from known v rest seen :
  forallb hashable known = true → hashable v = false →
  fold_left (fun acc v =>
               seen ← acc;
               if hashable v then Ok (set_add v seen)
               else Raise (TypeError_unhashable v))
            (known ++ v :: rest) (Ok seen)
  = Raise (TypeError_unhashable v).
Proof.
  intros Hk Hv. revert seen. induction known as [|k known IH]; intros seen.
  - cbn [app fold_left]. change (mbind ?f (Ok ?a)) with (f a). cbv beta.
    rewrite Hv. apply list_of_set_raised.
  - cbn [forallb] in Hk. apply andb_true_iff in Hk as [Hk Hks].
    cbn [app fold_left]. change (mbind ?f (Ok ?a)) with (f a). cbv beta.
    rewrite Hk. by apply IH.
Qed.

Lemma list_of_set_unhashable known v rest :
  forallb hashable known = true → hashable v = false →
  list_of_set (known ++ v :: rest) = Raise (TypeError_unhashable v).
Proof. apply list_of_set_unhashable_from. Qed.

Lemma parse_json_session raw_content c :
  _parse_json raw_content = Ok c → truthy (session_id c) = true.
Proof.
  unfold _parse_json. destruct (json_loads raw_content) as [data|msg].
  2: { intros [= <-]. cbn [session_id parse_error]. by vm_compute. }
  destruct data as [| | | | |elems|items];
    try (intros [= <-]; cbn [session_id parse_error]; by vm_compute).
  - destruct (turns_of_json elems) as [ts|e]; [|done].
    change (mbind ?f (Ok ?a)) with (f a). cbv beta.
    change (mbind ?f (Ok ?a)) with (f a). cbv beta iota.
    destruct (list_of_set (map speaker ts)) as [ps|e]; [|done].
    change (mbind ?f (Ok ?a)) with (f a). cbv beta. done.
  - destruct (py_iter _) as [elems|e]; [|done].
    change (mbind ?f (Ok ?a)) with (f a). cbv beta.
    destruct (turns_of_json elems) as [ts|e]; [|done].
    change (mbind ?f (Ok ?a)) with (f a). cbv beta.
    change (mbind ?f (Ok ?a)) with (f a). cbv beta iota.
    destruct (list_of_set (map speaker ts)) as [ps|e]; [|done].
    change (mbind ?f (Ok ?a)) with (f a). cbv beta.
    change (mbind ?f (Ok ?a)) with (f a). cbv beta.
    intros [= <-]. cbn [session_id]. unfold py_or.
    destruct (truthy (dict_get _ _ _)) eqn:Ht; [done|by vm_compute].
Qed.

End json_object_facts.

(** X21 (parse_conversation, _parse_json): how a JSON object fails to
    parse. The turns are read from the key [turns], else [conversation],
    else taken as empty. A value there that cannot be iterated, an element
    that is not an object, or a speaker that cannot be hashed gives a
    parse error carrying the message of the exception; an object with
    neither key is a conversation without turns; and a conversation parsed
    as JSON never has a falsy session identifier. *)
Theorem json_object_parse_errors `{Runtime} (raw_content : str)
    (items : list (str * pyval)) :
  json_loads raw_content = Decoded (PDict items) →
  let source :=
    dict_get (py "turns") items
             (dict_get (py "conversation") items (PList [])) in
  (∀ e, py_iter source = Raise e →
        parse_conversation raw_content (py "json")
        = Ok (parse_error (exn_str e)))
  ∧ (∀ before v after,
       py_iter source = Ok (map PDict before ++ v :: after) →
       (∀ d, v ≠ PDict d) →
       parse_conversation raw_content (py "json")
       = Ok (parse_error (exn_str (AttributeError v "get"))))
  ∧ (∀ dicts known v rest,
       py_iter source = Ok (map PDict dicts) →
       map (fun d => dict_get (py "speaker") d (PStr (py "未知"))) dicts
       = known ++ v :: rest →
       forallb hashable known = true → hashable v = false →
       parse_conversation raw_content (py "json")
       = Ok (parse_error (exn_str (TypeError_unhashable v))))
  ∧ (dict_has (py "turns") items = false →
     dict_has (py "conversation") items = false →
     parse_conversation raw_content (py "json")
     = Ok {| session_id :=
               py_or (dict_get (py "session_id") items
                               (PStr (py "json_session")))
                     (PStr (py "json_session"));
             participants := [];
             turns := [];
             metadata := {[ py "format" := PStr (py "json") ]} |})
  ∧ (∀ c, parse_conversation raw_content (py "json") = Ok c →
          truthy (session_id c) = true).
Proof.
  intros Hj source.
  assert (∀ e, _parse_json raw_content = Raise e →
               parse_conversation raw_content (py "json")
               = Ok (parse_error (exn_str e))) as Hraise.
  { intros e He. rewrite parse_conversation_branch, parse_branch_json.
    by rewrite He. }
  split; [|split; [|split; [|split]]].
  - intros e He. apply Hraise. unfold _parse_json. rewrite Hj.
    fold source. by rewrite He.
  - intros before v after Hs Hv. apply Hraise. unfold _parse_json.
    rewrite Hj. fold source. rewrite Hs.
    change (mbind ?f (Ok ?a)) with (f a). cbv beta.
    by rewrite turns_of_json_not_dict.
  - intros dicts known v rest Hs Hspk Hk Hv. apply Hraise.
    unfold _parse_json. rewrite Hj. fold source. rewrite Hs.
    change (mbind ?f (Ok ?a)) with (f a). cbv beta.
    rewrite turns_of_json_dicts.
    change (mbind ?f (Ok ?a)) with (f a). cbv beta.
    change (mbind ?f (Ok ?a)) with (f a). cbv beta iota.
    rewrite map_map. cbn [speaker mkDialogueTurn]. rewrite Hspk.
    by rewrite list_of_set_unhashable.
  - intros Ht Hc. rewrite parse_conversation_branch, parse_branch_json.
    unfold _parse_json. rewrite Hj.
    rewrite (dict_get_absent _ _ _ Ht), (dict_get_absent _ _ _ Hc).
    reflexivity.
  - intros c. rewrite parse_conversation_branch, parse_branch_json.
    destruct (_parse_json raw_content) as [c'|e] eqn:Hp.
    + intros [= <-]. by eapply parse_json_session.
    + intros [= <-]. by vm_compute.
Qed.

Lemma json_object_parse_errors_witness :
  @parse_conversation Demo.runtime
    (Demo.json "{'session_id': '', 'note': 'empty'}") (py "json")
  = Ok {| session_id := PStr (py "json_session");
          participants := [];
          turns := [];
          metadata := {[ py "format" := PStr (py "json") ]} |}.
Proof.
  etrans; [apply (proj1 (proj2 (proj2 (proj2
     (@json_object_parse_errors Demo.runtime
        (Demo.json "{'session_id': '', 'note': 'empty'}")
        [(py "session_id", PStr []); (py "note", PStr (py "empty"))]
        ltac:(vm_compute; reflexivity))))))|].
  - vm_compute. reflexivity.
  - vm_compute. reflexivity.
  - vm_compute. reflexivity.
Defined.
